(** * moto-scraper: discovery, classification, normalisation, merge, download

    A shallow embedding of the core of the crawler pipeline:
    - [src/utils/units.py]              value parsing and unit conversion;
    - [src/crawler/classifier.py]       page-type classification;
    - [src/crawler/discovery.py]        URL normalisation and the discovery run;
    - [src/downloaders/image_downloader.py]  content-addressed image download;
    - [src/processors/merger.py]        the record merger.

    Python [str] values are modelled as [string]; the text functions are
    written for ASCII text (one character per code point).  Python [float]
    is IEEE binary64, modelled by the primitive floats of the kernel.
    Exceptions are results of type [result]; mutable objects that can be
    shared live in an explicit store.

    The first part holds the definitions, the second part the proofs. *)

From Stdlib Require Import ZArith NArith Floats Ascii String List Bool Lia Sorted.
From stdpp Require Import gmap strings list.

Set Warnings "-inexact-float".

(* ===================================================================== *)
(** * Part I: definitions *)
(* ===================================================================== *)

(** ** Exceptions *)

Inductive exn :=
| ValueError
| TypeError
| RuntimeError (msg : string).

Inductive result (A : Type) :=
| Ok (a : A)
| Raise (e : exn).
Arguments Ok {A} a.
Arguments Raise {A} e.

Global Instance result_ret : MRet result := fun A a => Ok a.

Global Instance result_bind : MBind result := fun A B k r =>
  match r with
  | Ok a => k a
  | Raise e => Raise e
  end.

Global Instance result_fmap : FMap result := fun A B f r =>
  match r with
  | Ok a => Ok (f a)
  | Raise e => Raise e
  end.

(** ** Python string operations *)

Definition in_range (lo hi c : ascii) : bool :=
  ((N_of_ascii lo <=? N_of_ascii c)%N && (N_of_ascii c <=? N_of_ascii hi)%N)%bool.

Definition is_digit (c : ascii) : bool := in_range "0" "9" c.
Definition is_upper (c : ascii) : bool := in_range "A" "Z" c.
Definition is_lower (c : ascii) : bool := in_range "a" "z" c.
Definition is_alpha (c : ascii) : bool := is_upper c || is_lower c.

(** [str.isspace] on ASCII: TAB, LF, VT, FF, CR, FS, GS, RS, US and space.
    The regular-expression class [\s] on [str] patterns is the same set. *)
Definition is_space (c : ascii) : bool :=
  in_range "009" "013" c || in_range "028" "032" c.

Definition char_is (a c : ascii) : bool := Ascii.eqb a c.

Definition lower_char (c : ascii) : ascii :=
  if is_upper c then ascii_of_N (N_of_ascii c + 32) else c.

(** [s.lower()] *)
Fixpoint lower (s : string) : string :=
  match s with
  | EmptyString => EmptyString
  | String c s' => String (lower_char c) (lower s')
  end.

Definition nonempty (s : string) : bool :=
  match s with
  | EmptyString => false
  | String _ _ => true
  end.

Fixpoint forall_chars (p : ascii -> bool) (s : string) : bool :=
  match s with
  | EmptyString => true
  | String c s' => p c && forall_chars p s'
  end.

Fixpoint exists_char (p : ascii -> bool) (s : string) : bool :=
  match s with
  | EmptyString => false
  | String c s' => p c || exists_char p s'
  end.

(** [s.startswith(p)] *)
Fixpoint startswith (p s : string) : bool :=
  match p with
  | EmptyString => true
  | String a p' =>
      match s with
      | EmptyString => false
      | String b s' => Ascii.eqb a b && startswith p' s'
      end
  end.

(** [needle in s] *)
Fixpoint contains (needle s : string) : bool :=
  startswith needle s ||
  match s with
  | EmptyString => false
  | String _ s' => contains needle s'
  end.

(** The characters before the first one satisfying [p], and the rest
    (which starts with that character, or is empty). *)
Fixpoint span (p : ascii -> bool) (s : string) : string * string :=
  match s with
  | EmptyString => (EmptyString, EmptyString)
  | String c s' =>
      if p c then (EmptyString, s)
      else let '(a, b) := span p s' in (String c a, b)
  end.

(** [s.split(c, 1)] when [c in s]: the text before the first [c] and the
    text after it; [None] when [c] does not occur. *)
Definition cut (c : ascii) (s : string) : option (string * string) :=
  match span (char_is c) s with
  | (a, String _ b) => Some (a, b)
  | (_, EmptyString) => None
  end.

Fixpoint drop_chars (n : nat) (s : string) : string :=
  match n, s with
  | S n', String _ s' => drop_chars n' s'
  | _, _ => s
  end.

Fixpoint take_chars (n : nat) (s : string) : string :=
  match n, s with
  | S n', String c s' => String c (take_chars n' s')
  | _, _ => EmptyString
  end.

(** [s.lstrip(chars)] and [s.rstrip(chars)] for a set of characters. *)
Fixpoint lstrip_of (p : ascii -> bool) (s : string) : string :=
  match s with
  | EmptyString => EmptyString
  | String c s' => if p c then lstrip_of p s' else s
  end.

Fixpoint rstrip_of (p : ascii -> bool) (s : string) : string :=
  match s with
  | EmptyString => EmptyString
  | String c s' =>
      match rstrip_of p s' with
      | EmptyString => if p c then EmptyString else String c EmptyString
      | r => String c r
      end
  end.

(** [s.strip()] *)
Definition strip (s : string) : string := rstrip_of is_space (lstrip_of is_space s).

(** [s.replace(old, new)] for a non-empty [old]: occurrences are replaced
    from the left and do not overlap; [skip] counts the characters of the
    occurrence just replaced that are still to be passed over. *)
Fixpoint replace_from (old new : string) (skip : nat) (s : string) : string :=
  match s with
  | EmptyString => EmptyString
  | String c s' =>
      match skip with
      | S k => replace_from old new k s'
      | O =>
          if startswith old s
          then new +:+ replace_from old new (String.length old - 1) s'
          else String c (replace_from old new 0 s')
      end
  end.

Definition replace (old new s : string) : string := replace_from old new 0 s.

(** [s.split(c)] *)
Fixpoint split_on (c : ascii) (s : string) : list string :=
  match s with
  | EmptyString => [EmptyString]
  | String a s' =>
      match split_on c s' with
      | w :: ws => if char_is c a then EmptyString :: w :: ws else String a w :: ws
      | [] => [String a EmptyString]
      end
  end.

Definition string_in (s : string) (l : list string) : bool :=
  existsb (String.eqb s) l.

(** Decimal digits of a natural number, most significant first. *)
Definition digit_char (n : N) : ascii := ascii_of_N (48 + n).

Fixpoint digits_fuel (fuel : nat) (n : N) (acc : string) : string :=
  match fuel with
  | O => acc
  | S fuel' =>
      let acc' := String (digit_char (n mod 10)) acc in
      if (n <? 10)%N then acc' else digits_fuel fuel' (n / 10) acc'
  end.

(** [str(n)] for a non-negative integer. *)
Definition str_of_N (n : N) : string := digits_fuel (S (N.to_nat (N.log2 n))) n EmptyString.

(** [str(z)] *)
Definition str_of_Z (z : Z) : string :=
  match z with
  | Zneg p => String "-" (str_of_N (Npos p))
  | _ => str_of_N (Z.to_N z)
  end.

Fixpoint zeros (n : nat) : string :=
  match n with
  | O => EmptyString
  | S n' => String "0" (zeros n')
  end.

(** [f"{z:03d}"]: zero padding to width three, the sign counted in. *)
Definition format_03d (z : Z) : string :=
  match z with
  | Zneg p =>
      let d := str_of_N (Npos p) in
      String "-" (zeros (2 - String.length d) +:+ d)
  | _ =>
      let d := str_of_N (Z.to_N z) in
      zeros (3 - String.length d) +:+ d
  end.


(** ** Floating point ([float] is IEEE binary64) *)

Definition sf_of_signed (neg : bool) (n : N) : spec_float :=
  match n with
  | N0 => S754_zero neg
  | Npos p => S754_finite neg p 0
  end.

(** The binary64 value nearest to [±n / d] (ties to even), as the
    correctly rounded decimal-to-binary conversion of CPython gives it. *)
Definition ratio_to_float (neg : bool) (n : N) (d : positive) : float :=
  SF2Prim (SFdiv prec emax (sf_of_signed neg n) (S754_finite false d 0)).

Fixpoint pow10 (k : nat) : positive :=
  match k with
  | O => 1%positive
  | S k' => (10 * pow10 k')%positive
  end.

(** Rounding of the rational [n / d] (with [0 <= n], [0 < d]) to the
    nearest integer, ties to even. *)
Definition round_half_even (n : N) (d : positive) : N :=
  let q := (n / Npos d)%N in
  let r := (n mod Npos d)%N in
  match (2 * r ?= Npos d)%N with
  | Lt => q
  | Gt => (q + 1)%N
  | Eq => if N.even q then q else (q + 1)%N
  end.

(** [round(x, ndigits)] on a float, for a small non-negative [ndigits]:
    CPython prints the exact binary value with [ndigits] decimals,
    correctly rounded, and converts the decimal string back.  Infinities,
    NaN and zeros are returned as they are. *)
Definition py_round (x : float) (ndigits : nat) : float :=
  match Prim2SF x with
  | S754_finite neg m e =>
      let scale := pow10 ndigits in
      let n :=
        match e with
        | Z0 => (Npos m * Npos scale)%N
        | Zpos p => (Npos m * Npos (Pos.pow 2 p) * Npos scale)%N
        | Zneg p => round_half_even (Npos m * Npos scale) (Pos.pow 2 p)
        end in
      ratio_to_float neg n scale
  | _ => x
  end.

(** [float(s)] for a string of decimal digits and dots, which is all the
    patterns of [parse_spec_value] can capture: a numeral has at least one
    digit and at most one dot; anything else raises [ValueError]. *)
Fixpoint digits_value (s : string) (acc : N) : N :=
  match s with
  | EmptyString => acc
  | String c s' => digits_value s' (10 * acc + (N_of_ascii c - 48))%N
  end.

Definition py_float (s : string) : result float :=
  match cut "." s with
  | None =>
      if forall_chars is_digit s && nonempty s
      then Ok (ratio_to_float false (digits_value s 0) 1)
      else Raise ValueError
  | Some (a, b) =>
      if forall_chars is_digit a && forall_chars is_digit b
         && (nonempty a || nonempty b)
      then Ok (ratio_to_float false (digits_value (a +:+ b) 0)
                 (pow10 (String.length b)))
      else Raise ValueError
  end.

(** ** Regular expressions (the fragment used by [units.py])

    A backtracking matcher in continuation-passing style: quantifiers are
    greedy and give back what they took when the rest of the pattern
    fails, as [re] does.  Captured groups are kept in an association
    list, the latest capture of a group first. *)

Inductive regex :=
| Cls (p : ascii -> bool)        (* one character of a class *)
| Star (p : ascii -> bool)       (* [class]*, greedy *)
| Cat (r1 r2 : regex)            (* r1 r2 *)
| Alt (r1 r2 : regex)            (* r1 | r2, the left one first *)
| Opt (r : regex)                (* (?:r)?, greedy *)
| Grp (n : nat) (r : regex).     (* capturing group number n *)

Definition Plus (p : ascii -> bool) : regex := Cat (Cls p) (Star p).

Definition captures := list (nat * string).

Definition group (n : nat) (caps : captures) : option string :=
  snd <$> List.find (fun c => Nat.eqb (fst c) n) caps.

Definition or_else {A} (x : option A) (y : option A) : option A :=
  match x with
  | Some _ => x
  | None => y
  end.

Fixpoint match_star {R} (p : ascii -> bool) (s : string)
    (k : string -> option R) : option R :=
  match s with
  | String c s' =>
      if p c then or_else (match_star p s' k) (k s) else k s
  | EmptyString => k s
  end.

Fixpoint match_re {R} (r : regex) (s : string) (caps : captures)
    (k : string -> captures -> option R) : option R :=
  match r with
  | Cls p =>
      match s with
      | String c s' => if p c then k s' caps else None
      | EmptyString => None
      end
  | Star p => match_star p s (fun s' => k s' caps)
  | Cat r1 r2 => match_re r1 s caps (fun s1 c1 => match_re r2 s1 c1 k)
  | Alt r1 r2 => or_else (match_re r1 s caps k) (match_re r2 s caps k)
  | Opt r1 => or_else (match_re r1 s caps k) (k s caps)
  | Grp n r1 =>
      match_re r1 s caps (fun s' c' =>
        k s' ((n, take_chars (String.length s - String.length s') s) :: c'))
  end.

(** [re.search(pattern, text)]: the match at the leftmost position that
    has one; the result is the captures of that match. *)
Fixpoint re_search (r : regex) (s : string) : option captures :=
  or_else (match_re r s [] (fun _ caps => Some caps))
    match s with
    | EmptyString => None
    | String _ s' => re_search r s'
    end.

(** ** [src/utils/units.py] *)

(** Conversion constants *)
Definition HP_TO_KW : float := 0.7457.
Definition LBFT_TO_NM : float := 1.3558.
Definition INCH_TO_MM : float := 25.4.
Definition FOOT_TO_MM : float := 304.8.
Definition LBS_TO_KG : float := 0.453592.
Definition MPH_TO_KMH : float := 1.60934.
Definition GALLON_TO_LITER : float := 3.78541.

Definition convert_power_hp_to_kw (horsepower : float) : float :=
  py_round (horsepower * HP_TO_KW) 2.

Definition convert_torque_lbft_to_nm (torque_lbft : float) : float :=
  py_round (torque_lbft * LBFT_TO_NM) 2.

Definition convert_length_inches_to_mm (inches : float) : float :=
  py_round (inches * INCH_TO_MM) 1.

Definition convert_length_feet_to_mm (feet : float) : float :=
  py_round (feet * FOOT_TO_MM) 1.

Definition convert_weight_lbs_to_kg (pounds : float) : float :=
  py_round (pounds * LBS_TO_KG) 2.

Definition convert_speed_mph_to_kmh (mph : float) : float :=
  py_round (mph * MPH_TO_KMH) 2.

Definition convert_volume_gallons_to_liters (gallons : float) : float :=
  py_round (gallons * GALLON_TO_LITER) 2.

Definition convert_fuel_consumption_mpg_to_l100km (mpg : float) : float :=
  if (mpg <=? 0)%float then 0%float
  else py_round (235.214 / mpg) 2.

(** The character classes of the two patterns. *)
Definition digit_or_dot (c : ascii) : bool := is_digit c || char_is "." c.
Definition unit_tail (c : ascii) : bool :=
  is_alpha c || char_is "." c || char_is "/" c || char_is "-" c.

(** The class [[-–]]: a hyphen or an en dash; the en dash is outside
    ASCII and is matched here as its three UTF-8 bytes. *)
Definition dash : regex :=
  Alt (Cls (char_is "-"))
      (Cat (Cls (char_is "226")) (Cat (Cls (char_is "128")) (Cls (char_is "147")))).

(** The pattern of [parse_spec_value]: group 1 is a run of digits and
    dots; an optional non-capturing part holds spaces, a dash, spaces and
    group 2, a second run; then spaces and group 3, a letter followed by
    letters, dots, slashes and hyphens. *)
Definition pattern : regex :=
  Cat (Grp 1 (Plus digit_or_dot))
 (Cat (Opt (Cat (Star is_space) (Cat dash (Cat (Star is_space)
              (Grp 2 (Plus digit_or_dot))))))
 (Cat (Star is_space)
      (Grp 3 (Cat (Cls is_alpha) (Star unit_tail))))).

(** The pattern for a bare number: one group, a run of digits and dots. *)
Definition number_pattern : regex := Grp 1 (Plus digit_or_dot).

Definition group_or_empty (n : nat) (caps : captures) : string :=
  default EmptyString (group n caps).

Definition parse_spec_value (text : string)
    : result (option float * option string) :=
  if negb (nonempty text) then Ok (None, None)
  else
    (* Remove approximate indicators *)
    let text :=
      strip (replace "approximately" "" (replace "approx." "" (replace "~" "" text))) in
    match re_search pattern text with
    | Some m =>
        value1 ← py_float (group_or_empty 1 m);
        let value2 := group 2 m in
        let unit := strip (group_or_empty 3 m) in
        (* If range, take midpoint *)
        value ← match value2 with
                | Some (String _ _ as v2) =>
                    f2 ← py_float v2; Ok ((value1 + f2) / 2)%float
                | _ => Ok value1
                end;
        Ok (Some value, Some unit)
    | None =>
        (* Try to extract just a number if unit is not found *)
        match re_search number_pattern text with
        | Some m =>
            v ← py_float (group_or_empty 1 m);
            Ok (Some v, None)
        | None => Ok (None, None)
        end
    end.

Definition convert_to_metric (value : float) (unit target_unit : string)
    : option float :=
  (* Normalize unit strings *)
  let unit := strip (lower unit) in
  let target_unit := strip (lower target_unit) in
  (* Power conversions *)
  if string_in unit ["hp"; "horsepower"; "bhp"]
     && string_in target_unit ["kw"; "kilowatt"; "kilowatts"]
  then Some (convert_power_hp_to_kw value)
  (* Torque conversions *)
  else if string_in unit ["lb-ft"; "lbft"; "lb.ft"; "ft-lb"; "ft.lb"]
     && string_in target_unit ["nm"; "n-m"; "newton-meter"]
  then Some (convert_torque_lbft_to_nm value)
  (* Length conversions *)
  else if string_in unit ["in"; "inch"; "inches"; String "034" ""]
     && string_in target_unit ["mm"; "millimeter"; "millimeters"]
  then Some (convert_length_inches_to_mm value)
  else if string_in unit ["ft"; "foot"; "feet"; "'"]
     && string_in target_unit ["mm"; "millimeter"; "millimeters"]
  then Some (convert_length_feet_to_mm value)
  (* Weight conversions *)
  else if string_in unit ["lb"; "lbs"; "pound"; "pounds"]
     && string_in target_unit ["kg"; "kilogram"; "kilograms"]
  then Some (convert_weight_lbs_to_kg value)
  (* Speed conversions *)
  else if string_in unit ["mph"; "mi/h"]
     && string_in target_unit ["km/h"; "kmh"; "kph"]
  then Some (convert_speed_mph_to_kmh value)
  (* Volume conversions *)
  else if string_in unit ["gal"; "gallon"; "gallons"]
     && string_in target_unit ["l"; "liter"; "liters"; "litre"; "litres"]
  then Some (convert_volume_gallons_to_liters value)
  (* Fuel consumption conversions *)
  else if string_in unit ["mpg"; "mi/gal"]
     && string_in target_unit ["l/100km"; "l/100 km"]
  then Some (convert_fuel_consumption_mpg_to_l100km value)
  (* If already in metric or no conversion needed *)
  else if String.eqb unit target_unit then Some value
  else None.

(** ** [src/crawler/classifier.py] *)

(** [BikePageClassifier.page_type_indicators]; a [dict] keeps its keys in
    insertion order, so the table is an association list. *)
Definition page_type_indicators : list (string * list string) :=
  [ ("specs", ["specification"; "spec"; "technical"; "tech-data"]);
    ("gallery", ["gallery"; "photos"; "images"]);
    ("features", ["features"; "equipment"; "technology"]);
    ("insights", ["insights"; "insight"]);
    ("stories", ["stories"; "story"; "travel"]);
    ("main", ["overview"; "details"; "home"]) ].

(** The inner loop of [get_page_type]: does one of the indicators occur
    in the URL or in the content? *)
Fixpoint scan_indicators (indicators : list string)
    (url_lower content_lower : string) : bool :=
  match indicators with
  | [] => false
  | indicator :: rest =>
      if contains indicator url_lower || contains indicator content_lower
      then true
      else scan_indicators rest url_lower content_lower
  end.

(** The outer loop: the first page type with a hit is returned. *)
Fixpoint scan_page_types (table : list (string * list string))
    (url_lower content_lower : string) : option string :=
  match table with
  | [] => None
  | (page_type, indicators) :: rest =>
      if scan_indicators indicators url_lower content_lower
      then Some page_type
      else scan_page_types rest url_lower content_lower
  end.

(** [BikePageClassifier.get_page_type]; an empty [content] stands for
    both the empty string and [None]. *)
Definition get_page_type (url content : string) : string :=
  let url_lower := lower url in
  let content_lower := if nonempty content then lower content else "" in
  match scan_page_types page_type_indicators url_lower content_lower with
  | Some page_type => page_type
  | None => "main"
  end.

(** The page types of the data model. *)
Definition page_types : list string :=
  ["main"; "specs"; "gallery"; "features"; "insights"; "stories"; "other"].

(** The classification as the specification words it: the first entry of
    the ordered table one of whose keywords occurs in the URL or in the
    content, and [main] when there is none. *)
Definition indicator_hit (url_lower content_lower : string)
    (entry : string * list string) : bool :=
  existsb (fun kw => contains kw url_lower || contains kw content_lower)
    (snd entry).

Definition classify_spec (url content : string) : string :=
  match List.find (indicator_hit (lower url) (lower content))
          page_type_indicators with
  | Some entry => fst entry
  | None => "main"
  end.

(** ** [urllib.parse.urlparse]

    The library function under [normalize_url], after CPython 3.11: leading
    control characters and spaces are dropped, tabs and line breaks are
    removed, then scheme, network location, fragment, query and parameters
    are split off in that order.  A network location with one kind of
    square bracket only raises [ValueError]; one with both kinds is
    validated by [_check_bracketed_netloc], which needs [ipaddress] to
    tell whether the bracketed host is an IPv6 address.  The NFKC check
    applies to hosts outside ASCII only. *)

Record ParseResult := {
  scheme : string;
  netloc : string;
  path : string;
  params : string;
  query : string;
  fragment : string
}.

Definition is_c0_or_space (c : ascii) : bool := (N_of_ascii c <=? 32)%N.

Definition is_unsafe (c : ascii) : bool :=
  char_is "009" c || char_is "013" c || char_is "010" c.

Fixpoint remove_chars (p : ascii -> bool) (s : string) : string :=
  match s with
  | EmptyString => EmptyString
  | String c s' => if p c then remove_chars p s' else String c (remove_chars p s')
  end.

Definition scheme_char (c : ascii) : bool :=
  is_alpha c || is_digit c || char_is "+" c || char_is "-" c || char_is "." c.

Definition split_scheme (url : string) : string * string :=
  match cut ":" url with
  | Some (String c0 _ as pre, rest) =>
      if is_alpha c0 && forall_chars scheme_char pre
      then (lower pre, rest)
      else (EmptyString, url)
  | _ => (EmptyString, url)
  end.

Definition is_netloc_delim (c : ascii) : bool :=
  char_is "/" c || char_is "?" c || char_is "#" c.

Definition bracket_mismatch (netloc : string) : bool :=
  let lb := exists_char (char_is "[") netloc in
  let rb := exists_char (char_is "]") netloc in
  (lb && negb rb) || (rb && negb lb).

Definition split_netloc (url : string) : string * string :=
  if startswith "//" url then span is_netloc_delim (drop_chars 2 url)
  else (EmptyString, url).

Definition split_at (c : ascii) (url : string) : string * string :=
  match cut c url with
  | Some (a, b) => (a, b)
  | None => (url, EmptyString)
  end.

(** The text before the last [c] and the text after it. *)
Fixpoint rcut (c : ascii) (s : string) : option (string * string) :=
  match s with
  | EmptyString => None
  | String a s' =>
      match rcut c s' with
      | Some (x, y) => Some (String a x, y)
      | None => if char_is c a then Some (EmptyString, s') else None
      end
  end.

(** [_splitparams]: the parameters follow the first semicolon of the last
    path segment. *)
Definition splitparams (url : string) : string * string :=
  match rcut "/" url with
  | Some (dir, base) =>
      match cut ";" base with
      | Some (a, b) => (dir +:+ String "/" a, b)
      | None => (url, EmptyString)
      end
  | None => split_at ";" url
  end.

(** [s.partition(c)]: the text before the first [c], whether [c] occurs,
    and the text after it. *)
Definition partition (c : ascii) (s : string) : string * bool * string :=
  match cut c s with
  | Some (a, b) => (a, true, b)
  | None => (s, false, EmptyString)
  end.

(** [s.rpartition(c)[2]]: the text after the last [c]; the whole text
    when [c] does not occur. *)
Definition after_last (c : ascii) (s : string) : string :=
  match rcut c s with
  | Some (_, b) => b
  | None => s
  end.

(** *** [ipaddress]: which texts are addresses *)

Definition is_hex (c : ascii) : bool :=
  is_digit c || in_range "a" "f" c || in_range "A" "F" c.

(** [IPv4Address._parse_octet]; [None] stands for [ValueError]. *)
Definition parse_octet (octet_str : string) : option N :=
  if negb (nonempty octet_str) then None
  else if negb (forall_chars is_digit octet_str) then None
  else if (3 <? String.length octet_str)%nat then None
  (* Handle leading zeros as strict as glibc's inet_pton() *)
  else if negb (String.eqb octet_str "0") && startswith "0" octet_str then None
  else
    let octet_int := digits_value octet_str 0 in
    if (255 <? octet_int)%N then None else Some octet_int.

(** [IPv4Address(address)._ip] for a text; [None] stands for
    [AddressValueError]. *)
Definition IPv4Address (address : string) : option N :=
  if exists_char (char_is "/") address then None
  else if negb (nonempty address) then None
  else
    match split_on "." address with
    | [o1; o2; o3; o4] =>
        b1 ← parse_octet o1; b2 ← parse_octet o2;
        b3 ← parse_octet o3; b4 ← parse_octet o4;
        Some (((b1 * 256 + b2) * 256 + b3) * 256 + b4)%N
    | _ => None
    end.

(** ['%x' % n] *)
Definition hex_char (n : N) : ascii :=
  if (n <? 10)%N then ascii_of_N (48 + n) else ascii_of_N (87 + n).

Fixpoint hex_fuel (fuel : nat) (n : N) (acc : string) : string :=
  match fuel with
  | O => acc
  | S fuel' =>
      let acc' := String (hex_char (n mod 16)) acc in
      if (n <? 16)%N then acc' else hex_fuel fuel' (n / 16) acc'
  end.

Definition hex_of_N (n : N) : string :=
  hex_fuel (S (N.to_nat (N.log2 n))) n EmptyString.

(** [IPv6Address._parse_hextet] returns: hexadecimal digits only, at
    most four, and at least one, since [int('', 16)] raises. *)
Definition parse_hextet (hextet_str : string) : bool :=
  forall_chars is_hex hextet_str
  && (String.length hextet_str <=? 4)%nat
  && nonempty hextet_str.

(** The indices [i] of [range(1, len(parts) - 1)] whose part is empty. *)
Definition empty_inner_parts (parts : list string) : list nat :=
  List.filter (fun i => negb (nonempty (nth i parts EmptyString)))
    (seq 1 (length parts - 2)%nat).

(** [IPv6Address._ip_int_from_string] from the test of the number of
    parts on: [true] when it returns. *)
Definition ipv6_parts (parts : list string) : bool :=
  (* An IPv6 address can't have more than 8 colons (9 parts). *)
  if (9 <? length parts)%nat then false
  else
    let first_empty := negb (nonempty (nth 0 parts EmptyString)) in
    let last_empty := negb (nonempty (List.last parts EmptyString)) in
    match empty_inner_parts parts with
    | _ :: _ :: _ => false              (* Can't have more than one '::' *)
    | [skip_index] =>
        let parts_hi := skip_index in
        let parts_lo := (length parts - skip_index - 1)%nat in
        if first_empty && negb (parts_hi - 1 =? 0)%nat then false   (* ^: requires ^:: *)
        else
          let parts_hi := if first_empty then (parts_hi - 1)%nat else parts_hi in
          if last_empty && negb (parts_lo - 1 =? 0)%nat then false  (* :$ requires ::$ *)
          else
            let parts_lo := if last_empty then (parts_lo - 1)%nat else parts_lo in
            (* parts_skipped < 1 *)
            if (8 <=? parts_hi + parts_lo)%nat then false
            else
              forallb parse_hextet (take parts_hi parts)
              && forallb parse_hextet (drop (length parts - parts_lo)%nat parts)
    | [] =>
        if negb (length parts =? 8)%nat then false
        else if first_empty then false
        else if last_empty then false
        else forallb parse_hextet parts
    end.

Definition ip_int_from_string (ip_str : string) : bool :=
  if negb (nonempty ip_str) then false
  else
    let parts := split_on ":" ip_str in
    (* An IPv6 address needs at least 2 colons (3 parts). *)
    if (length parts <? 3)%nat then false
    else
      let last_part := List.last parts EmptyString in
      (* If the address has an IPv4-style suffix, convert it to hexadecimal. *)
      if exists_char (char_is ".") last_part then
        match IPv4Address last_part with
        | None => false
        | Some ipv4_int =>
            ipv6_parts
              (removelast parts ++
               [hex_of_N (N.land (N.shiftr ipv4_int 16) 65535);
                hex_of_N (N.land ipv4_int 65535)])
        end
      else ipv6_parts parts.

(** [IPv6Address(address)] for a text: [true] when it returns. *)
Definition IPv6Address (address : string) : bool :=
  if exists_char (char_is "/") address then false
  else
    match partition "%" address with
    | (addr, true, scope_id) =>
        if negb (nonempty scope_id) || exists_char (char_is "%") scope_id
        then false
        else ip_int_from_string addr
    | (addr, false, _) => ip_int_from_string addr
    end.

Inductive ip_version := IPv4 | IPv6.

(** [ipaddress.ip_address] *)
Definition ip_address (address : string) : result ip_version :=
  if bool_decide (is_Some (IPv4Address address)) then Ok IPv4
  else if IPv6Address address then Ok IPv6
  else Raise ValueError.

(** The pattern of an IPvFuture literal: the letter v, hexadecimal
    digits, a dot, and characters other than a line feed up to the end
    of the text. *)
Definition ipvfuture : regex :=
  Cat (Cls (char_is "v"))
 (Cat (Plus is_hex)
 (Cat (Cls (char_is "."))
      (Plus (fun c => negb (char_is "010" c))))).

(** [re.match] of a pattern that ends in the end-of-text anchor. *)
Definition re_match_to_end (r : regex) (s : string) : bool :=
  bool_decide (is_Some (match_re r s []
    (fun rest _ => if nonempty rest then None else Some tt))).

(** [_check_bracketed_host] *)
Definition check_bracketed_host (hostname : string) : result unit :=
  if startswith "v" hostname then
    if negb (re_match_to_end ipvfuture hostname) then Raise ValueError
    else Ok tt
  else
    ip ← ip_address hostname;
    match ip with
    | IPv4 => Raise ValueError
    | IPv6 => Ok tt
    end.

(** [_check_bracketed_netloc] *)
Definition check_bracketed_netloc (netloc : string) : result unit :=
  let hostname_and_port := after_last "@" netloc in
  let '(before_bracket, have_open_br, bracketed) := partition "[" hostname_and_port in
  if have_open_br then
    (* No data is allowed before a bracket. *)
    if nonempty before_bracket then Raise ValueError
    else
      let '(hostname, _, port) := partition "]" bracketed in
      (* No data is allowed after the bracket but before the port delimiter. *)
      if nonempty port && negb (startswith ":" port) then Raise ValueError
      else check_bracketed_host hostname
  else
    let '(hostname, _, port) := partition ":" hostname_and_port in
    check_bracketed_host hostname.

(** The bracket tests of [urlsplit] on the network location: [true]
    when one of them raises [ValueError]. *)
Definition invalid_netloc (netloc : string) : bool :=
  if bracket_mismatch netloc then true
  else if exists_char (char_is "[") netloc && exists_char (char_is "]") netloc then
    match check_bracketed_netloc netloc with
    | Ok _ => false
    | Raise _ => true
    end
  else false.

Definition uses_params : list string :=
  [""; "ftp"; "hdl"; "prospero"; "http"; "imap"; "https"; "shttp"; "rtsp";
   "rtspu"; "sip"; "sips"; "mms"; "sftp"; "tel"].

Definition urlparse (url : string) : result ParseResult :=
  let url := lstrip_of is_c0_or_space url in
  let url := remove_chars is_unsafe url in
  let '(scheme, url) := split_scheme url in
  let '(netloc, url) := split_netloc url in
  if invalid_netloc netloc then Raise ValueError
  else
    let '(url, fragment) := split_at "#" url in
    let '(url, query) := split_at "?" url in
    let '(url, params) :=
      if string_in scheme uses_params && exists_char (char_is ";") url
      then splitparams url
      else (url, EmptyString) in
    Ok {| scheme := scheme; netloc := netloc; path := url;
          params := params; query := query; fragment := fragment |}.

(** ** [src/crawler/discovery.py] *)

(** [PageDiscoveryEngine.normalize_url] *)
Definition normalize_url (url : string) : result string :=
  parsed ← urlparse url;
  (* Remove fragment and trailing slash *)
  let path := rstrip_of (char_is "/") (path parsed) in
  let normalized := scheme parsed +:+ "://" +:+ netloc parsed +:+ path in
  let normalized :=
    if nonempty (query parsed) then normalized +:+ "?" +:+ query parsed
    else normalized in
  Ok (lower normalized).

(** [c.join(l)] *)
Fixpoint join_with (c : string) (l : list string) : string :=
  match l with
  | [] => EmptyString
  | [w] => w
  | w :: ws => w +:+ c +:+ join_with c ws
  end.

(** [l[-2:]] *)
Definition last_two {A} (l : list A) : list A := drop (length l - 2) l.

(** The engine state that discovery reads and writes.  [page] tells
    whether [initialize_browser] has set the browser page. *)
Record Engine := {
  base_url : string;
  base_domain : string;
  visited_urls : gset string;
  discovered_urls : gset string;
  pending_urls : list string;
  page : bool
}.

(** [PageDiscoveryEngine.is_internal_url] *)
Definition is_internal_url (eng : Engine) (url : string) : result bool :=
  parsed ← urlparse url;
  (* Relative URL *)
  if negb (nonempty (netloc parsed)) then Ok true
  else
    let domain_parts := split_on "." (base_domain eng) in
    (* Match if ends with same domain *)
    Ok (contains (join_with "." (last_two domain_parts)) (netloc parsed)
        || String.eqb (netloc parsed) (base_domain eng)).

(** What the world answers during one discovery run. *)

(** One [page.goto] of the entry loop together with the reads that follow
    it in the same [try] block. *)
Inductive Navigation :=
| NavRaised                       (* an exception anywhere in the block *)
| NavLoaded (status : option Z) (title content : string).

(** One [session.get] on a sitemap URL: an exception, or a status with
    the [<loc>] entries that [re.findall] extracts from the body. *)
Inductive SitemapFetch :=
| FetchRaised
| Fetched (status : Z) (url_matches : list string).

(** One run of a browser strategy.  Each strategy collects URLs in a
    local set and returns it; an exception that escapes its body is
    caught by the strategy's own handler, after which the set collected
    so far is returned all the same. *)
Inductive StrategyRun :=
| Completed (found : list string)
| Interrupted (found : list string).

Definition strategy_result (r : StrategyRun) : list string :=
  match r with
  | Completed found => found
  | Interrupted found => found
  end.

(** The stored crawl state, as [load_state] finds it. *)
Inductive StateFile :=
| NoStateFile
| UnreadableState
| StoredState (stored_base_url : string)
    (stored_visited stored_discovered stored_pending : list string).

Record World := {
  state_file : StateFile;
  goto : string -> Navigation;
  sitemap_get : string -> SitemapFetch;
  hamburger_menu : StrategyRun;
  heritage_bikes : StrategyRun;
  dropdown : StrategyRun;
  search : StrategyRun;
  follow_links_from_pages : list string -> StrategyRun;
  link_following : StrategyRun
}.

(** [PageDiscoveryEngine.load_state] *)
Definition load_state (w : World) (eng : Engine) : Engine :=
  match state_file w with
  | StoredState b visited discovered pending =>
      (* Verify it's the same base URL *)
      if String.eqb b (base_url eng)
      then {| base_url := base_url eng; base_domain := base_domain eng;
              visited_urls := list_to_set visited;
              discovered_urls := list_to_set discovered;
              pending_urls := pending;
              page := page eng |}
      else eng
  | _ => eng
  end.

(** The body of the [try] block of [check_sitemap] for one sitemap: the
    URLs are appended one by one, and an exception of [is_internal_url]
    or [normalize_url] leaves the block with those appended so far. *)
Fixpoint collect_locs (eng : Engine) (url_matches urls : list string) : list string :=
  match url_matches with
  | [] => urls
  | url :: rest =>
      match is_internal_url eng url with
      | Raise _ => urls
      | Ok false => collect_locs eng rest urls
      | Ok true =>
          match normalize_url url with
          | Raise _ => urls
          | Ok normalized => collect_locs eng rest (urls ++ [normalized])
          end
      end
  end.

(** [PageDiscoveryEngine.check_sitemap] *)
Definition check_sitemap (w : World) (eng : Engine) : list string :=
  let sitemap_urls :=
    [base_url eng +:+ "/sitemap.xml"; base_url eng +:+ "/sitemap_index.xml"] in
  fold_left (fun urls sitemap_url =>
      match sitemap_get w sitemap_url with
      | Fetched 200 url_matches => collect_locs eng url_matches urls
      | _ => urls
      end) sitemap_urls [].

(** The entry loop of [discover_all_pages]: one attempt succeeds when the
    block raises nothing, the response is not a 403 and neither the
    title nor the content speaks of denied access. *)
Definition attempt_ok (n : Navigation) : bool :=
  match n with
  | NavRaised => false
  | NavLoaded status title content =>
      if bool_decide (status = Some 403%Z) then false
      else if contains "Access Denied" title
              || contains "access denied" (lower content) then false
      else true
  end.

Definition urls_to_try (eng : Engine) : list string :=
  [base_url eng +:+ "/ca/en/home";
   base_url eng +:+ "/us/en/home";
   base_url eng +:+ "/ww/en/home";
   base_url eng].

Fixpoint navigate_entry (w : World) (urls : list string) : bool :=
  match urls with
  | [] => false
  | url :: rest => if attempt_ok (goto w url) then true else navigate_entry w rest
  end.

(** One discovery step of the generator: every URL of the batch that is
    not visited is added to [discovered_urls] and yielded. *)
Definition yield_new (urls : list string) (st : Engine * list string)
    : Engine * list string :=
  let '(eng, yielded) := st in
  let fresh_urls := filter (fun url => url ∉ visited_urls eng) urls in
  ({| base_url := base_url eng; base_domain := base_domain eng;
      visited_urls := visited_urls eng;
      discovered_urls := discovered_urls eng ∪ list_to_set fresh_urls;
      pending_urls := pending_urls eng;
      page := page eng |},
   yielded ++ fresh_urls).

Definition not_initialized : exn :=
  RuntimeError "Browser not initialized. Call initialize_browser() first.".
Definition site_blocked : exn :=
  RuntimeError "Could not access website - all URLs blocked".

(** [PageDiscoveryEngine.discover_all_pages], run to its end: the engine
    after the run with the URLs yielded, in order, or the exception that
    the generator raises before its first yield. *)
Definition discover_all_pages (w : World) (eng : Engine)
    : result (Engine * list string) :=
  if negb (page eng) then Raise not_initialized
  else
    (* Load previous state *)
    let eng := load_state w eng in
    if negb (navigate_entry w (urls_to_try eng)) then Raise site_blocked
    else
      (* Step 2: Check sitemap *)
      let st := yield_new (check_sitemap w eng) (eng, []) in
      (* Step 3: hamburger menu, heritage bikes, dropdown *)
      let st := yield_new (strategy_result (hamburger_menu w)) st in
      let st := yield_new (strategy_result (heritage_bikes w)) st in
      let st := yield_new (strategy_result (dropdown w)) st in
      (* Step 4: Search-based discovery *)
      let st := yield_new (strategy_result (search w)) st in
      (* Step 5: Follow links from discovered bike pages *)
      let st :=
        if bool_decide (discovered_urls (fst st) = ∅) then st
        else
          let sample_urls := take 20 (elements (discovered_urls (fst st))) in
          yield_new (strategy_result (follow_links_from_pages w sample_urls)) st in
      (* Step 6: Link following from key pages *)
      let st := yield_new (strategy_result (link_following w)) st in
      Ok st.

(** The strategies of a run, for statements that range over them. *)
Inductive Strategy :=
| Sitemap | HamburgerMenu | HeritageBikes | Dropdown | Search
| FollowLinks (sample : list string) | LinkFollowing.

Definition strategy_urls (w : World) (eng : Engine) (s : Strategy) : list string :=
  match s with
  | Sitemap => check_sitemap w eng
  | HamburgerMenu => strategy_result (hamburger_menu w)
  | HeritageBikes => strategy_result (heritage_bikes w)
  | Dropdown => strategy_result (dropdown w)
  | Search => strategy_result (search w)
  | FollowLinks sample => strategy_result (follow_links_from_pages w sample)
  | LinkFollowing => strategy_result (link_following w)
  end.

(** ** [src/downloaders/image_downloader.py] *)

(** [str.isalnum] or underscore on ASCII: the class [\w]. *)
Definition is_word (c : ascii) : bool :=
  is_alpha c || is_digit c || char_is "_" c.

(** [ImageDownloader._sanitize_filename] *)
Definition sanitize_filename (text : string) : string :=
  let kept c := is_word c || is_space c || char_is "-" c in
  replace " " "_" (strip (remove_chars (fun c => negb (kept c)) text)).

(** One [session.get]: an exception, or a response with its status and
    the bytes that [response.read] returns ([None] when the read raises). *)
Inductive Download :=
| GetRaised
| Response (status : Z) (body : option (list Byte.byte)).

(** The folder creation, the file write and the computation of the
    relative path: all succeed, or one of them raises, before or after
    the bytes have reached the file. *)
Inductive Disk :=
| DiskOk
| DiskFailsBeforeWrite
| DiskFailsAfterWrite.

Record ImageDownloader := {
  base_output_dir : string;
  image_hashes : gset string
}.

(** The files written so far, oldest first: path and content. *)
Abbreviation Files := (list (string * list Byte.byte)).

Section Downloader.

(** [hashlib.sha256(data).hexdigest()] *)
Variable sha256_hexdigest : list Byte.byte -> string.

Definition add_hash (d : ImageDownloader) (h : string) : ImageDownloader :=
  {| base_output_dir := base_output_dir d;
     image_hashes := image_hashes d ∪ {[ h ]} |}.

(** [ImageDownloader.download_image]: the returned path, the downloader
    and the files after the call. *)
Definition download_image (d : ImageDownloader) (files : Files)
    (url manufacturer model : string) (year index : Z)
    (get : Download) (disk : Disk)
    : option string * ImageDownloader * Files :=
  match get with
  | GetRaised => (None, d, files)
  | Response status body =>
      if negb (status =? 200)%Z then (None, d, files)
      else
        match body with
        | None => (None, d, files)
        | Some image_data =>
            let image_hash := sha256_hexdigest image_data in
            if bool_decide (image_hash ∈ image_hashes d) then (None, d, files)
            else
              let d := add_hash d image_hash in
              let ext :=
                if contains ".png" (lower url) then "png"
                else if contains ".webp" (lower url) then "webp"
                else "jpg" in
              let safe_name :=
                sanitize_filename
                  (manufacturer +:+ "_" +:+ model +:+ "_" +:+ str_of_Z year) in
              let filename := safe_name +:+ "_" +:+ format_03d index +:+ "." +:+ ext in
              let relative :=
                manufacturer +:+ "/" +:+ model +:+ "/" +:+ str_of_Z year
                  +:+ "/" +:+ filename in
              let filepath := base_output_dir d +:+ "/" +:+ relative in
              match disk with
              | DiskFailsBeforeWrite => (None, d, files)
              | DiskFailsAfterWrite => (None, d, files ++ [(filepath, image_data)])
              | DiskOk => (Some relative, d, files ++ [(filepath, image_data)])
              end
        end
  end.

(** One call of a run: its arguments and what the world answers. *)
Record Call := {
  call_url : string;
  call_manufacturer : string;
  call_model : string;
  call_year : Z;
  call_index : Z;
  call_get : Download;
  call_disk : Disk
}.

Definition step (st : ImageDownloader * Files) (c : Call)
    : option string * ImageDownloader * Files :=
  download_image (fst st) (snd st) (call_url c) (call_manufacturer c)
    (call_model c) (call_year c) (call_index c) (call_get c) (call_disk c).

(** A run: the calls made on one downloader, in order. *)
Definition run (st : ImageDownloader * Files) (calls : list Call)
    : ImageDownloader * Files :=
  fold_left (fun st c => let '(_, d, files) := step st c in (d, files)) calls st.

(** The hashes of the contents written so far. *)
Definition written_hashes (files : Files) : list string :=
  map (fun f => sha256_hexdigest f.2) files.

(** What a run keeps true: the contents written have pairwise different
    hashes, all of them in the hash set. *)
Definition dedup_inv (st : ImageDownloader * Files) : Prop :=
  NoDup (written_hashes st.2) /\
  forall h, In h (written_hashes st.2) -> h ∈ image_hashes st.1.

(** [ImageDownloader.__init__] *)
Definition new_downloader (base_output_dir : string) : ImageDownloader :=
  {| base_output_dir := base_output_dir; image_hashes := ∅ |}.

End Downloader.

(** ** [src/utils/schema.py] *)

(** A field value of a specification object. *)
Inductive value :=
| VStr (s : string)
| VInt (z : Z)
| VFloat (f : float).

(** The six specification classes. *)
Inductive SpecClass :=
| EngineSpecs
| TransmissionSpecs
| ChassisSpecs
| DimensionSpecs
| PerformanceSpecs
| ElectricalSpecs.

Global Instance SpecClass_eq_dec : EqDecision SpecClass.
Proof. solve_decision. Defined.

Definition SpecClass_index (c : SpecClass) : nat :=
  match c with
  | EngineSpecs => 0 | TransmissionSpecs => 1 | ChassisSpecs => 2
  | DimensionSpecs => 3 | PerformanceSpecs => 4 | ElectricalSpecs => 5
  end.

Definition SpecClass_of_index (n : nat) : option SpecClass :=
  match n with
  | 0 => Some EngineSpecs | 1 => Some TransmissionSpecs | 2 => Some ChassisSpecs
  | 3 => Some DimensionSpecs | 4 => Some PerformanceSpecs | 5 => Some ElectricalSpecs
  | _ => None
  end.

Global Instance SpecClass_countable : Countable SpecClass.
Proof.
  refine (inj_countable SpecClass_index SpecClass_of_index _).
  intros []; reflexivity.
Defined.

Definition spec_classes : list SpecClass :=
  [EngineSpecs; TransmissionSpecs; ChassisSpecs; DimensionSpecs;
   PerformanceSpecs; ElectricalSpecs].

(** [cls.model_fields.keys()], in declaration order. *)
Definition model_fields (c : SpecClass) : list string :=
  match c with
  | EngineSpecs =>
      ["type"; "displacement_cc"; "bore_mm"; "stroke_mm"; "compression_ratio";
       "max_power_kw"; "max_power_rpm"; "max_torque_nm"; "max_torque_rpm";
       "fuel_system"; "ignition"; "starter"; "lubrication"]
  | TransmissionSpecs => ["type"; "clutch"; "final_drive"]
  | ChassisSpecs =>
      ["frame_type"; "front_suspension"; "rear_suspension"; "front_brake";
       "rear_brake"; "front_tire"; "rear_tire"]
  | DimensionSpecs =>
      ["length_mm"; "width_mm"; "height_mm"; "wheelbase_mm";
       "ground_clearance_mm"; "seat_height_mm"; "dry_weight_kg";
       "wet_weight_kg"; "fuel_capacity_liters"]
  | PerformanceSpecs =>
      ["top_speed_kmh"; "acceleration_0_100_kmh_sec";
       "fuel_consumption_liters_per_100km"]
  | ElectricalSpecs => ["battery_voltage"; "alternator"; "headlight"; "tail_light"]
  end.

(** The store of specification objects.  An object is found by its class
    and its address; it holds its attributes, an absent attribute being
    [None].  Objects of different classes are different objects. *)
Abbreviation Store := (gmap (SpecClass * positive) (gmap string value)).

(** [getattr(spec, field_name, None)] *)
Definition getattr (h : Store) (c : SpecClass) (l : positive) (field_name : string)
    : option value :=
  h !! (c, l) ≫= fun attrs => attrs !! field_name.

(** [setattr(spec, field_name, v)] *)
Definition setattr (h : Store) (c : SpecClass) (l : positive) (field_name : string)
    (v : value) : Store :=
  alter (fun attrs => <[field_name := v]> attrs) (c, l) h.

(** [BikeSpecifications]: six optional references. *)
Record BikeSpecifications := {
  engine : option positive;
  transmission : option positive;
  chassis : option positive;
  dimensions : option positive;
  performance : option positive;
  electrical : option positive
}.

Definition get_group (c : SpecClass) (s : BikeSpecifications) : option positive :=
  match c with
  | EngineSpecs => engine s
  | TransmissionSpecs => transmission s
  | ChassisSpecs => chassis s
  | DimensionSpecs => dimensions s
  | PerformanceSpecs => performance s
  | ElectricalSpecs => electrical s
  end.

Definition set_group (c : SpecClass) (r : option positive) (s : BikeSpecifications)
    : BikeSpecifications :=
  match c with
  | EngineSpecs =>
      {| engine := r; transmission := transmission s; chassis := chassis s;
         dimensions := dimensions s; performance := performance s;
         electrical := electrical s |}
  | TransmissionSpecs =>
      {| engine := engine s; transmission := r; chassis := chassis s;
         dimensions := dimensions s; performance := performance s;
         electrical := electrical s |}
  | ChassisSpecs =>
      {| engine := engine s; transmission := transmission s; chassis := r;
         dimensions := dimensions s; performance := performance s;
         electrical := electrical s |}
  | DimensionSpecs =>
      {| engine := engine s; transmission := transmission s; chassis := chassis s;
         dimensions := r; performance := performance s;
         electrical := electrical s |}
  | PerformanceSpecs =>
      {| engine := engine s; transmission := transmission s; chassis := chassis s;
         dimensions := dimensions s; performance := r;
         electrical := electrical s |}
  | ElectricalSpecs =>
      {| engine := engine s; transmission := transmission s; chassis := chassis s;
         dimensions := dimensions s; performance := performance s;
         electrical := r |}
  end.

Record PriceInfo := {
  currency : string;
  amount : float;
  region : option string
}.

Record ImageInfo := {
  url : string;
  local_path : option string;
  alt_text : option string;
  image_type : option string;
  hash : option string
}.

(** [BikeData].  The record and its lists are held by value: the merger
    assigns to them through the accumulator only, which is a copy.  The
    specification objects are held by reference. *)
Record BikeData := {
  manufacturer : string;
  model : string;
  year : Z;
  variant : option string;
  specifications : BikeSpecifications;
  features : list string;
  description : option string;
  content_sections : option (list (string * string));
  colors : list string;
  price : option PriceInfo;
  images : list ImageInfo;
  source_urls : list string;
  extraction_timestamp : string
}.

Definition with_specifications (s : BikeSpecifications) (b : BikeData) : BikeData :=
  {| manufacturer := manufacturer b; model := model b; year := year b;
     variant := variant b; specifications := s; features := features b;
     description := description b; content_sections := content_sections b;
     colors := colors b; price := price b; images := images b;
     source_urls := source_urls b;
     extraction_timestamp := extraction_timestamp b |}.

(** The descriptive part of a record, replaced as a whole. *)
Definition with_content (fs : list string) (d : option string) (cs : list string)
    (imgs : list ImageInfo) (urls : list string) (b : BikeData) : BikeData :=
  {| manufacturer := manufacturer b; model := model b; year := year b;
     variant := variant b; specifications := specifications b; features := fs;
     description := d; content_sections := content_sections b;
     colors := cs; price := price b; images := imgs;
     source_urls := urls;
     extraction_timestamp := extraction_timestamp b |}.

(** The value of a field of a record: through the group reference into
    the store. *)
Definition field_of (h : Store) (b : BikeData) (c : SpecClass) (field_name : string)
    : option value :=
  get_group c (specifications b) ≫= fun l => getattr h c l field_name.

(** ** [src/processors/merger.py] *)

(** An element of [pages_data]: a dict with the keys [bike_data] and
    [page_type]; the code reads the page type with a default. *)
Record PageInfo := {
  bike_data : BikeData;
  page_type : option string
}.

(** [DataMerger.page_type_priority.get(page_type, 0)] *)
Definition page_type_priority (page_type : string) : Z :=
  if String.eqb page_type "specs" then 3
  else if String.eqb page_type "main" then 2
  else if String.eqb page_type "features" then 1
  else if String.eqb page_type "gallery" then 0
  else if String.eqb page_type "other" then 0
  else 0.

(** The sort key: [page_type_priority.get(x.get('page_type', 'other'), 0)] *)
Definition priority (x : PageInfo) : Z :=
  page_type_priority (default "other" (page_type x)).

(** [list.sort(key=priority, reverse=True)]: descending by key, records
    of equal key staying in their original order. *)
Fixpoint insert_by_priority (x : PageInfo) (l : list PageInfo) : list PageInfo :=
  match l with
  | [] => [x]
  | y :: l' =>
      if (priority x <? priority y)%Z then y :: insert_by_priority x l'
      else x :: y :: l'
  end.

Definition sort_by_priority (l : list PageInfo) : list PageInfo :=
  foldr insert_by_priority [] l.

(** The fill loop of [_merge_specs] for one field. *)
Definition fill_field (c : SpecClass) (spec1 spec2 : positive) (h : Store)
    (field_name : string) : Store :=
  let value1 := getattr h c spec1 field_name in
  let value2 := getattr h c spec2 field_name in
  (* If spec1 is None but spec2 has value, use spec2 *)
  match value1, value2 with
  | None, Some v2 => setattr h c spec1 field_name v2
  | _, _ => h
  end.

(** [DataMerger._merge_specs] on two group references of class [c]: the
    store after the call and the reference returned. *)
Definition merge_specs (c : SpecClass) (h : Store) (spec1 spec2 : option positive)
    : Store * option positive :=
  match spec1 with
  | None => (h, spec2)
  | Some l1 =>
      match spec2 with
      | None => (h, spec1)
      | Some l2 => (fold_left (fill_field c l1 l2) (model_fields c) h, spec1)
      end
  end.

(** One assignment [merged.specifications.g = self._merge_specs(...)]. *)
Definition merge_group (c : SpecClass) (other : BikeSpecifications)
    (st : Store * BikeSpecifications) : Store * BikeSpecifications :=
  let '(h, merged) := st in
  let '(h', r) := merge_specs c h (get_group c merged) (get_group c other) in
  (h', set_group c r merged).

(** The six assignments of one loop iteration, in the order of the code. *)
Definition merge_specifications (other : BikeSpecifications)
    (st : Store * BikeSpecifications) : Store * BikeSpecifications :=
  let st := merge_group EngineSpecs other st in
  let st := merge_group TransmissionSpecs other st in
  let st := merge_group ChassisSpecs other st in
  let st := merge_group DimensionSpecs other st in
  let st := merge_group PerformanceSpecs other st in
  merge_group ElectricalSpecs other st.

(** The deduplication loop of [combine_features]. *)
Fixpoint unique_features (all_features : list string) (seen : gset string)
    : list string :=
  match all_features with
  | [] => []
  | feature :: rest =>
      let feature_clean := strip feature in
      if nonempty feature_clean && bool_decide (feature_clean ∉ seen)
      then feature_clean :: unique_features rest (seen ∪ {[ feature_clean ]})
      else unique_features rest seen
  end.

(** [DataMerger.combine_features] *)
Definition combine_features (features_lists : list (list string)) : list string :=
  unique_features (concat features_lists) ∅.

(** [list(set(l))]: the elements without repetition, in the order of the
    set, which Python leaves open. *)
Definition list_set (l : list string) : list string :=
  elements (list_to_set l : gset string).

(** The part of a loop iteration after the six groups: features,
    description, colors, images and source URLs.  [len] of a description
    that is [None] raises [TypeError]. *)
Definition merge_content (merged bike_data : BikeData) : result BikeData :=
  (* Combine features (deduplicate) *)
  let fs := combine_features [features merged; features bike_data] in
  (* Use longer description *)
  d ← match description merged with
      | None | Some EmptyString => Ok (description bike_data)
      | Some md =>
          match description bike_data with
          | None => Raise TypeError
          | Some bd =>
              if String.length md <? String.length bd
              then Ok (description bike_data)
              else Ok (description merged)
          end
      end;
  (* Combine colors *)
  let cs := list_set (colors merged ++ colors bike_data) in
  (* Combine images, aggregate source URLs *)
  Ok (with_content fs d cs (images merged ++ images bike_data)
        (source_urls merged ++ source_urls bike_data) merged).

(** One iteration of the loop over [pages_data[1:]]. *)
Definition merge_page (h : Store) (merged : BikeData) (page_info : PageInfo)
    : Store * result BikeData :=
  let bike_data := bike_data page_info in
  let '(h', s) :=
    merge_specifications (specifications bike_data) (h, specifications merged) in
  (h', merge_content (with_specifications s merged) bike_data).

(** The loop: an exception ends it, the store keeps what was written. *)
Fixpoint merge_pages (h : Store) (merged : BikeData) (pages : list PageInfo)
    : Store * result BikeData :=
  match pages with
  | [] => (h, Ok merged)
  | page_info :: rest =>
      match merge_page h merged page_info with
      | (h', Ok merged') => merge_pages h' merged' rest
      | (h', Raise e) => (h', Raise e)
      end
  end.

(** The deduplication of the images by URL, first occurrence kept. *)
Fixpoint unique_images (imgs : list ImageInfo) (seen_urls : gset string)
    : list ImageInfo :=
  match imgs with
  | [] => []
  | img :: rest =>
      if bool_decide (url img ∉ seen_urls)
      then img :: unique_images rest (seen_urls ∪ {[ url img ]})
      else unique_images rest seen_urls
  end.

(** A fresh address. *)
Definition fresh_loc (h : Store) : positive :=
  fresh (set_map snd (dom h) : gset positive).

(** The copy of one group object at a fresh address. *)
Definition copy_group (c : SpecClass) (st : Store * BikeSpecifications)
    : Store * BikeSpecifications :=
  let '(h, s) := st in
  match get_group c s with
  | None => (h, s)
  | Some l =>
      match h !! (c, l) with
      | None => (h, s)
      | Some attrs =>
          let l' := fresh_loc h in
          (<[(c, l') := attrs]> h, set_group c (Some l') s)
      end
  end.

(** [bike_data.model_copy(deep=True)]: the record with a copy of each of
    its specification objects. *)
Definition model_copy_deep (h : Store) (b : BikeData) : Store * BikeData :=
  let '(h', s) := foldr copy_group (h, specifications b) spec_classes in
  (h', with_specifications s b).

Definition finish (merged : BikeData) : BikeData :=
  with_content (features merged) (description merged) (colors merged)
    (* Deduplicate images by URL *)
    (unique_images (images merged) ∅)
    (* Deduplicate source URLs *)
    (list_set (source_urls merged))
    merged.

(** [DataMerger.merge_bike_data]: the store and the caller's list after
    the call, and the record returned or the exception raised. *)
Definition merge_bike_data (h : Store) (pages_data : list PageInfo)
    : Store * list PageInfo * result BikeData :=
  match pages_data with
  | [] => (h, pages_data, Raise ValueError)
  | [page_info] => (h, pages_data, Ok (bike_data page_info))
  | _ =>
      (* Sort by page type priority *)
      let pages_data := sort_by_priority pages_data in
      match pages_data with
      | [] => (h, pages_data, Raise ValueError)
      | top :: rest =>
          (* Start with highest priority page *)
          let '(h1, merged) := model_copy_deep h (bike_data top) in
          (* Merge specifications from all pages *)
          let '(h2, r) := merge_pages h1 merged rest in
          (h2, pages_data, finish <$> r)
      end
  end.

(** The first record of a list that sets a field, with the value. *)
Fixpoint first_set (h : Store) (c : SpecClass) (field_name : string)
    (pages : list PageInfo) : option (PageInfo * value) :=
  match pages with
  | [] => None
  | p :: rest =>
      match field_of h (bike_data p) c field_name with
      | Some v => Some (p, v)
      | None => first_set h c field_name rest
      end
  end.

(** ** Predicates and example data of the statements *)

(** A character class that does not tell a letter from its lower case. *)
Definition caseless (p : ascii -> bool) : Prop :=
  forall c, p (lower_char c) = p c.

(** A character class closed under lower-casing. *)
Definition lower_closed (p : ascii -> bool) : Prop :=
  forall c, p c = true -> p (lower_char c) = true.

(** A pattern all of whose classes are closed under lower-casing. *)
Fixpoint lower_closed_regex (r : regex) : Prop :=
  match r with
  | Cls p | Star p => lower_closed p
  | Cat r1 r2 | Alt r1 r2 => lower_closed_regex r1 /\ lower_closed_regex r2
  | Opt r1 | Grp _ r1 => lower_closed_regex r1
  end.

(** [stops p s]: the text is empty or starts with a character of [p]. *)
Definition stops (p : ascii -> bool) (s : string) : bool :=
  match s with
  | EmptyString => true
  | String c _ => p c
  end.

Definition lower_parse (p : ParseResult) : ParseResult :=
  {| scheme := lower (scheme p); netloc := lower (netloc p);
     path := lower (path p); params := lower (params p);
     query := lower (query p); fragment := lower (fragment p) |}.

Definition query_suffix (qry : string) : string :=
  if nonempty qry then String "?" qry else "".

Record parts_ok (p : ParseResult) : Prop := {
  scheme_lowered : lower (scheme p) = scheme p;
  scheme_shape :
    scheme p = "" \/
    exists c0 s', scheme p = String c0 s' /\ is_alpha c0 = true /\
                  forall_chars scheme_char (scheme p) = true;
  netloc_undelimited :
    forall_chars (fun c => negb (is_netloc_delim c)) (netloc p) = true;
  netloc_brackets : invalid_netloc (netloc p) = false;
  path_rooted : netloc p <> "" -> stops (char_is "/") (path p) = true;
  path_no_query : forall_chars (fun c => negb (char_is "?" c)) (path p) = true;
  path_no_fragment : forall_chars (fun c => negb (char_is "#" c)) (path p) = true;
  query_no_fragment : forall_chars (fun c => negb (char_is "#" c)) (query p) = true;
  netloc_safe : forall_chars (fun c => negb (is_unsafe c)) (netloc p) = true;
  path_safe : forall_chars (fun c => negb (is_unsafe c)) (path p) = true;
  query_safe : forall_chars (fun c => negb (is_unsafe c)) (query p) = true
}.

(** The part of [urlparse] after the network location. *)
Definition parse_rest (sch net url : string) : result ParseResult :=
  if invalid_netloc net then Raise ValueError
  else
    let '(url, fragment) := split_at "#" url in
    let '(url, query) := split_at "?" url in
    let '(url, params) :=
      if string_in sch uses_params && exists_char (char_is ";") url
      then splitparams url
      else (url, EmptyString) in
    Ok {| scheme := sch; netloc := net; path := url;
          params := params; query := query; fragment := fragment |}.

Definition is_query_or_fragment (c : ascii) : bool :=
  char_is "?" c || char_is "#" c.

(** A world in which the browser is refused every entry page while the
    sitemap, fetched over plain HTTP, lists a product page. *)
Definition blocked_world : World :=
  {| state_file := NoStateFile;
     goto := fun _ => NavLoaded (Some 403%Z) "Access Denied" "";
     sitemap_get := fun url =>
       if String.eqb url "https://www.ducati.com/sitemap.xml"
       then Fetched 200 ["https://www.ducati.com/ww/en/bikes/monster"]
       else Fetched 404 [];
     hamburger_menu := Interrupted [];
     heritage_bikes := Interrupted [];
     dropdown := Interrupted [];
     search := Interrupted [];
     follow_links_from_pages := fun _ => Interrupted [];
     link_following := Completed [] |}.

Definition ducati_engine : Engine :=
  {| base_url := "https://www.ducati.com";
     base_domain := "www.ducati.com";
     visited_urls := ∅;
     discovered_urls := ∅;
     pending_urls := [];
     page := true |}.

(** A stand-in digest for running examples: the bytes themselves. *)
Definition toy_digest (data : list Byte.byte) : string :=
  string_of_list_byte data.

Definition two_downloads : list Call :=
  [ {| call_url := "https://cdn/a.png"; call_manufacturer := "Ducati";
       call_model := "Monster"; call_year := 2024; call_index := 0;
       call_get := Response 200 (Some [Byte.x89; Byte.x50]);
       call_disk := DiskOk |};
    {| call_url := "https://cdn/b.jpg"; call_manufacturer := "Ducati";
       call_model := "Monster"; call_year := 2024; call_index := 1;
       call_get := Response 200 (Some [Byte.xff; Byte.xd8]);
       call_disk := DiskOk |} ].

(** The order of filling: every attribute that is set stays as it is. *)
Definition store_le (h h' : Store) : Prop :=
  forall c l f v, getattr h c l f = Some v -> getattr h' c l f = Some v.

(** No dangling reference: every group reference of a record leads to an
    object of the store. *)
Definition wf_page (h : Store) (p : PageInfo) : Prop :=
  forall c l, get_group c (specifications (bike_data p)) = Some l ->
              is_Some (h !! (c, l)).

Definition well_formed (h : Store) (pages : list PageInfo) : Prop :=
  forall p, In p pages -> wf_page h p.

(** What the loop keeps true for one class [c], with [h0] the store
    before the merge and [done] the records merged so far: the objects
    of the input are as they were, except the one the accumulator
    refers to; each field of the accumulator holds the value of the
    first record that set it; the accumulator refers to an object; and
    every input attribute that was set is still set. *)
Record class_inv (h0 : Store) (c : SpecClass) (done : list PageInfo)
    (h : Store) (slot : option positive) : Prop := {
  inv_frame : forall l, is_Some (h0 !! (c, l)) -> slot <> Some l ->
                        h !! (c, l) = h0 !! (c, l);
  inv_value : forall f, f ∈ model_fields c ->
                        (slot ≫= fun l => getattr h c l f)
                        = snd <$> first_set h0 c f done;
  inv_alive : forall l, slot = Some l -> is_Some (h !! (c, l));
  inv_le : forall l f v, getattr h0 c l f = Some v -> getattr h c l f = Some v
}.

(** During one iteration the classes merged so far ([merged_classes])
    already count the record, the others do not yet. *)
Definition stage_inv (h0 : Store) (done : list PageInfo) (b : PageInfo)
    (merged_classes : list SpecClass) (st : Store * BikeSpecifications) : Prop :=
  forall c,
    class_inv h0 c (if decide (c ∈ merged_classes) then done ++ [b] else done)
      st.1 (get_group c st.2).

Definition all_inv (h0 : Store) (done : list PageInfo) (h : Store)
    (s : BikeSpecifications) : Prop :=
  forall c, class_inv h0 c done h (get_group c s).

(** While the copy goes through the classes: the input objects are
    untouched, the classes copied satisfy the invariant of the loop
    with the top record as the only record done, the others still hold
    the reference of the top record. *)
Definition copy_inv (h0 : Store) (top : PageInfo) (copied : list SpecClass)
    (st : Store * BikeSpecifications) : Prop :=
  (forall k, is_Some (h0 !! k) -> st.1 !! k = h0 !! k) /\
  forall c,
    if decide (c ∈ copied) then class_inv h0 c [top] st.1 (get_group c st.2)
    else get_group c st.2 = get_group c (specifications (bike_data top)).

(** Descending: no record is followed by one of higher priority. *)
Definition descending : list PageInfo -> Prop :=
  StronglySorted (fun x y => (priority y <= priority x)%Z).

(** Example records.  The specs page has no engine object; the main page
    and the gallery page each have one. *)
Definition no_groups : BikeSpecifications :=
  {| engine := None; transmission := None; chassis := None;
     dimensions := None; performance := None; electrical := None |}.

Definition monster (s : BikeSpecifications) (d : option string) (src : string)
    : BikeData :=
  {| manufacturer := "Ducati"; model := "Monster"; year := 2024;
     variant := None; specifications := s; features := [];
     description := d; content_sections := None; colors := [];
     price := None; images := []; source_urls := [src];
     extraction_timestamp := "2024-05-01T10:00:00" |}.

Definition engine_at (l : positive) : BikeSpecifications :=
  set_group EngineSpecs (Some l) no_groups.

Definition example_store : Store :=
  <[(EngineSpecs, 1%positive) := {["type" := VStr "L-twin"]}]>
    (<[(EngineSpecs, 2%positive) := {["max_power_kw" := VFloat 82]}]> ∅).

Definition specs_page : PageInfo :=
  {| bike_data := monster no_groups (Some "Technical data") "https://d/specs";
     page_type := Some "specs" |}.

Definition main_page : PageInfo :=
  {| bike_data := monster (engine_at 1) (Some "The Monster") "https://d/monster";
     page_type := Some "main" |}.

Definition gallery_page : PageInfo :=
  {| bike_data := monster (engine_at 2) (Some "") "https://d/gallery";
     page_type := Some "gallery" |}.

Definition example_pages : list PageInfo := [gallery_page; main_page; specs_page].

(** A second store, in which the specs page and the main page disagree
    on the power; the records arrive with the specs page last. *)
Definition power_store : Store :=
  <[(EngineSpecs, 1%positive) := {["max_power_kw" := VFloat 82]}]>
    (<[(EngineSpecs, 2%positive) := {["max_power_kw" := VFloat 81.5]}]> ∅).

Definition power_specs_page : PageInfo :=
  {| bike_data := monster (engine_at 1) (Some "Technical data") "https://d/specs";
     page_type := Some "specs" |}.

Definition power_main_page : PageInfo :=
  {| bike_data := monster (engine_at 2) (Some "The Monster") "https://d/monster";
     page_type := Some "main" |}.

Definition power_gallery_page : PageInfo :=
  {| bike_data := monster no_groups (Some "") "https://d/gallery";
     page_type := Some "gallery" |}.

Definition power_pages : list PageInfo :=
  [power_main_page; power_gallery_page; power_specs_page].

(** ** Predicates and example data of the further statements *)

(** The identity of a record: what the loop never assigns. *)
Definition same_identity (a b : BikeData) : Prop :=
  manufacturer a = manufacturer b /\ model a = model b /\ year a = year b /\
  variant a = variant b /\ price a = price b /\
  content_sections a = content_sections b /\
  extraction_timestamp a = extraction_timestamp b.


(** A record whose description is a non-empty string. *)
Definition has_text (b : BikeData) : bool :=
  match description b with
  | Some (String _ _) => true
  | _ => false
  end.

(** A record without description comes, somewhere in the list, after a
    record with a non-empty one. *)
Definition none_after_text (l : list PageInfo) : Prop :=
  exists l1 a l2 b l3,
    l = l1 ++ a :: l2 ++ b :: l3 /\
    has_text (bike_data a) = true /\ description (bike_data b) = None.

(** Two records with descriptive content: the features overlap up to
    spaces, the colours overlap, and both hold an image of the same
    URL. *)
Definition image_at (u alt : string) : ImageInfo :=
  {| url := u; local_path := None; alt_text := Some alt;
     image_type := Some "gallery"; hash := None |}.

Definition described (fs cs : list string) (imgs : list ImageInfo)
    (d : option string) (src : string) : BikeData :=
  {| manufacturer := "Ducati"; model := "Monster"; year := 2024;
     variant := None; specifications := no_groups; features := fs;
     description := d; content_sections := None; colors := cs;
     price := None; images := imgs; source_urls := [src];
     extraction_timestamp := "2024-05-01T10:00:00" |}.

Definition described_pages : list PageInfo :=
  [ {| bike_data :=
         described [" ABS "; "Quickshifter"] ["Red"]
           [image_at "https://d/img/1.jpg" "side"]
           (Some "The Monster") "https://d/monster";
       page_type := Some "main" |};
    {| bike_data :=
         described ["ABS"; ""; "Cornering lights"] ["Red"; "Black"]
           [image_at "https://d/img/1.jpg" "front"; image_at "https://d/img/2.jpg" "rear"]
           (Some "Technical data of the Monster") "https://d/specs";
       page_type := Some "specs" |} ].

(* ===================================================================== *)
(** * Part II: proofs *)
(* ===================================================================== *)

(** ** Strings *)

Local Arguments Ascii.eqb : simpl never.

Lemma sapp_cons (c : ascii) (s t : string) :
  String c s +:+ t = String c (s +:+ t).
Proof. reflexivity. Qed.

Lemma sapp_nil_l (s : string) : "" +:+ s = s.
Proof. reflexivity. Qed.

Lemma sapp_nil_r (s : string) : s +:+ "" = s.
Proof. induction s as [|c s IH]; [reflexivity|]. rewrite sapp_cons. by rewrite IH. Qed.

Lemma app_assoc_s (s t u : string) : (s +:+ t) +:+ u = s +:+ (t +:+ u).
Proof.
  induction s as [|c s IH]; [reflexivity|].
  rewrite !sapp_cons. by rewrite IH.
Qed.

Lemma forall_chars_app (p : ascii -> bool) (s t : string) :
  forall_chars p (s +:+ t) = forall_chars p s && forall_chars p t.
Proof.
  induction s as [|c s IH]; [reflexivity|].
  rewrite sapp_cons. simpl. rewrite IH. by rewrite andb_assoc.
Qed.

Lemma forall_chars_impl (p q : ascii -> bool) (s : string) :
  (forall c, p c = true -> q c = true) ->
  forall_chars p s = true -> forall_chars q s = true.
Proof.
  intros Hpq. induction s as [|c s IH]; [done|]. simpl.
  intros [Hc Hs]%andb_true_iff. rewrite (Hpq _ Hc). simpl. auto.
Qed.

Lemma forall_chars_lstrip (p q : ascii -> bool) (s : string) :
  forall_chars p s = true -> forall_chars p (lstrip_of q s) = true.
Proof.
  induction s as [|c s IH]; [done|]. simpl.
  intros H. destruct (q c); [|exact H].
  apply andb_true_iff in H as [_ H]. auto.
Qed.

Lemma forall_chars_rstrip (p q : ascii -> bool) (s : string) :
  forall_chars p s = true -> forall_chars p (rstrip_of q s) = true.
Proof.
  induction s as [|c s IH]; [done|]. simpl.
  intros [Hc Hs]%andb_true_iff. specialize (IH Hs).
  destruct (rstrip_of q s) as [|c' r].
  - destruct (q c); simpl; [done|]. by rewrite Hc.
  - simpl in *. by rewrite Hc, IH.
Qed.

Lemma forall_chars_strip (p : ascii -> bool) (s : string) :
  forall_chars p s = true -> forall_chars p (strip s) = true.
Proof. intros H. by apply forall_chars_rstrip, forall_chars_lstrip. Qed.

Lemma forall_chars_delete (p : ascii -> bool) (old s : string) (k : nat) :
  forall_chars p s = true -> forall_chars p (replace_from old "" k s) = true.
Proof.
  revert k. induction s as [|c s IH]; intros k; [done|].
  intros H. simpl in H. apply andb_true_iff in H as [Hc Hs].
  cbn [replace_from].
  destruct k as [|k]; [|by apply IH].
  destruct (startswith old (String c s)).
  - rewrite sapp_nil_l. by apply IH.
  - cbn [forall_chars]. rewrite Hc. by apply IH.
Qed.

(** ** Units: value parsing *)

Lemma parse_range_midpoint :
  parse_spec_value "150-200 kg" = Ok (Some 175%float, Some "kg").
Proof. vm_compute. reflexivity. Qed.

Lemma parse_approximation :
  parse_spec_value "~450 lbs" = Ok (Some 450%float, Some "lbs").
Proof. vm_compute. reflexivity. Qed.

Lemma parse_invalid :
  parse_spec_value "invalid" = Ok (None, None).
Proof. vm_compute. reflexivity. Qed.

(** A text without digit and without dot gives no match to either
    pattern. *)
Lemma re_search_needs_number (r : regex) (s : string) :
  forall_chars (fun c => negb (digit_or_dot c)) s = true ->
  re_search (Cat (Grp 1 (Plus digit_or_dot)) r) s = None /\
  re_search (Grp 1 (Plus digit_or_dot)) s = None.
Proof.
  induction s as [|c s IH]; [done|].
  intros [Hc Hs]%andb_true_iff. apply negb_true_iff in Hc.
  destruct (IH Hs) as [IH1 IH2].
  split; simpl; rewrite Hc; simpl; assumption.
Qed.

(** Where the text holds neither a digit nor a dot, [parse_spec_value]
    returns [(None, None)]. *)
Lemma parse_without_number (text : string) :
  forall_chars (fun c => negb (digit_or_dot c)) text = true ->
  parse_spec_value text = Ok (None, None).
Proof.
  intros H. unfold parse_spec_value.
  destruct (nonempty text); [|done]. simpl negb. cbv iota.
  set (t := strip _).
  assert (Ht : forall_chars (fun c => negb (digit_or_dot c)) t = true).
  { apply forall_chars_strip. unfold replace. by do 3 apply forall_chars_delete. }
  destruct (re_search_needs_number
    (Cat (Opt (Cat (Star is_space) (Cat dash (Cat (Star is_space)
              (Grp 2 (Plus digit_or_dot))))))
    (Cat (Star is_space) (Grp 3 (Cat (Cls is_alpha) (Star unit_tail))))) t Ht)
    as [H1 H2].
  unfold pattern, number_pattern. by rewrite H1, H2.
Qed.

(** C6. A text in which no number can be parsed, yet with a dot before a
    letter, does not give [(None, None)]: the dot is captured as the
    number and [float] raises [ValueError]. *)
Theorem parse_spec_value_lone_dot_raises :
  parse_spec_value "N.A." = Raise ValueError.
Proof. vm_compute. reflexivity. Qed.

(** ** Units: conversion *)

Lemma string_in_In (s : string) (l : list string) :
  string_in s l = true -> In s l.
Proof.
  unfold string_in. intros (x & Hx & Heq)%existsb_exists.
  apply String.eqb_eq in Heq. by subst.
Qed.

Lemma string_in_disjoint (l t : list string) :
  forallb (fun x => negb (string_in x t)) l = true ->
  forall u, string_in u l && string_in u t = false.
Proof.
  intros H u. destruct (string_in u l) eqn:Hl; [|done]. simpl.
  apply string_in_In in Hl.
  rewrite forallb_forall in H. specialize (H _ Hl).
  by apply negb_true_iff in H.
Qed.

Ltac one_of H :=
  apply string_in_In in H; simpl in H;
  repeat (destruct H as [H|H]; [symmetry in H; subst|]); try contradiction.

Lemma convert_examples :
  convert_to_metric 100 "hp" "kW" = Some 74.57%float /\
  convert_to_metric 440 "lbs" "kg" = Some 199.58%float /\
  convert_to_metric 100 "mph" "km/h" = Some 160.93%float /\
  convert_to_metric 5 "gallons" "L" = Some 18.93%float.
Proof. vm_compute. repeat split; reflexivity. Qed.

(** C7, as stated, fails for a fuel consumption that is not positive: the
    rule 235.214 / mpg would give -23.52 for -10 mpg, the code gives 0. *)
Lemma convert_mpg_not_positive :
  convert_to_metric (-10) "mpg" "L/100km" = Some 0%float /\
  convert_to_metric (-10) "mpg" "L/100km"
    <> Some (py_round (235.214 / (-10)) 2).
Proof.
  split; [vm_compute; reflexivity|].
  intros H. vm_compute in H.
  assert (E : (0 <? 0)%float = ((-23.52) <? 0)%float) by congruence.
  vm_compute in E. discriminate.
Qed.

(** C7, amended. With [u] and [t] the two units in lower case and
    stripped: each of the eight rules applies its fixed factor and rounds
    to two decimals (one for millimeters), the fuel consumption rule
    giving 0 for a value that is not positive; equal units return the
    value unchanged; where no rule applies and the units differ the
    result is [None]. *)
Theorem convert_to_metric_rules (value : float) (unit target_unit : string) :
  let u := strip (lower unit) in
  let t := strip (lower target_unit) in
  let power := string_in u ["hp"; "horsepower"; "bhp"]
               && string_in t ["kw"; "kilowatt"; "kilowatts"] in
  let torque := string_in u ["lb-ft"; "lbft"; "lb.ft"; "ft-lb"; "ft.lb"]
                && string_in t ["nm"; "n-m"; "newton-meter"] in
  let inches := string_in u ["in"; "inch"; "inches"; String "034" ""]
                && string_in t ["mm"; "millimeter"; "millimeters"] in
  let feet := string_in u ["ft"; "foot"; "feet"; "'"]
              && string_in t ["mm"; "millimeter"; "millimeters"] in
  let weight := string_in u ["lb"; "lbs"; "pound"; "pounds"]
                && string_in t ["kg"; "kilogram"; "kilograms"] in
  let speed := string_in u ["mph"; "mi/h"]
               && string_in t ["km/h"; "kmh"; "kph"] in
  let volume := string_in u ["gal"; "gallon"; "gallons"]
                && string_in t ["l"; "liter"; "liters"; "litre"; "litres"] in
  let fuel := string_in u ["mpg"; "mi/gal"]
              && string_in t ["l/100km"; "l/100 km"] in
  (power = true ->
     convert_to_metric value unit target_unit = Some (py_round (value * 0.7457) 2)) /\
  (torque = true ->
     convert_to_metric value unit target_unit = Some (py_round (value * 1.3558) 2)) /\
  (inches = true ->
     convert_to_metric value unit target_unit = Some (py_round (value * 25.4) 1)) /\
  (feet = true ->
     convert_to_metric value unit target_unit = Some (py_round (value * 304.8) 1)) /\
  (weight = true ->
     convert_to_metric value unit target_unit = Some (py_round (value * 0.453592) 2)) /\
  (speed = true ->
     convert_to_metric value unit target_unit = Some (py_round (value * 1.60934) 2)) /\
  (volume = true ->
     convert_to_metric value unit target_unit = Some (py_round (value * 3.78541) 2)) /\
  (fuel = true ->
     convert_to_metric value unit target_unit =
       Some (if (value <=? 0)%float then 0%float
             else py_round (235.214 / value) 2)) /\
  (u = t -> convert_to_metric value unit target_unit = Some value) /\
  (power || torque || inches || feet || weight || speed || volume || fuel = false ->
   u <> t -> convert_to_metric value unit target_unit = None).
Proof.
  unfold convert_to_metric. cbv zeta.
  generalize (strip (lower unit)) as u, (strip (lower target_unit)) as t.
  intros u t.
  repeat split.
  1-8: intros [Hu Ht]%andb_true_iff; one_of Hu; one_of Ht; reflexivity.
  - intros <-.
    rewrite !string_in_disjoint by reflexivity.
    by rewrite String.eqb_refl.
  - intros H Hne.
    repeat match goal with
           | E : _ || _ = false |- _ => apply orb_false_iff in E as [? ?]
           end.
    repeat match goal with E : _ && _ = false |- _ => rewrite E; clear E end.
    destruct (String.eqb u t) eqn:E; [|done].
    by apply String.eqb_eq in E.
Qed.

Lemma convert_to_metric_rules_witness :
  convert_to_metric 100 "hp" "kW" = Some (py_round (100 * 0.7457) 2) /\
  convert_to_metric 12.5 " KG" "kg" = Some 12.5%float /\
  convert_to_metric 3 "kg" "lbs" = None.
Proof.
  split; [|split].
  - apply (convert_to_metric_rules 100 "hp" "kW"). reflexivity.
  - apply (convert_to_metric_rules 12.5 " KG" "kg"). reflexivity.
  - apply (convert_to_metric_rules 3 "kg" "lbs"); [reflexivity|].
    vm_compute. discriminate.
Defined.

(** ** Classifier *)

Lemma lower_nonempty (s : string) :
  (if nonempty s then lower s else "") = lower s.
Proof. by destruct s. Qed.

Lemma scan_indicators_existsb (indicators : list string) (u c : string) :
  scan_indicators indicators u c =
  existsb (fun kw => contains kw u || contains kw c) indicators.
Proof.
  induction indicators as [|kw rest IH]; [done|]. simpl.
  rewrite IH. by destruct (contains kw u || contains kw c).
Qed.

Lemma scan_page_types_find (table : list (string * list string)) (u c : string) :
  scan_page_types table u c = fst <$> List.find (indicator_hit u c) table.
Proof.
  induction table as [|[pt inds] rest IH]; [done|]. simpl.
  unfold indicator_hit at 1. simpl.
  rewrite scan_indicators_existsb, IH.
  by destruct (existsb _ inds).
Qed.

(** C8. The page type is one of the seven of the data model, and it is
    the first entry of the ordered indicator table with a keyword in the
    URL or in the content, [main] when no entry has one. *)
Theorem get_page_type_classifies (url content : string) :
  In (get_page_type url content) page_types /\
  get_page_type url content = classify_spec url content.
Proof.
  unfold get_page_type, classify_spec. cbv zeta.
  rewrite lower_nonempty, scan_page_types_find.
  destruct (List.find _ page_type_indicators) as [entry|] eqn:E; simpl.
  - split; [|done].
    apply find_some in E as [Hin _].
    simpl in Hin. unfold page_types.
    repeat (destruct Hin as [<-|Hin]; [simpl; tauto|]). contradiction.
  - split; [left|]; done.
Qed.

(** ** Characters and splitting *)

Ltac all_chars c :=
  destruct c as [[] [] [] [] [] [] [] []]; try reflexivity; try discriminate.

Lemma lower_char_idem (c : ascii) : lower_char (lower_char c) = lower_char c.
Proof. all_chars c. Qed.

Lemma lower_idem (s : string) : lower (lower s) = lower s.
Proof. induction s as [|c s IH]; [done|]. simpl. by rewrite lower_char_idem, IH. Qed.

Lemma lower_app (s t : string) : lower (s +:+ t) = lower s +:+ lower t.
Proof. induction s as [|c s IH]; [done|]. rewrite sapp_cons. simpl. by rewrite IH. Qed.

Lemma nonempty_lower (s : string) : nonempty (lower s) = nonempty s.
Proof. by destruct s. Qed.

Lemma caseless_char_is (a : ascii) :
  is_alpha a = false -> caseless (char_is a).
Proof. intros Ha c. revert Ha. unfold char_is. all_chars a; all_chars c. Qed.

Lemma caseless_c0 : caseless is_c0_or_space.
Proof. intros c. all_chars c. Qed.

Lemma caseless_unsafe : caseless is_unsafe.
Proof. intros c. all_chars c. Qed.

Lemma caseless_delim : caseless is_netloc_delim.
Proof. intros c. all_chars c. Qed.

Lemma caseless_alpha : caseless is_alpha.
Proof. intros c. all_chars c. Qed.

Lemma caseless_scheme_char : caseless scheme_char.
Proof. intros c. all_chars c. Qed.

Lemma caseless_negb (p : ascii -> bool) :
  caseless p -> caseless (fun c => negb (p c)).
Proof. intros H c. by rewrite H. Qed.

Lemma forall_chars_lower (p : ascii -> bool) (s : string) :
  caseless p -> forall_chars p (lower s) = forall_chars p s.
Proof. intros H. induction s as [|c s IH]; [done|]. simpl. by rewrite H, IH. Qed.

Lemma exists_char_lower (p : ascii -> bool) (s : string) :
  caseless p -> exists_char p (lower s) = exists_char p s.
Proof. intros H. induction s as [|c s IH]; [done|]. simpl. by rewrite H, IH. Qed.

Lemma exists_char_forall (p : ascii -> bool) (s : string) :
  exists_char p s = negb (forall_chars (fun c => negb (p c)) s).
Proof.
  induction s as [|c s IH]; [done|]. simpl. rewrite IH.
  by destruct (p c).
Qed.

Lemma exists_char_false (p : ascii -> bool) (s : string) :
  exists_char p s = false <-> forall_chars (fun c => negb (p c)) s = true.
Proof. rewrite exists_char_forall. by destruct (forall_chars _ s). Qed.

Lemma exists_char_app (p : ascii -> bool) (s t : string) :
  exists_char p (s +:+ t) = exists_char p s || exists_char p t.
Proof.
  induction s as [|c s IH]; [done|].
  rewrite sapp_cons. simpl. rewrite IH. by rewrite orb_assoc.
Qed.

Lemma span_spec (p : ascii -> bool) (s a b : string) :
  span p s = (a, b) ->
  s = a +:+ b /\ forall_chars (fun c => negb (p c)) a = true /\ stops p b = true.
Proof.
  revert a b. induction s as [|c s IH]; intros a b; simpl.
  - by intros [= <- <-].
  - destruct (p c) eqn:Hc.
    + intros [= <- <-]. simpl. by rewrite Hc.
    + destruct (span p s) as [a' b'] eqn:E. intros [= <- <-].
      destruct (IH _ _ eq_refl) as (-> & Ha & Hb).
      rewrite sapp_cons. simpl. by rewrite Hc, Ha.
Qed.

Lemma span_unique (p : ascii -> bool) (a b : string) :
  forall_chars (fun c => negb (p c)) a = true -> stops p b = true ->
  span p (a +:+ b) = (a, b).
Proof.
  induction a as [|c a IH]; intros Ha Hb.
  - rewrite sapp_nil_l. destruct b as [|c b]; [done|].
    simpl in *. by rewrite Hb.
  - simpl in Ha. apply andb_true_iff in Ha as [Hc Ha].
    apply negb_true_iff in Hc.
    rewrite sapp_cons. simpl. rewrite Hc. by rewrite IH.
Qed.

Lemma span_lower (p : ascii -> bool) (s : string) :
  caseless p ->
  span p (lower s) = (lower (span p s).1, lower (span p s).2).
Proof.
  intros H. induction s as [|c s IH]; [done|]. simpl.
  rewrite H. destruct (p c); [done|].
  rewrite IH. by destruct (span p s).
Qed.

Lemma cut_Some (c : ascii) (s a b : string) :
  cut c s = Some (a, b) ->
  s = a +:+ String c b /\ forall_chars (fun x => negb (char_is c x)) a = true.
Proof.
  unfold cut. destruct (span (char_is c) s) as [a' b'] eqn:E.
  apply span_spec in E as (-> & Ha & Hb).
  destruct b' as [|x b']; [done|]. intros [= <- <-].
  simpl in Hb. apply Ascii.eqb_eq in Hb as <-. done.
Qed.

Lemma cut_None (c : ascii) (s : string) :
  cut c s = None <-> forall_chars (fun x => negb (char_is c x)) s = true.
Proof.
  unfold cut. destruct (span (char_is c) s) as [a' b'] eqn:E.
  apply span_spec in E as (-> & Ha & Hb).
  destruct b' as [|x b'].
  - by rewrite sapp_nil_r.
  - rewrite forall_chars_app. simpl in *. rewrite Hb. simpl.
    rewrite andb_false_r. done.
Qed.

Lemma cut_app (c : ascii) (a b : string) :
  forall_chars (fun x => negb (char_is c x)) a = true ->
  cut c (a +:+ String c b) = Some (a, b).
Proof.
  intros Ha. unfold cut. rewrite span_unique; [done|done|].
  simpl. apply Ascii.eqb_refl.
Qed.

Lemma cut_lower (c : ascii) (s : string) :
  is_alpha c = false ->
  cut c (lower s) = (fun ab => (lower ab.1, lower ab.2)) <$> cut c s.
Proof.
  intros Hc. unfold cut.
  rewrite span_lower by by apply caseless_char_is.
  destruct (span (char_is c) s) as [a [|x b]]; done.
Qed.

Lemma split_at_lower (c : ascii) (s : string) :
  is_alpha c = false ->
  split_at c (lower s) = (lower (split_at c s).1, lower (split_at c s).2).
Proof.
  intros Hc. unfold split_at. rewrite cut_lower by done.
  by destruct (cut c s) as [[a b]|].
Qed.

(** ** URL parsing does not depend on letter case *)

Lemma lstrip_lower (p : ascii -> bool) (s : string) :
  caseless p -> lstrip_of p (lower s) = lower (lstrip_of p s).
Proof.
  intros H. induction s as [|c s IH]; [done|]. simpl.
  rewrite H. by destruct (p c).
Qed.

Lemma rstrip_lower (p : ascii -> bool) (s : string) :
  caseless p -> rstrip_of p (lower s) = lower (rstrip_of p s).
Proof.
  intros H. induction s as [|c s IH]; [done|]. simpl.
  rewrite IH, H. destruct (rstrip_of p s); simpl; [|done].
  by destruct (p c).
Qed.

Lemma remove_lower (p : ascii -> bool) (s : string) :
  caseless p -> remove_chars p (lower s) = lower (remove_chars p s).
Proof.
  intros H. induction s as [|c s IH]; [done|]. simpl.
  rewrite H, IH. by destruct (p c).
Qed.

Lemma drop_lower (n : nat) (s : string) :
  drop_chars n (lower s) = lower (drop_chars n s).
Proof.
  revert s. induction n as [|n IH]; intros [|c s]; simpl; auto.
Qed.

Lemma slashes_lower (s : string) :
  startswith "//" (lower s) = startswith "//" s.
Proof.
  pose proof (caseless_char_is "/" eq_refl) as H. unfold char_is in H.
  destruct s as [|a [|b s]]; simpl; [done| |]; by rewrite ?H.
Qed.

Lemma split_scheme_lower (s : string) :
  split_scheme (lower s) = ((split_scheme s).1, lower (split_scheme s).2).
Proof.
  unfold split_scheme. rewrite cut_lower by done.
  destruct (cut ":" s) as [[[|c0 pre] rest]|]; simpl; try done.
  rewrite caseless_alpha, caseless_scheme_char.
  rewrite (forall_chars_lower scheme_char pre caseless_scheme_char).
  destruct (is_alpha c0 && (scheme_char c0 && forall_chars scheme_char pre)); simpl; [|done].
  by rewrite lower_char_idem, lower_idem.
Qed.

Lemma split_scheme_lowered (s : string) :
  lower (split_scheme s).1 = (split_scheme s).1.
Proof.
  unfold split_scheme.
  destruct (cut ":" s) as [[[|c0 pre] rest]|]; try done.
  destruct (_ && _); [|done].
  apply lower_idem.
Qed.

Lemma split_netloc_lower (s : string) :
  split_netloc (lower s) = (lower (split_netloc s).1, lower (split_netloc s).2).
Proof.
  unfold split_netloc. rewrite slashes_lower.
  destruct (startswith "//" s); [|done].
  rewrite drop_lower. apply span_lower, caseless_delim.
Qed.

Lemma bracket_mismatch_lower (s : string) :
  bracket_mismatch (lower s) = bracket_mismatch s.
Proof.
  unfold bracket_mismatch.
  by rewrite !exists_char_lower by by apply caseless_char_is.
Qed.

Lemma rcut_lower (c : ascii) (s : string) :
  is_alpha c = false ->
  rcut c (lower s) = (fun ab => (lower ab.1, lower ab.2)) <$> rcut c s.
Proof.
  intros Hc. induction s as [|a s IH]; [done|]. simpl.
  rewrite IH. destruct (rcut c s) as [[x y]|]; simpl; [done|].
  rewrite (caseless_char_is c Hc a). by destruct (char_is c a).
Qed.

Lemma splitparams_lower (s : string) :
  splitparams (lower s) = (lower (splitparams s).1, lower (splitparams s).2).
Proof.
  unfold splitparams. rewrite rcut_lower by done.
  destruct (rcut "/" s) as [[dir base]|]; simpl.
  - rewrite cut_lower by done.
    destruct (cut ";" base) as [[a b]|]; simpl; [|done].
    by rewrite lower_app.
  - by apply split_at_lower.
Qed.

(** ** The bracketed host of a network location, in lower case *)

Lemma caseless_lower_closed (p : ascii -> bool) : caseless p -> lower_closed p.
Proof. intros H c Hc. by rewrite H. Qed.

Lemma caseless_hex : caseless is_hex.
Proof. intros c. all_chars c. Qed.

Lemma caseless_digit : caseless is_digit.
Proof. intros c. all_chars c. Qed.

Lemma or_else_is_Some {A} (x y : option A) :
  is_Some (or_else x y) <-> is_Some x \/ is_Some y.
Proof.
  destruct x as [a|]; cbn; [|split; [by right|by intros [[? [=]]|?]]].
  split; [by left|eauto].
Qed.

Lemma match_star_lower {R R'} (p : ascii -> bool) (s : string)
    (k : string -> option R) (k' : string -> option R') :
  lower_closed p ->
  (forall rest, is_Some (k rest) -> is_Some (k' (lower rest))) ->
  is_Some (match_star p s k) -> is_Some (match_star p (lower s) k').
Proof.
  intros Hp Hk. induction s as [|c s IH]; [apply Hk|].
  cbn [match_star lower]. destruct (p c) eqn:E.
  - rewrite (Hp c E), !or_else_is_Some. intros [H|H]; [left; by apply IH|].
    right. by apply (Hk (String c s)).
  - intros H. apply (Hk (String c s)) in H. cbn [lower] in H.
    destruct (p (lower_char c)); [|done]. apply or_else_is_Some. by right.
Qed.

Lemma match_re_lower {R R'} (r : regex) :
  lower_closed_regex r ->
  forall (s : string) (caps caps' : captures)
         (k : string -> captures -> option R) (k' : string -> captures -> option R'),
    (forall rest c c', is_Some (k rest c) -> is_Some (k' (lower rest) c')) ->
    is_Some (match_re r s caps k) -> is_Some (match_re r (lower s) caps' k').
Proof.
  induction r as [p|p|r1 IH1 r2 IH2|r1 IH1 r2 IH2|r1 IH1|n r1 IH1];
    cbn [lower_closed_regex match_re]; intros Hr s caps caps' k k' Hk.
  - destruct s as [|c s]; [by intros [? [=]]|]. cbn [lower].
    destruct (p c) eqn:E; [|by intros [? [=]]]. rewrite (Hr c E). apply Hk.
  - apply match_star_lower; [done|]. intros rest. apply Hk.
  - destruct Hr as [H1 H2]. apply IH1; [done|].
    intros rest c c'. by apply IH2.
  - destruct Hr as [H1 H2]. rewrite !or_else_is_Some.
    intros [H|H]; [left; by apply (IH1 H1 s caps caps' k k' Hk)|
                  right; by apply (IH2 H2 s caps caps' k k' Hk)].
  - rewrite !or_else_is_Some.
    intros [H|H]; [left; by apply (IH1 Hr s caps caps' k k' Hk)|
                  right; by apply (Hk s caps)].
  - apply IH1; [done|]. intros rest c c'. apply Hk.
Qed.

Lemma ipvfuture_lower_closed : lower_closed_regex ipvfuture.
Proof.
  cbn. repeat split; try (intros c; all_chars c).
Qed.

Lemma re_match_to_end_lower (r : regex) (s : string) :
  lower_closed_regex r ->
  re_match_to_end r s = true -> re_match_to_end r (lower s) = true.
Proof.
  unfold re_match_to_end. intros Hr H.
  apply bool_decide_eq_true in H. apply bool_decide_eq_true.
  revert H. apply match_re_lower; [done|].
  intros rest _ _. rewrite nonempty_lower. done.
Qed.

Lemma split_on_lower (c : ascii) (s : string) :
  is_alpha c = false -> split_on c (lower s) = map lower (split_on c s).
Proof.
  intros Hc. induction s as [|a s IH]; [done|]. cbn [split_on lower].
  rewrite IH. destruct (split_on c s) as [|w ws]; [done|]. cbn [map].
  rewrite (caseless_char_is c Hc a). by destruct (char_is c a).
Qed.

Lemma char_is_eq (c a : ascii) : char_is c a = true -> a = c.
Proof. unfold char_is. by intros ->%Ascii.eqb_eq. Qed.

Lemma forall_chars_split_on (p : ascii -> bool) (c : ascii) (s : string) :
  p c = true ->
  forallb (forall_chars p) (split_on c s) = true -> forall_chars p s = true.
Proof.
  intros Hc. induction s as [|a s IH]; [done|]. cbn [split_on].
  destruct (split_on c s) as [|w ws].
  - cbn. rewrite andb_true_r. intros [Ha _]%andb_true_iff. rewrite Ha. cbn.
    by apply IH.
  - destruct (char_is c a) eqn:E.
    + apply char_is_eq in E as ->. cbn [forallb forall_chars].
      rewrite Hc. cbn [andb]. apply IH.
    + cbn [forallb forall_chars]. intros [[Ha Hw]%andb_true_iff Hws]%andb_true_iff.
      rewrite Ha. cbn [andb]. apply IH. cbn [forallb]. by rewrite Hw, Hws.
Qed.

Lemma lower_fixed (p : ascii -> bool) (s : string) :
  (forall c, p c = true -> lower_char c = c) ->
  forall_chars p s = true -> lower s = s.
Proof.
  intros Hp. induction s as [|c s IH]; [done|]. cbn.
  intros [Hc Hs]%andb_true_iff. by rewrite (Hp c Hc), IH.
Qed.

Lemma parse_octet_digits (o : string) (v : N) :
  parse_octet o = Some v -> forall_chars is_digit o = true.
Proof.
  unfold parse_octet. destruct (nonempty o); [|done]. cbn [negb].
  by destruct (forall_chars is_digit o).
Qed.

Lemma IPv4Address_chars (s : string) (v : N) :
  IPv4Address s = Some v -> forall_chars digit_or_dot s = true.
Proof.
  unfold IPv4Address. destruct (exists_char _ s); [done|].
  destruct (negb (nonempty s)); [done|].
  destruct (split_on "." s) as [|o1 [|o2 [|o3 [|o4 [|]]]]] eqn:E; try done.
  destruct (parse_octet o1) as [b1|] eqn:E1; [|done].
  destruct (parse_octet o2) as [b2|] eqn:E2; [|done].
  destruct (parse_octet o3) as [b3|] eqn:E3; [|done].
  destruct (parse_octet o4) as [b4|] eqn:E4; [|done].
  intros _. apply (forall_chars_split_on digit_or_dot "."); [done|].
  rewrite E. cbn [forallb].
  assert (H : forall o v, parse_octet o = Some v -> forall_chars digit_or_dot o = true).
  { intros o v' Ho. apply parse_octet_digits in Ho.
    revert Ho. apply forall_chars_impl. intros c Hc. unfold digit_or_dot.
    by rewrite Hc. }
  by rewrite (H _ _ E1), (H _ _ E2), (H _ _ E3), (H _ _ E4).
Qed.

Lemma digit_or_dot_lower (c : ascii) : digit_or_dot c = true -> lower_char c = c.
Proof. all_chars c. Qed.

Lemma caseless_digit_or_dot : caseless digit_or_dot.
Proof. intros c. all_chars c. Qed.

Lemma IPv4Address_lower (s : string) : IPv4Address (lower s) = IPv4Address s.
Proof.
  destruct (IPv4Address s) as [v|] eqn:E.
  - apply IPv4Address_chars in E as H.
    by rewrite (lower_fixed _ _ digit_or_dot_lower H).
  - destruct (IPv4Address (lower s)) as [v|] eqn:E'; [|done].
    pose proof (IPv4Address_chars _ _ E') as H.
    rewrite forall_chars_lower in H by apply caseless_digit_or_dot.
    rewrite (lower_fixed _ _ digit_or_dot_lower H) in E'. congruence.
Qed.

Lemma hex_char_lower (n : N) : (n < 16)%N -> lower_char (hex_char n) = hex_char n.
Proof.
  intros H. assert (E : n = N.of_nat (N.to_nat n)) by by rewrite N2Nat.id.
  assert (Hn : (N.to_nat n < 16)%nat) by lia.
  rewrite E. clear E H. generalize dependent (N.to_nat n). intros m Hm.
  do 16 (destruct m as [|m]; [reflexivity|]). lia.
Qed.

Lemma hex_fuel_lower (fuel : nat) (n : N) (acc : string) :
  lower acc = acc -> lower (hex_fuel fuel n acc) = hex_fuel fuel n acc.
Proof.
  revert n acc. induction fuel as [|fuel IH]; intros n acc Hacc; [done|].
  cbn [hex_fuel].
  assert (H : lower (String (hex_char (n mod 16)) acc)
              = String (hex_char (n mod 16)) acc).
  { cbn [lower]. rewrite Hacc, hex_char_lower; [done|]. by apply N.mod_lt. }
  destruct (n <? 16)%N; [done|]. by apply IH.
Qed.

Lemma hex_of_N_lower (n : N) : lower (hex_of_N n) = hex_of_N n.
Proof. by apply hex_fuel_lower. Qed.

Lemma length_lower (s : string) : String.length (lower s) = String.length s.
Proof. induction s as [|c s IH]; [done|]. cbn. by rewrite IH. Qed.

Lemma parse_hextet_lower (s : string) : parse_hextet (lower s) = parse_hextet s.
Proof.
  unfold parse_hextet.
  by rewrite forall_chars_lower, length_lower, nonempty_lower by apply caseless_hex.
Qed.

Lemma nth_map_lower (i : nat) (l : list string) :
  nth i (map lower l) "" = lower (nth i l "").
Proof. by rewrite <- (map_nth lower). Qed.

Lemma last_map_lower (l : list string) :
  List.last (map lower l) "" = lower (List.last l "").
Proof.
  induction l as [|a [|b l] IH]; [done|done|]. exact IH.
Qed.

Lemma removelast_map_lower (l : list string) :
  removelast (map lower l) = map lower (removelast l).
Proof.
  induction l as [|a [|b l] IH]; [done|done|].
  cbn [map removelast] in *. by rewrite IH.
Qed.

Lemma forallb_hextet_lower (l : list string) :
  forallb parse_hextet (map lower l) = forallb parse_hextet l.
Proof.
  induction l as [|a l IH]; [done|]. cbn. by rewrite parse_hextet_lower, IH.
Qed.

Lemma empty_inner_parts_lower (l : list string) :
  empty_inner_parts (map lower l) = empty_inner_parts l.
Proof.
  unfold empty_inner_parts. rewrite length_map.
  apply filter_ext. intros i. by rewrite nth_map_lower, nonempty_lower.
Qed.

Lemma ipv6_parts_lower (l : list string) :
  ipv6_parts (map lower l) = ipv6_parts l.
Proof.
  unfold ipv6_parts.
  rewrite length_map, empty_inner_parts_lower, nth_map_lower, last_map_lower,
    !nonempty_lower.
  destruct (9 <? length l)%nat; [done|].
  destruct (empty_inner_parts l) as [|i [|j t]]; [| |done].
  - by rewrite forallb_hextet_lower.
  - by rewrite !firstn_map, !skipn_map, !forallb_hextet_lower.
Qed.

Lemma ip_int_from_string_lower (s : string) :
  ip_int_from_string (lower s) = ip_int_from_string s.
Proof.
  unfold ip_int_from_string.
  rewrite nonempty_lower, split_on_lower by done.
  rewrite length_map, last_map_lower.
  rewrite exists_char_lower by by apply caseless_char_is.
  rewrite IPv4Address_lower.
  destruct (negb (nonempty s)); [done|].
  destruct (length (split_on ":" s) <? 3)%nat; [done|].
  destruct (exists_char (char_is ".") _); [|apply ipv6_parts_lower].
  destruct (IPv4Address _) as [v|]; [|done].
  rewrite removelast_map_lower.
  rewrite <- (ipv6_parts_lower (removelast (split_on ":" s) ++ _)).
  rewrite map_app. cbn [map]. by rewrite !hex_of_N_lower.
Qed.

Lemma partition_lower (c : ascii) (s : string) :
  is_alpha c = false ->
  partition c (lower s)
  = (lower (partition c s).1.1, (partition c s).1.2, lower (partition c s).2).
Proof.
  intros Hc. unfold partition. rewrite cut_lower by done.
  by destruct (cut c s) as [[a b]|].
Qed.

Lemma IPv6Address_lower (s : string) : IPv6Address (lower s) = IPv6Address s.
Proof.
  unfold IPv6Address.
  rewrite exists_char_lower by by apply caseless_char_is.
  rewrite partition_lower by done.
  destruct (partition "%" s) as [[addr sep] scope]. cbn [fst snd].
  rewrite nonempty_lower, ip_int_from_string_lower.
  by rewrite exists_char_lower by by apply caseless_char_is.
Qed.

Lemma split_on_head (sep c : ascii) (s : string) :
  char_is sep c = false ->
  exists w ws, split_on sep (String c s) = String c w :: ws.
Proof.
  intros Hc. cbn [split_on]. rewrite Hc.
  destruct (split_on sep s) as [|w ws]; eauto.
Qed.

Lemma ipv6_parts_head (p0 : string) (rest : list string) :
  ipv6_parts (p0 :: rest) = true -> nonempty p0 = true -> parse_hextet p0 = true.
Proof.
  unfold ipv6_parts. intros H Hp. cbn [nth] in H. rewrite Hp in H.
  cbn [negb andb] in H.
  destruct (9 <? length (p0 :: rest))%nat; [done|].
  destruct (empty_inner_parts (p0 :: rest)) as [|i [|j t]] eqn:E; [| |done].
  - destruct (negb (length (p0 :: rest) =? 8)%nat); [done|].
    destruct (negb (nonempty (List.last (p0 :: rest) ""))); [done|].
    cbn [forallb] in H. by apply andb_true_iff in H as [? _].
  - assert (Hi : In i (empty_inner_parts (p0 :: rest))) by (rewrite E; by left).
    apply filter_In in Hi as [Hi _]. apply in_seq in Hi as [Hi _].
    destruct i as [|i]; [lia|].
    destruct (_ && _); [done|]. destruct (8 <=? _)%nat; [done|].
    cbn [take forallb] in H. apply andb_true_iff in H as [H _].
    by apply andb_true_iff in H as [? _].
Qed.

Lemma ip_int_from_string_head (c : ascii) (s : string) :
  ip_int_from_string (String c s) = true -> is_hex c || char_is ":" c = true.
Proof.
  destruct (char_is ":" c) eqn:Hc; [by rewrite orb_true_r|]. rewrite orb_false_r.
  unfold ip_int_from_string. cbn [nonempty negb].
  destruct (split_on_head ":" c s Hc) as (w & ws & ->).
  destruct (length (String c w :: ws) <? 3)%nat eqn:Hlen; [done|].
  apply Nat.ltb_ge in Hlen. cbn [length] in Hlen.
  assert (Hhead : forall l, ipv6_parts (String c w :: l) = true -> is_hex c = true).
  { intros l H. apply ipv6_parts_head in H; [|done].
    unfold parse_hextet in H. apply andb_true_iff in H as [H _].
    apply andb_true_iff in H as [H _]. cbn [forall_chars] in H.
    by apply andb_true_iff in H as [? _]. }
  destruct (exists_char _ _); [|apply Hhead].
  destruct (IPv4Address _); [|done].
  destruct ws as [|w1 ws]; [cbn in Hlen; lia|].
  change (removelast (String c w :: w1 :: ws)) with (String c w :: removelast (w1 :: ws)).
  rewrite <- app_comm_cons. apply Hhead.
Qed.

Lemma cut_head (sep c : ascii) (s : string) :
  char_is sep c = false ->
  match cut sep (String c s) with
  | Some (a, _) => exists a', a = String c a'
  | None => True
  end.
Proof.
  intros Hc. unfold cut. cbn [span]. rewrite Hc.
  destruct (span (char_is sep) s) as [a [|x b]]; eauto.
Qed.

Lemma IPv6Address_head (c : ascii) (s : string) :
  IPv6Address (String c s) = true -> is_hex c || char_is ":" c = true.
Proof.
  unfold IPv6Address. destruct (exists_char _ _); [done|].
  unfold partition.
  destruct (char_is "%" c) eqn:Hc.
  - unfold cut. cbn [span]. rewrite Hc. by destruct (_ || _).
  - pose proof (cut_head "%" c s Hc) as H.
    destruct (cut "%" (String c s)) as [[a b]|].
    + destruct H as [a' ->]. destruct (_ || _); [done|].
      apply ip_int_from_string_head.
    + apply ip_int_from_string_head.
Qed.

Lemma hex_or_colon_not_v (c : ascii) :
  is_hex c || char_is ":" c = true -> char_is "v" (lower_char c) = false.
Proof. all_chars c. Qed.

Lemma startswith_v_lower (s : string) :
  startswith "v" s = true -> startswith "v" (lower s) = true.
Proof.
  destruct s as [|c s]; [done|]. cbn [startswith lower].
  rewrite !andb_true_r. fold (char_is "v" c) (char_is "v" (lower_char c)).
  all_chars c.
Qed.

Lemma check_bracketed_host_lower (h : string) :
  check_bracketed_host h = Ok tt -> check_bracketed_host (lower h) = Ok tt.
Proof.
  unfold check_bracketed_host. destruct (startswith "v" h) eqn:Hv.
  - rewrite (startswith_v_lower h Hv).
    destruct (re_match_to_end ipvfuture h) eqn:E; [|done].
    by rewrite (re_match_to_end_lower _ _ ipvfuture_lower_closed E).
  - unfold ip_address. rewrite IPv4Address_lower, IPv6Address_lower.
    destruct (bool_decide (is_Some (IPv4Address h))); [done|].
    destruct (IPv6Address h) eqn:E; [|done].
    intros _.
    assert (Hl : startswith "v" (lower h) = false).
    { destruct h as [|c h]; [done|]. apply IPv6Address_head in E.
      cbn [lower startswith]. fold (char_is "v" (lower_char c)).
      by rewrite (hex_or_colon_not_v c E). }
    by rewrite Hl.
Qed.

Lemma after_last_lower (c : ascii) (s : string) :
  is_alpha c = false -> after_last c (lower s) = lower (after_last c s).
Proof.
  intros Hc. unfold after_last. rewrite rcut_lower by done.
  by destruct (rcut c s) as [[a b]|].
Qed.

Lemma startswith_colon_lower (s : string) :
  startswith ":" (lower s) = startswith ":" s.
Proof.
  pose proof (caseless_char_is ":" eq_refl) as H. unfold char_is in H.
  destruct s as [|a s]; simpl; [done|]. by rewrite H.
Qed.

Lemma check_bracketed_netloc_lower (n : string) :
  check_bracketed_netloc n = Ok tt -> check_bracketed_netloc (lower n) = Ok tt.
Proof.
  unfold check_bracketed_netloc.
  rewrite after_last_lower, partition_lower by done.
  destruct (partition "[" (after_last "@" n)) as [[before have] bracketed].
  cbn [fst snd]. destruct have.
  - rewrite nonempty_lower. destruct (nonempty before); [done|].
    rewrite partition_lower by done.
    destruct (partition "]" bracketed) as [[hostname sep] port]. cbn [fst snd].
    rewrite nonempty_lower, startswith_colon_lower.
    destruct (_ && _); [done|]. apply check_bracketed_host_lower.
  - rewrite partition_lower by done.
    destruct (partition ":" _) as [[hostname sep] port]. cbn [fst snd].
    apply check_bracketed_host_lower.
Qed.

Lemma result_unit_Ok (r : result unit) : (exists u, r = Ok u) -> r = Ok tt.
Proof. by intros [[] ->]. Qed.

Lemma invalid_netloc_lower (n : string) :
  invalid_netloc n = false -> invalid_netloc (lower n) = false.
Proof.
  unfold invalid_netloc.
  rewrite bracket_mismatch_lower.
  rewrite !exists_char_lower by by apply caseless_char_is.
  destruct (bracket_mismatch n); [done|]. destruct (_ && _); [|done].
  destruct (check_bracketed_netloc n) as [[]|] eqn:E; [|done].
  by rewrite (check_bracketed_netloc_lower n E).
Qed.

Lemma invalid_netloc_plain (n : string) :
  exists_char (char_is "[") n = false -> invalid_netloc n = bracket_mismatch n.
Proof.
  unfold invalid_netloc. intros ->. cbn [andb].
  by destruct (bracket_mismatch n).
Qed.


(** ** What the pieces of a split are made of *)

Lemma forall_chars_span (P p : ascii -> bool) (s : string) :
  forall_chars P s = true ->
  forall_chars P (span p s).1 = true /\ forall_chars P (span p s).2 = true.
Proof.
  intros H. destruct (span p s) as [a b] eqn:E.
  apply span_spec in E as (-> & _ & _).
  rewrite forall_chars_app in H. by apply andb_true_iff in H.
Qed.

Lemma forall_chars_cut (P : ascii -> bool) (c : ascii) (s a b : string) :
  cut c s = Some (a, b) -> forall_chars P s = true ->
  forall_chars P a = true /\ forall_chars P b = true.
Proof.
  intros (-> & _)%cut_Some H.
  rewrite forall_chars_app in H. simpl in H.
  apply andb_true_iff in H as [Ha [_ Hb]%andb_true_iff]. done.
Qed.

Lemma forall_chars_split_at (P : ascii -> bool) (c : ascii) (s : string) :
  forall_chars P s = true ->
  forall_chars P (split_at c s).1 = true /\ forall_chars P (split_at c s).2 = true.
Proof.
  intros H. unfold split_at. destruct (cut c s) as [[a b]|] eqn:E; [|done].
  by apply (forall_chars_cut P) in E.
Qed.

Lemma forall_chars_drop (P : ascii -> bool) (n : nat) (s : string) :
  forall_chars P s = true -> forall_chars P (drop_chars n s) = true.
Proof.
  revert s. induction n as [|n IH]; intros [|c s]; simpl; try done.
  intros [_ H]%andb_true_iff. by apply IH.
Qed.

Lemma forall_chars_remove (P p : ascii -> bool) (s : string) :
  forall_chars P s = true -> forall_chars P (remove_chars p s) = true.
Proof.
  induction s as [|c s IH]; [done|]. simpl.
  intros [Hc Hs]%andb_true_iff. destruct (p c); simpl; [auto|].
  rewrite Hc. auto.
Qed.

Lemma forall_chars_split_scheme (P : ascii -> bool) (s : string) :
  forall_chars P s = true -> forall_chars P (split_scheme s).2 = true.
Proof.
  intros H. unfold split_scheme.
  destruct (cut ":" s) as [[[|c0 pre] rest]|] eqn:E; try done.
  destruct (_ && _); [|done].
  by apply (forall_chars_cut P) in E as [_ ?].
Qed.

Lemma forall_chars_split_netloc (P : ascii -> bool) (s : string) :
  forall_chars P s = true ->
  forall_chars P (split_netloc s).1 = true /\
  forall_chars P (split_netloc s).2 = true.
Proof.
  intros H. unfold split_netloc. destruct (startswith "//" s); [|done].
  by apply forall_chars_span, forall_chars_drop.
Qed.

(** Lower-casing a URL without an opening bracket lower-cases its parts. *)
Lemma urlparse_lower (u : string) :
  exists_char (char_is "[") u = false ->
  urlparse (lower u) = lower_parse <$> urlparse u.
Proof.
  intros Hb. apply exists_char_false in Hb.
  unfold urlparse.
  rewrite lstrip_lower by apply caseless_c0.
  rewrite remove_lower by apply caseless_unsafe.
  rewrite split_scheme_lower.
  set (s := remove_chars is_unsafe (lstrip_of is_c0_or_space u)).
  assert (Bs : forall_chars (fun c => negb (char_is "[" c)) s = true)
    by by apply forall_chars_remove, forall_chars_lstrip.
  pose proof (split_scheme_lowered s) as Hs.
  pose proof (forall_chars_split_scheme _ s Bs) as B1.
  destruct (split_scheme s) as [sch r1]. cbn [fst snd] in *.
  rewrite split_netloc_lower.
  pose proof (forall_chars_split_netloc _ r1 B1) as [Bn _].
  destruct (split_netloc r1) as [net r2]. cbn [fst snd] in *.
  apply exists_char_false in Bn.
  rewrite !invalid_netloc_plain, bracket_mismatch_lower;
    [|done|by rewrite exists_char_lower by by apply caseless_char_is].
  destruct (bracket_mismatch net); [done|].
  rewrite split_at_lower by done.
  destruct (split_at "#" r2) as [r3 frag]. cbn [fst snd].
  rewrite split_at_lower by done.
  destruct (split_at "?" r3) as [r4 qry]. cbn [fst snd].
  rewrite exists_char_lower by by apply caseless_char_is.
  destruct (string_in sch uses_params && exists_char (char_is ";") r4).
  - rewrite splitparams_lower. destruct (splitparams r4) as [r5 prm].
    cbn [fst snd fmap result_fmap]. unfold lower_parse. cbn [scheme netloc path params query fragment].
    by rewrite Hs.
  - cbn [fst snd fmap result_fmap]. unfold lower_parse. cbn [scheme netloc path params query fragment].
    by rewrite Hs.
Qed.

Lemma normalize_url_lower (u : string) :
  exists_char (char_is "[") u = false ->
  normalize_url (lower u) = normalize_url u.
Proof.
  intros Hb. unfold normalize_url. rewrite urlparse_lower by done.
  destruct (urlparse u) as [p|e]; [|done]. simpl.
  rewrite nonempty_lower.
  rewrite rstrip_lower by by apply caseless_char_is.
  destruct (nonempty (query p)); rewrite !lower_app, ?lower_idem; done.
Qed.

Lemma normalize_url_case (u u' : string) :
  exists_char (char_is "[") u = false ->
  lower u = lower u' -> normalize_url u = normalize_url u'.
Proof.
  intros Hb H.
  assert (Hb' : exists_char (char_is "[") u' = false).
  { rewrite <- (exists_char_lower (char_is "[") u') by by apply caseless_char_is.
    rewrite <- H. by rewrite exists_char_lower by by apply caseless_char_is. }
  by rewrite <- (normalize_url_lower u), H, normalize_url_lower.
Qed.

Lemma remove_chars_app (p : ascii -> bool) (s t : string) :
  remove_chars p (s +:+ t) = remove_chars p s +:+ remove_chars p t.
Proof.
  induction s as [|c s IH]; [done|]. rewrite sapp_cons. simpl.
  rewrite IH. by destruct (p c).
Qed.

Lemma remove_chars_id (p : ascii -> bool) (s : string) :
  forall_chars (fun c => negb (p c)) s = true -> remove_chars p s = s.
Proof.
  induction s as [|c s IH]; [done|]. simpl.
  intros [Hc Hs]%andb_true_iff. apply negb_true_iff in Hc.
  rewrite Hc. by rewrite IH.
Qed.

Lemma lstrip_app_stop (p : ascii -> bool) (s t : string) :
  stops (fun c => negb (p c)) t = true -> nonempty t = true ->
  lstrip_of p (s +:+ t) = lstrip_of p s +:+ t.
Proof.
  intros Ht Hn. induction s as [|c s IH].
  - rewrite sapp_nil_l. destruct t as [|c t]; [done|]. simpl in *.
    apply negb_true_iff in Ht. by rewrite Ht.
  - rewrite sapp_cons. simpl. destruct (p c); [done|]. by rewrite sapp_cons.
Qed.

Lemma span_app_clear (p : ascii -> bool) (a b : string) :
  forall_chars (fun c => negb (p c)) a = true ->
  span p (a +:+ b) = (a +:+ (span p b).1, (span p b).2).
Proof.
  intros Ha. destruct (span p b) as [x y] eqn:E.
  apply span_spec in E as (-> & Hx & Hy). simpl.
  rewrite <- app_assoc_s. apply span_unique; [|done].
  rewrite forall_chars_app. by rewrite Ha, Hx.
Qed.

Lemma span_app_stop (p : ascii -> bool) (s t : string) :
  stops p t = true ->
  span p (s +:+ t) = ((span p s).1, (span p s).2 +:+ t).
Proof.
  intros Ht. destruct (span p s) as [a b] eqn:E.
  apply span_spec in E as (-> & Ha & Hb). simpl.
  rewrite app_assoc_s. apply span_unique; [done|].
  destruct b; [by rewrite sapp_nil_l|done].
Qed.

(** ** A fragment does not change the normalised URL *)

Lemma split_scheme_app_stop (s t : string) (x : ascii) :
  scheme_char x = false -> char_is ":" x = false ->
  split_scheme (s +:+ String x t) =
  ((split_scheme s).1, (split_scheme s).2 +:+ String x t).
Proof.
  intros Hx Hx'. unfold split_scheme.
  destruct (cut ":" s) as [[pre rest]|] eqn:E.
  - apply cut_Some in E as (-> & Hpre).
    rewrite app_assoc_s, sapp_cons. rewrite cut_app by done.
    destruct pre as [|c0 pre]; [done|].
    destruct (_ && _); cbn [fst snd]; [done|].
    by rewrite app_assoc_s.
  - apply cut_None in E. unfold cut.
    rewrite span_app_clear by done. cbn [span]. rewrite Hx'.
    destruct (span (char_is ":") t) as [a [|y b]]; cbn [fst snd]; [done|].
    assert (F : forall_chars scheme_char (s +:+ String x a) = false).
    { rewrite forall_chars_app. cbn [forall_chars]. rewrite Hx.
      by rewrite andb_false_r. }
    destruct (s +:+ String x a) as [|c0 pre]; [done|].
    by rewrite F, andb_false_r.
Qed.

Lemma slashes_app_stop (s t : string) (x : ascii) :
  char_is "/" x = false ->
  startswith "//" (s +:+ String x t) = startswith "//" s.
Proof.
  unfold char_is. intros Hx. destruct s as [|a [|b s]].
  - rewrite sapp_nil_l. cbn [startswith]. by rewrite Hx.
  - rewrite !sapp_cons, sapp_nil_l. cbn [startswith].
    by rewrite Hx, !andb_false_r.
  - by rewrite !sapp_cons.
Qed.

Lemma drop2_app (s t : string) :
  startswith "//" s = true -> drop_chars 2 (s +:+ t) = drop_chars 2 s +:+ t.
Proof.
  destruct s as [|a [|b s]]; cbn [startswith]; rewrite ?andb_false_r; try done.
Qed.

Lemma split_netloc_app_stop (s t : string) (x : ascii) :
  char_is "/" x = false -> is_netloc_delim x = true ->
  split_netloc (s +:+ String x t) =
  ((split_netloc s).1, (split_netloc s).2 +:+ String x t).
Proof.
  intros Hx Hd. unfold split_netloc. rewrite slashes_app_stop by done.
  destruct (startswith "//" s) eqn:E; [|done].
  rewrite drop2_app by done. by apply span_app_stop.
Qed.

Lemma split_at_clear (c : ascii) (s : string) :
  forall_chars (fun x => negb (char_is c x)) s = true ->
  split_at c s = (s, "").
Proof. intros H. unfold split_at. apply cut_None in H. by rewrite H. Qed.

Lemma split_at_app (c : ascii) (s t : string) :
  forall_chars (fun x => negb (char_is c x)) s = true ->
  split_at c (s +:+ String c t) = (s, t).
Proof. intros H. unfold split_at. by rewrite cut_app. Qed.

Lemma normalize_url_fragment (u f : string) :
  exists_char (char_is "#") u = false ->
  normalize_url (u +:+ String "#" f) = normalize_url u.
Proof.
  intros Hu. apply exists_char_false in Hu.
  unfold normalize_url, urlparse.
  rewrite lstrip_app_stop by done.
  rewrite remove_chars_app.
  change (remove_chars is_unsafe (String "#" f))
    with (String "#" (remove_chars is_unsafe f)).
  set (s := remove_chars is_unsafe (lstrip_of is_c0_or_space u)).
  assert (Hs : forall_chars (fun x => negb (char_is "#" x)) s = true)
    by by apply forall_chars_remove, forall_chars_lstrip.
  rewrite split_scheme_app_stop by done.
  pose proof (forall_chars_split_scheme _ s Hs) as H1.
  destruct (split_scheme s) as [sch r1]. cbn [fst snd] in *.
  rewrite split_netloc_app_stop by done.
  pose proof (forall_chars_split_netloc _ r1 H1) as [_ H2].
  destruct (split_netloc r1) as [net r2]. cbn [fst snd] in *.
  destruct (invalid_netloc net); [done|].
  rewrite (split_at_app "#"), (split_at_clear "#" r2) by done.
  destruct (split_at "?" r2) as [r4 qry].
  destruct (string_in sch uses_params && exists_char (char_is ";") r4);
    [destruct (splitparams r4)|]; done.
Qed.

(** ** Parsing an assembled URL gives back its parts *)

Lemma alpha_not_c0 (c : ascii) : is_alpha c = true -> is_c0_or_space c = false.
Proof. all_chars c. Qed.

Lemma scheme_char_safe (c : ascii) : scheme_char c = true -> negb (is_unsafe c) = true.
Proof. all_chars c. Qed.

Lemma scheme_char_not_colon (c : ascii) :
  scheme_char c = true -> negb (char_is ":" c) = true.
Proof. all_chars c. Qed.

Lemma lower_char_alpha (c : ascii) : is_alpha (lower_char c) = is_alpha c.
Proof. apply caseless_alpha. Qed.

Lemma urlparse_assembled (c0 : ascii) (sch' net pth qry : string) :
  let sch := String c0 sch' in
  is_alpha c0 = true ->
  forall_chars scheme_char sch = true ->
  forall_chars (fun c => negb (is_netloc_delim c)) net = true ->
  invalid_netloc net = false ->
  stops (char_is "/") pth = true ->
  forall_chars (fun c => negb (char_is "?" c)) pth = true ->
  forall_chars (fun c => negb (char_is "#" c)) pth = true ->
  exists_char (char_is ";") pth = false ->
  forall_chars (fun c => negb (char_is "#" c)) qry = true ->
  forall_chars (fun c => negb (is_unsafe c)) net = true ->
  forall_chars (fun c => negb (is_unsafe c)) pth = true ->
  forall_chars (fun c => negb (is_unsafe c)) qry = true ->
  urlparse (sch +:+ "://" +:+ net +:+ pth +:+ query_suffix qry) =
  Ok {| scheme := lower sch; netloc := net; path := pth; params := "";
        query := qry; fragment := "" |}.
Proof.
  intros sch Ha Hsch Hnet Hbr Hroot Hpq Hpf Hsemi Hqf Un Up Uq.
  unfold urlparse.
  (* nothing to strip, nothing to remove *)
  assert (E1 : lstrip_of is_c0_or_space
                 (sch +:+ "://" +:+ net +:+ pth +:+ query_suffix qry)
               = sch +:+ "://" +:+ net +:+ pth +:+ query_suffix qry).
  { unfold sch. rewrite sapp_cons. cbn [lstrip_of]. by rewrite alpha_not_c0. }
  rewrite E1. clear E1.
  assert (Uqs : forall_chars (fun c => negb (is_unsafe c)) (query_suffix qry) = true).
  { unfold query_suffix. destruct (nonempty qry); [|done].
    cbn [forall_chars]. by rewrite Uq. }
  rewrite remove_chars_id.
  2:{ rewrite !forall_chars_app, Un, Up, Uqs.
      rewrite (forall_chars_impl _ _ _ scheme_char_safe Hsch). done. }
  (* the scheme *)
  assert (E2 : split_scheme (sch +:+ "://" +:+ net +:+ pth +:+ query_suffix qry)
               = (lower sch, "//" +:+ net +:+ pth +:+ query_suffix qry)).
  { unfold split_scheme.
    change ("://" +:+ net +:+ pth +:+ query_suffix qry)
      with (String ":" ("//" +:+ net +:+ pth +:+ query_suffix qry)).
    rewrite cut_app by exact (forall_chars_impl _ _ _ scheme_char_not_colon Hsch).
    unfold sch at 1 2. by rewrite Ha, Hsch. }
  rewrite E2. clear E2.
  (* the network location *)
  assert (E3 : split_netloc ("//" +:+ net +:+ pth +:+ query_suffix qry)
               = (net, pth +:+ query_suffix qry)).
  { unfold split_netloc.
    change ("//" +:+ net +:+ pth +:+ query_suffix qry)
      with (String "/" (String "/" (net +:+ pth +:+ query_suffix qry))).
    cbn [startswith drop_chars]. rewrite !Ascii.eqb_refl. cbn [andb].
    apply span_unique; [done|].
    destruct pth as [|c pth].
    - rewrite sapp_nil_l. unfold query_suffix. by destruct (nonempty qry).
    - rewrite sapp_cons. cbn [stops] in *. unfold is_netloc_delim.
      by rewrite Hroot. }
  rewrite E3, Hbr. clear E3.
  (* no fragment *)
  assert (Fqs : forall_chars (fun c => negb (char_is "#" c)) (query_suffix qry) = true).
  { unfold query_suffix. destruct (nonempty qry); [|done].
    cbn [forall_chars]. by rewrite Hqf. }
  rewrite (split_at_clear "#") by by rewrite forall_chars_app, Hpf, Fqs.
  (* the query *)
  assert (E4 : split_at "?" (pth +:+ query_suffix qry) = (pth, qry)).
  { unfold query_suffix. destruct qry as [|q qry]; cbn [nonempty].
    - rewrite sapp_nil_r. by apply split_at_clear.
    - by apply split_at_app. }
  rewrite E4, Hsemi, andb_false_r. done.
Qed.

(** ** The parts of a parsed URL *)

Lemma rcut_Some (c : ascii) (s x y : string) :
  rcut c s = Some (x, y) -> s = x +:+ String c y.
Proof.
  revert x y. induction s as [|a s IH]; intros x y; [done|]. simpl.
  destruct (rcut c s) as [[x' y']|].
  - intros [= <- <-]. rewrite sapp_cons. by rewrite (IH _ _ eq_refl).
  - destruct (char_is c a) eqn:E; [|done]. intros [= <- <-].
    apply Ascii.eqb_eq in E. by subst.
Qed.

Lemma splitparams_prefix (s : string) :
  exists z, s = (splitparams s).1 +:+ z.
Proof.
  unfold splitparams. destruct (rcut "/" s) as [[dir base]|] eqn:E.
  - apply rcut_Some in E as ->.
    destruct (cut ";" base) as [[a b]|] eqn:E2.
    + apply cut_Some in E2 as (-> & _). exists (String ";" b).
      cbn [fst]. by rewrite !app_assoc_s, !sapp_cons.
    + exists "". by rewrite sapp_nil_r.
  - unfold split_at. destruct (cut ";" s) as [[a b]|] eqn:E2.
    + apply cut_Some in E2 as (-> & _). by exists (String ";" b).
    + exists "". by rewrite sapp_nil_r.
Qed.

Lemma forall_chars_splitparams (P : ascii -> bool) (s : string) :
  forall_chars P s = true -> forall_chars P (splitparams s).1 = true.
Proof.
  intros H. destruct (splitparams_prefix s) as [z Hz].
  rewrite Hz, forall_chars_app in H. by apply andb_true_iff in H as [? _].
Qed.

Lemma stops_splitparams (s : string) :
  stops (char_is "/") s = true -> stops (char_is "/") (splitparams s).1 = true.
Proof.
  intros H. unfold splitparams.
  destruct (rcut "/" s) as [[dir base]|] eqn:E.
  - apply rcut_Some in E as ->.
    assert (G : stops (char_is "/") (dir +:+ String "/" base) = true ->
                forall a, stops (char_is "/") (dir +:+ String "/" a) = true).
    { destruct dir as [|d dir]; [done|]. intros G a. by rewrite sapp_cons in *. }
    destruct (cut ";" base) as [[a b]|]; cbn [fst]; [by apply G|done].
  - destruct (splitparams_prefix s) as [z Hz].
    unfold splitparams in Hz. rewrite E in Hz.
    destruct (split_at ";" s).1 as [|d x]; [done|].
    rewrite Hz in H. by rewrite sapp_cons in H.
Qed.

Lemma split_at_head (c d : ascii) (s : string) :
  char_is c d = false -> exists a, (split_at c (String d s)).1 = String d a.
Proof.
  intros H. unfold split_at, cut. cbn [span]. rewrite H.
  destruct (span (char_is c) s) as [a [|x b]]; cbn [fst]; eauto.
Qed.

Lemma split_at_hit (c : ascii) (s : string) :
  (split_at c (String c s)).1 = "".
Proof.
  unfold split_at, cut. cbn [span]. unfold char_is at 1.
  by rewrite Ascii.eqb_refl.
Qed.

Lemma path_after_netloc (s : string) :
  stops is_netloc_delim s = true ->
  stops (char_is "/") (split_at "?" (split_at "#" s).1).1 = true.
Proof.
  destruct s as [|d s]; [done|]. cbn [stops]. unfold is_netloc_delim.
  intros H.
  destruct (char_is "#" d) eqn:E1.
  { apply Ascii.eqb_eq in E1 as <-. by rewrite split_at_hit. }
  destruct (split_at_head "#" d s E1) as [a ->].
  destruct (char_is "?" d) eqn:E2.
  { apply Ascii.eqb_eq in E2 as <-. by rewrite split_at_hit. }
  destruct (split_at_head "?" d a E2) as [b ->].
  cbn [stops]. by rewrite !orb_false_r in H.
Qed.

Lemma remove_chars_clear (p : ascii -> bool) (s : string) :
  forall_chars (fun c => negb (p c)) (remove_chars p s) = true.
Proof.
  induction s as [|c s IH]; [done|]. simpl.
  destruct (p c) eqn:E; [done|]. simpl. by rewrite E.
Qed.

Lemma split_scheme_shape (s : string) :
  (split_scheme s).1 = "" \/
  exists c0 s', (split_scheme s).1 = String c0 s' /\ is_alpha c0 = true /\
                forall_chars scheme_char (split_scheme s).1 = true.
Proof.
  unfold split_scheme.
  destruct (cut ":" s) as [[[|c0 pre] rest]|]; try by left.
  destruct (is_alpha c0 && _) eqn:E; [|by left].
  apply andb_true_iff in E as [Ha Hs]. right.
  exists (lower_char c0), (lower pre). cbn [fst lower]. split; [done|].
  split; [by rewrite lower_char_alpha|].
  change (String (lower_char c0) (lower pre)) with (lower (String c0 pre)).
  by rewrite forall_chars_lower by apply caseless_scheme_char.
Qed.

Lemma urlparse_parts (u : string) (p : ParseResult) :
  urlparse u = Ok p -> parts_ok p.
Proof.
  unfold urlparse.
  set (s := remove_chars is_unsafe (lstrip_of is_c0_or_space u)).
  pose proof (remove_chars_clear is_unsafe (lstrip_of is_c0_or_space u)) as Us.
  fold s in Us.
  pose proof (split_scheme_lowered s) as L1.
  pose proof (split_scheme_shape s) as L2.
  pose proof (forall_chars_split_scheme _ s Us) as U1.
  destruct (split_scheme s) as [sch r1]. cbn [fst snd] in *.
  pose proof (forall_chars_split_netloc _ r1 U1) as [Un U2].
  assert (N : forall_chars (fun c => negb (is_netloc_delim c)) (split_netloc r1).1 = true
              /\ ((split_netloc r1).1 <> "" -> stops is_netloc_delim (split_netloc r1).2 = true)).
  { unfold split_netloc. destruct (startswith "//" r1); [|done].
    destruct (span is_netloc_delim (drop_chars 2 r1)) as [a b] eqn:E.
    by apply span_spec in E as (_ & ? & ?). }
  destruct N as [N1 N2].
  destruct (split_netloc r1) as [net r2]. cbn [fst snd] in *.
  destruct (invalid_netloc net) eqn:B; [done|].
  pose proof (forall_chars_split_at _ "#" r2 U2) as [U3 _].
  assert (F3 : forall_chars (fun c => negb (char_is "#" c)) (split_at "#" r2).1 = true).
  { unfold split_at. destruct (cut "#" r2) as [[a b]|] eqn:E.
    - by apply cut_Some in E as [_ ?].
    - by apply cut_None in E. }
  assert (R : net <> "" -> stops (char_is "/") (split_at "?" (split_at "#" r2).1).1 = true).
  { intros Hn. by apply path_after_netloc, N2. }
  destruct (split_at "#" r2) as [r3 frag]. cbn [fst snd] in *.
  pose proof (forall_chars_split_at _ "?" r3 U3) as [U4 Uq].
  pose proof (forall_chars_split_at _ "?" r3 F3) as [F4 Fq].
  assert (Q4 : forall_chars (fun c => negb (char_is "?" c)) (split_at "?" r3).1 = true).
  { unfold split_at. destruct (cut "?" r3) as [[a b]|] eqn:E.
    - by apply cut_Some in E as [_ ?].
    - by apply cut_None in E. }
  destruct (split_at "?" r3) as [r4 qry]. cbn [fst snd] in *.
  destruct (string_in sch uses_params && exists_char (char_is ";") r4).
  - pose proof (forall_chars_splitparams _ r4 U4).
    pose proof (forall_chars_splitparams _ r4 F4).
    pose proof (forall_chars_splitparams _ r4 Q4).
    pose proof (stops_splitparams r4) as SP.
    destruct (splitparams r4) as [r5 prm]. cbn [fst snd] in *.
    intros [= <-]. split; cbn; auto.
  - intros [= <-]. split; cbn; auto.
Qed.

(** ** Normalising twice *)

Lemma rstrip_head (p : ascii -> bool) (c : ascii) (s : string) :
  rstrip_of p (String c s) = "" \/ exists r, rstrip_of p (String c s) = String c r.
Proof.
  cbn [rstrip_of]. destruct (rstrip_of p s); [destruct (p c)|]; eauto.
Qed.

Lemma stops_rstrip (p q : ascii -> bool) (s : string) :
  stops q s = true -> stops q (rstrip_of p s) = true.
Proof.
  destruct s as [|c s]; [done|]. intros H.
  destruct (rstrip_head p c s) as [->|[r ->]]; done.
Qed.

Lemma rstrip_cons (p : ascii -> bool) (c : ascii) (s : string) :
  rstrip_of p (String c s) =
  match rstrip_of p s with
  | "" => if p c then "" else String c ""
  | r => String c r
  end.
Proof. reflexivity. Qed.

Lemma rstrip_idem (p : ascii -> bool) (s : string) :
  rstrip_of p (rstrip_of p s) = rstrip_of p s.
Proof.
  induction s as [|c s IH]; [done|]. rewrite (rstrip_cons p c s).
  destruct (rstrip_of p s) as [|c' r] eqn:E.
  - destruct (p c) eqn:Hc; [done|]. rewrite rstrip_cons. cbn [rstrip_of].
    by rewrite Hc.
  - rewrite rstrip_cons, IH. done.
Qed.

Lemma stops_lower (p : ascii -> bool) (s : string) :
  caseless p -> stops p (lower s) = stops p s.
Proof. intros H. destruct s; [done|]. apply H. Qed.

Lemma assembled (sch net pth qry : string) :
  (if nonempty qry then (sch +:+ "://" +:+ net +:+ pth) +:+ "?" +:+ qry
   else sch +:+ "://" +:+ net +:+ pth)
  = sch +:+ "://" +:+ net +:+ pth +:+ query_suffix qry.
Proof.
  unfold query_suffix. destruct (nonempty qry).
  - by rewrite !app_assoc_s.
  - by rewrite sapp_nil_r.
Qed.

Lemma lower_assembled (sch net pth qry : string) :
  lower (sch +:+ "://" +:+ net +:+ pth +:+ query_suffix qry)
  = lower sch +:+ "://" +:+ lower net +:+ lower pth +:+ query_suffix (lower qry).
Proof.
  rewrite !lower_app. unfold query_suffix. rewrite nonempty_lower.
  by destruct (nonempty qry).
Qed.

Lemma normalize_url_idempotent (u : string) (p : ParseResult) :
  urlparse u = Ok p ->
  scheme p <> "" -> netloc p <> "" ->
  exists_char (char_is ";") (path p) = false ->
  exists v, normalize_url u = Ok v /\ normalize_url v = Ok v.
Proof.
  intros Hp Hs Hn Hsemi.
  destruct (urlparse_parts u p Hp)
    as [L Sh Nd Nb Pr Pq Pf Qf Un Up Uq].
  destruct Sh as [?|(c0 & s' & Esch & Ha & Hsc)]; [done|].
  specialize (Pr Hn).
  set (rp := rstrip_of (char_is "/") (path p)).
  exists (scheme p +:+ "://" +:+ lower (netloc p) +:+ lower rp +:+
          query_suffix (lower (query p))).
  assert (E : normalize_url u =
    Ok (scheme p +:+ "://" +:+ lower (netloc p) +:+ lower rp +:+
        query_suffix (lower (query p)))).
  { unfold normalize_url. rewrite Hp. cbn [mbind result_bind].
    rewrite assembled, lower_assembled. by rewrite L. }
  split; [exact E|].
  unfold normalize_url.
  assert (C1 : caseless (fun c => negb (char_is "?" c)))
    by by apply caseless_negb, caseless_char_is.
  assert (C2 : caseless (fun c => negb (char_is "#" c)))
    by by apply caseless_negb, caseless_char_is.
  assert (C3 : caseless (fun c => negb (is_unsafe c)))
    by apply caseless_negb, caseless_unsafe.
  rewrite Esch in *.
  rewrite (urlparse_assembled c0 s' (lower (netloc p)) (lower rp) (lower (query p)));
    try done.
  - cbn [mbind result_bind scheme netloc path query].
    rewrite assembled, lower_assembled.
    rewrite rstrip_lower by by apply caseless_char_is.
    unfold rp. by rewrite rstrip_idem, !lower_idem, L.
  - rewrite forall_chars_lower; [done|]. apply caseless_negb, caseless_delim.
  - by apply invalid_netloc_lower.
  - rewrite stops_lower by by apply caseless_char_is.
    by apply stops_rstrip.
  - rewrite forall_chars_lower by done. by apply forall_chars_rstrip.
  - rewrite forall_chars_lower by done. by apply forall_chars_rstrip.
  - rewrite exists_char_lower by by apply caseless_char_is.
    apply exists_char_false, forall_chars_rstrip. by apply exists_char_false.
  - by rewrite forall_chars_lower.
  - by rewrite forall_chars_lower.
  - rewrite forall_chars_lower by done. by apply forall_chars_rstrip.
  - by rewrite forall_chars_lower.
Qed.

(** ** A trailing slash on the path *)

Lemma urlparse_unfold (u : string) :
  urlparse u =
  let s := remove_chars is_unsafe (lstrip_of is_c0_or_space u) in
  parse_rest (split_scheme s).1 (split_netloc (split_scheme s).2).1
    (split_netloc (split_scheme s).2).2.
Proof.
  unfold urlparse, parse_rest. cbv zeta.
  destruct (split_scheme _) as [sch r1]. cbn [fst snd].
  by destruct (split_netloc r1) as [net r2].
Qed.

Lemma split_at_app_clear (c : ascii) (x r : string) :
  forall_chars (fun a => negb (char_is c a)) x = true ->
  split_at c (x +:+ r) = (x +:+ (split_at c r).1, (split_at c r).2).
Proof.
  intros Hx. unfold split_at, cut. rewrite span_app_clear by done.
  destruct (span (char_is c) r) as [a [|y b]] eqn:E; cbn [fst snd]; [|done].
  apply span_spec in E as (-> & _ & _). by rewrite sapp_nil_r.
Qed.

Lemma no_path_in_tail (r : string) :
  stops is_query_or_fragment r = true ->
  (split_at "?" (split_at "#" r).1).1 = "".
Proof.
  destruct r as [|d r]; [done|]. cbn [stops]. unfold is_query_or_fragment.
  intros H.
  destruct (char_is "#" d) eqn:E1.
  { apply Ascii.eqb_eq in E1 as <-. by rewrite split_at_hit. }
  destruct (split_at_head "#" d r E1) as [a ->].
  rewrite orb_false_r in H. apply Ascii.eqb_eq in H as <-.
  by rewrite split_at_hit.
Qed.

(** Two texts before the same query and fragment, alike up to trailing
    slashes, give the same normalised URL. *)
Lemma normalized_rest (sch net x x' r : string) :
  forall_chars (fun a => negb (char_is "#" a)) x = true ->
  forall_chars (fun a => negb (char_is "?" a)) x = true ->
  exists_char (char_is ";") x = false ->
  forall_chars (fun a => negb (char_is "#" a)) x' = true ->
  forall_chars (fun a => negb (char_is "?" a)) x' = true ->
  exists_char (char_is ";") x' = false ->
  rstrip_of (char_is "/") x = rstrip_of (char_is "/") x' ->
  stops is_query_or_fragment r = true ->
  (parsed ← parse_rest sch net (x +:+ r);
   Ok (rstrip_of (char_is "/") (path parsed), query parsed)) =
  (parsed ← parse_rest sch net (x' +:+ r);
   Ok (rstrip_of (char_is "/") (path parsed), query parsed)).
Proof.
  intros F Q S F' Q' S' E Hr. unfold parse_rest.
  destruct (invalid_netloc net); [done|].
  rewrite !(split_at_app_clear "#") by done.
  destruct (split_at "#" r) as [r' frag] eqn:E1. cbn [fst snd].
  rewrite !(split_at_app_clear "?") by done.
  pose proof (no_path_in_tail r Hr) as T. rewrite E1 in T. cbn [fst] in T.
  rewrite T, !sapp_nil_r, S, S', !andb_false_r.
  cbn. by rewrite E.
Qed.

Lemma normalize_url_rest (u : string) :
  normalize_url u =
  let s := remove_chars is_unsafe (lstrip_of is_c0_or_space u) in
  pq ← (parsed ← parse_rest (split_scheme s).1 (split_netloc (split_scheme s).2).1
                    (split_netloc (split_scheme s).2).2;
        Ok (rstrip_of (char_is "/") (path parsed), query parsed));
  Ok (lower (
    let normalized :=
      (split_scheme s).1 +:+ "://" +:+ (split_netloc (split_scheme s).2).1 +:+ pq.1 in
    if nonempty pq.2 then normalized +:+ "?" +:+ pq.2 else normalized)).
Proof.
  unfold normalize_url. rewrite urlparse_unfold. cbv zeta.
  unfold parse_rest.
  destruct (invalid_netloc _); [done|].
  destruct (split_at "#" _) as [r3 frag].
  destruct (split_at "?" r3) as [r4 qry].
  destruct (string_in _ uses_params && exists_char (char_is ";") r4);
    [by destruct (splitparams r4)|done].
Qed.

Lemma rstrip_app_hit (p : ascii -> bool) (c : ascii) (s : string) :
  p c = true -> rstrip_of p (s +:+ String c "") = rstrip_of p s.
Proof.
  intros Hc. induction s as [|a s IH].
  - rewrite sapp_nil_l. cbn [rstrip_of]. by rewrite Hc.
  - rewrite sapp_cons, !rstrip_cons. by rewrite IH.
Qed.

Lemma span_stops (p : ascii -> bool) (s : string) :
  stops p s = true -> span p s = ("", s).
Proof. destruct s as [|c s]; [done|]. cbn [stops span]. by intros ->. Qed.

Lemma stops_remove (r : string) :
  stops is_query_or_fragment r = true ->
  stops is_query_or_fragment (remove_chars is_unsafe r) = true.
Proof.
  destruct r as [|c r]; [done|]. cbn [stops remove_chars].
  intros H. replace (is_unsafe c) with false; [done|].
  revert H. all_chars c.
Qed.

Lemma stops_query_or_fragment (r : string) :
  stops is_query_or_fragment r = true ->
  r = "" \/ exists x t, r = String x t /\ scheme_char x = false /\
    char_is ":" x = false /\ char_is "/" x = false /\
    is_netloc_delim x = true /\ is_c0_or_space x = false.
Proof.
  destruct r as [|x t]; [by left|]. cbn [stops]. intros H. right.
  exists x, t. split; [done|]. revert H. all_chars x; done.
Qed.

Lemma split_scheme_app_tail (b r : string) :
  stops is_query_or_fragment r = true ->
  split_scheme (b +:+ r) = ((split_scheme b).1, (split_scheme b).2 +:+ r).
Proof.
  intros [->|(x & t & -> & H1 & H2 & _)]%stops_query_or_fragment.
  - rewrite !sapp_nil_r. by destruct (split_scheme b).
  - by apply split_scheme_app_stop.
Qed.

Lemma lstrip_app_tail (b r : string) :
  stops is_query_or_fragment r = true ->
  lstrip_of is_c0_or_space (b +:+ r) = lstrip_of is_c0_or_space b +:+ r.
Proof.
  intros [->|(x & t & -> & _ & _ & _ & _ & H)]%stops_query_or_fragment.
  - by rewrite !sapp_nil_r.
  - apply lstrip_app_stop; [|done]. cbn [stops]. by rewrite H.
Qed.

Lemma no_slash_start (r : string) :
  stops is_query_or_fragment r = true -> startswith "/" r = false.
Proof.
  intros [->|(x & t & -> & _ & _ & H & _)]%stops_query_or_fragment; [done|].
  cbn [startswith]. unfold char_is in H. by rewrite H.
Qed.

Lemma stops_delim (r : string) :
  stops is_query_or_fragment r = true -> stops is_netloc_delim r = true.
Proof.
  intros [->|(x & t & -> & _ & _ & _ & H & _)]%stops_query_or_fragment; done.
Qed.

Lemma startswith_app (p s t : string) :
  startswith p s = true -> startswith p (s +:+ t) = true.
Proof.
  revert s. induction p as [|a p IH]; intros s; [done|].
  destruct s as [|b s]; [done|]. rewrite sapp_cons. cbn [startswith].
  intros [-> H]%andb_true_iff. rewrite (IH _ H). done.
Qed.

Lemma startswith_cons (a b : ascii) (p s : string) :
  startswith (String a p) (String b s) = Ascii.eqb a b && startswith p s.
Proof. reflexivity. Qed.

Ltac slash_parts :=
  repeat split; intros; cbn [forall_chars] in *;
  rewrite ?andb_true_r in *;
  repeat match goal with H : _ = true |- _ => rewrite H end;
  try reflexivity.

Lemma split_netloc_slash (r1 r : string) :
  stops is_query_or_fragment r = true ->
  exists net x x',
    split_netloc (r1 +:+ String "/" r) = (net, x +:+ r) /\
    split_netloc (r1 +:+ r) = (net, x' +:+ r) /\
    rstrip_of (char_is "/") x = rstrip_of (char_is "/") x' /\
    forall P : ascii -> bool,
      P "/"%char = true -> forall_chars P r1 = true ->
      forall_chars P x = true /\ forall_chars P x' = true.
Proof.
  intros Hr. pose proof (no_slash_start r Hr) as Hns.
  unfold split_netloc.
  destruct (startswith "//" r1) eqn:E.
  - (* the network location is in [r1] *)
    rewrite !startswith_app, !drop2_app by done.
    rewrite (span_app_stop _ _ (String "/" r)) by reflexivity.
    rewrite (span_app_stop _ _ r) by by apply stops_delim.
    pose proof (fun P => forall_chars_span P is_netloc_delim (drop_chars 2 r1)) as HP.
    destruct (span is_netloc_delim (drop_chars 2 r1)) as [a b]. cbn [fst snd] in *.
    exists a, (b +:+ String "/" ""), b. split; [by rewrite app_assoc_s|].
    split; [done|]. split; [by apply rstrip_app_hit|].
    intros P Hs H1. destruct (HP P) as [_ Hb]; [by apply forall_chars_drop|].
    rewrite forall_chars_app, Hb. cbn [forall_chars]. by rewrite Hs.
  - destruct r1 as [|a [|b t]].
    + (* no text before the slash *)
      rewrite !sapp_nil_l, startswith_cons, Hns, andb_false_r.
      replace (startswith "//" r) with false.
      * exists "", (String "/" ""), "". slash_parts.
      * destruct r as [|c r]; [done|]. rewrite startswith_cons.
        rewrite startswith_cons in Hns. apply andb_false_iff in Hns as [->|?]; done.
    + rewrite !sapp_cons, !sapp_nil_l, !startswith_cons, Hns, !andb_false_r.
      destruct (Ascii.eqb "/" a) eqn:A; cbn [andb drop_chars].
      * (* the text is a single slash *)
        apply Ascii.eqb_eq in A as <-.
        rewrite span_stops by by apply stops_delim.
        exists "", "", (String "/" ""). slash_parts.
      * exists "", (String a (String "/" "")), (String a "").
        split; [done|]. split; [done|]. split; [|slash_parts].
        cbn [rstrip_of]. unfold char_is. by rewrite Ascii.eqb_refl.
    + rewrite !sapp_cons. rewrite !startswith_cons in *.
      change (startswith "" (t +:+ String "/" r)) with true.
      change (startswith "" (t +:+ r)) with true.
      change (startswith "" t) with true in E.
      rewrite E.
      exists "", (String a (String b t) +:+ String "/" ""), (String a (String b t)).
      split; [by rewrite app_assoc_s, !sapp_cons|]. split; [done|].
      split; [by apply rstrip_app_hit|].
      intros P Hs H1. rewrite forall_chars_app, H1. cbn [forall_chars].
      by rewrite Hs.
Qed.

Lemma normalize_url_trailing_slash (base rest : string) :
  exists_char (char_is "?") base = false ->
  exists_char (char_is "#") base = false ->
  exists_char (char_is ";") base = false ->
  stops is_query_or_fragment rest = true ->
  normalize_url (base +:+ String "/" rest) = normalize_url (base +:+ rest).
Proof.
  intros Q F S Hr.
  apply exists_char_false in Q, F, S.
  rewrite !normalize_url_rest. cbv zeta.
  rewrite lstrip_app_stop by done.
  rewrite lstrip_app_tail by done.
  rewrite !remove_chars_app.
  change (remove_chars is_unsafe (String "/" rest))
    with (String "/" (remove_chars is_unsafe rest)).
  apply stops_remove in Hr.
  set (r := remove_chars is_unsafe rest) in *.
  set (b := remove_chars is_unsafe (lstrip_of is_c0_or_space base)).
  assert (Qb : forall_chars (fun a => negb (char_is "?" a)) b = true)
    by by apply forall_chars_remove, forall_chars_lstrip.
  assert (Fb : forall_chars (fun a => negb (char_is "#" a)) b = true)
    by by apply forall_chars_remove, forall_chars_lstrip.
  assert (Sb : forall_chars (fun a => negb (char_is ";" a)) b = true)
    by by apply forall_chars_remove, forall_chars_lstrip.
  rewrite split_scheme_app_stop by done.
  rewrite split_scheme_app_tail by done.
  apply forall_chars_split_scheme in Qb, Fb, Sb.
  destruct (split_scheme b) as [sch r1]. cbn [fst snd] in *.
  destruct (split_netloc_slash r1 r Hr) as (net & x & x' & -> & -> & Ex & HP).
  cbn [fst snd].
  destruct (HP _ eq_refl Qb) as [Q1 Q2].
  destruct (HP _ eq_refl Fb) as [F1 F2].
  destruct (HP _ eq_refl Sb) as [S1 S2].
  apply exists_char_false in S1, S2.
  by rewrite (normalized_rest sch net x x' r).
Qed.

(** ** Normalisation: the statements of the specification *)


(** Nor is a URL whose last path segment carries parameters once the
    trailing slash is gone. *)
Lemma normalize_url_params_not_idempotent :
  normalize_url "http://a/b;e/" = Ok "http://a/b;e" /\
  normalize_url "http://a/b;e" = Ok "http://a/b".
Proof. vm_compute. by split. Qed.

(** Letter case does matter inside square brackets: the library takes
    an IPvFuture literal by its small letter v only. *)
Lemma normalize_url_case_in_brackets :
  lower "http://[V1.x]/a" = lower "http://[v1.x]/a" /\
  normalize_url "http://[V1.x]/a" = Raise ValueError /\
  normalize_url "http://[v1.x]/a" = Ok "http://[v1.x]/a".
Proof. vm_compute. by repeat split. Qed.



(** ** Discovery: the failure policy *)

(** C4, as stated, fails: the fatal condition is raised although not
    every strategy fails to reach a page; the sitemap strategy, had it
    been run, would have produced one. *)
Lemma site_blocked_despite_sitemap :
  discover_all_pages blocked_world ducati_engine = Raise site_blocked /\
  strategy_urls blocked_world ducati_engine Sitemap
    = ["https://www.ducati.com/ww/en/bikes/monster"].
Proof. vm_compute. by split. Qed.

Lemma navigate_entry_existsb (w : World) (urls : list string) :
  navigate_entry w urls = existsb (fun url => attempt_ok (goto w url)) urls.
Proof.
  induction urls as [|url rest IH]; [done|]. simpl. rewrite IH.
  by destruct (attempt_ok (goto w url)).
Qed.

Lemma yield_new_nil (st : Engine * list string) :
  (yield_new [] st).2 = st.2.
Proof. destruct st as [eng y]. simpl. apply app_nil_r. Qed.

Lemma discover_runs (w : World) (eng : Engine) :
  page eng = true ->
  navigate_entry w (urls_to_try (load_state w eng)) = true ->
  exists st, discover_all_pages w eng = Ok st.
Proof.
  intros Hp Hn. unfold discover_all_pages. rewrite Hp, Hn. simpl. eauto.
Qed.

(** C4, amended. With the browser initialised, the fatal condition is
    raised exactly when none of the four entry URLs can be loaded, which
    is settled before any strategy runs.  Once an entry URL loads the run
    ends normally whatever the strategies do: a strategy that is
    interrupted or finds nothing contributes no URL, and a run in which
    every strategy finds nothing yields nothing and raises nothing. *)
Theorem discovery_failure_policy (w : World) (eng : Engine) :
  page eng = true ->
  let entry := urls_to_try (load_state w eng) in
  (discover_all_pages w eng = Raise site_blocked <->
   forall url, In url entry -> attempt_ok (goto w url) = false) /\
  ((exists url, In url entry /\ attempt_ok (goto w url) = true) ->
   exists st, discover_all_pages w eng = Ok st) /\
  ((exists url, In url entry /\ attempt_ok (goto w url) = true) ->
   (forall s, strategy_urls w (load_state w eng) s = []) ->
   exists eng', discover_all_pages w eng = Ok (eng', [])).
Proof.
  intros Hp entry.
  assert (Hex : navigate_entry w entry = true <->
                exists url, In url entry /\ attempt_ok (goto w url) = true).
  { rewrite navigate_entry_existsb. apply existsb_exists. }
  split; [|split].
  - unfold discover_all_pages. rewrite Hp. cbn [negb]. fold entry.
    destruct Hex as [Hex1 Hex2].
    destruct (navigate_entry w entry); cbn [negb].
    + split; [done|]. intros H.
      destruct (Hex1 eq_refl) as (url & Hin & Hok).
      rewrite (H url Hin) in Hok. done.
    + split; [|done]. intros _ url Hin.
      destruct (attempt_ok (goto w url)) eqn:Hok; [|done].
      assert (false = true) by (apply Hex2; eauto). done.
  - intros H. apply discover_runs; [done|]. by apply Hex.
  - intros H Hnone. apply Hex in H.
    unfold discover_all_pages. rewrite Hp. cbn [negb]. fold entry. rewrite H.
    cbn [negb].
    pose proof (Hnone Sitemap) as H1. pose proof (Hnone HamburgerMenu) as H2.
    pose proof (Hnone HeritageBikes) as H3. pose proof (Hnone Dropdown) as H4.
    pose proof (Hnone Search) as H5. pose proof (Hnone LinkFollowing) as H7.
    cbn [strategy_urls] in *. rewrite H1, H2, H3, H4, H5, H7.
    match goal with |- exists eng', Ok ?st = _ =>
      exists st.1; assert (E : st.2 = []); [|destruct st; simpl in E; by subst] end.
    rewrite yield_new_nil.
    match goal with |- (if ?b then ?x else ?y).2 = _ =>
      assert (E5 : x.2 = []) by (by rewrite !yield_new_nil);
      destruct b; [done|] end.
    pose proof (Hnone (FollowLinks (take 20 (elements (discovered_urls
      (yield_new [] (yield_new [] (yield_new [] (yield_new []
        (yield_new [] (load_state w eng, [])))))).1))))) as H6.
    cbn [strategy_urls] in H6. rewrite H6. by rewrite yield_new_nil.
Qed.

Lemma discovery_failure_policy_witness :
  exists eng',
    discover_all_pages
      {| state_file := NoStateFile;
         goto := fun url =>
           if String.eqb url "https://www.ducati.com" then NavLoaded (Some 200%Z) "Ducati" "<html>"
           else NavRaised;
         sitemap_get := fun _ => FetchRaised;
         hamburger_menu := Interrupted [];
         heritage_bikes := Interrupted [];
         dropdown := Interrupted [];
         search := Interrupted [];
         follow_links_from_pages := fun _ => Interrupted [];
         link_following := Interrupted [] |}
      ducati_engine = Ok (eng', []).
Proof.
  apply discovery_failure_policy; [reflexivity| |].
  - exists "https://www.ducati.com". split; [|reflexivity].
    simpl. tauto.
  - intros []; reflexivity.
Defined.

(** ** Image downloader: deduplication by content *)

Section DownloaderFacts.

Variable sha256_hexdigest : list Byte.byte -> string.

Lemma download_known_hash (d : ImageDownloader) (files : Files)
    (url manufacturer model : string) (year index : Z)
    (status : Z) (image_data : list Byte.byte) (disk : Disk) :
  sha256_hexdigest image_data ∈ image_hashes d ->
  download_image sha256_hexdigest d files url manufacturer model year index
    (Response status (Some image_data)) disk = (None, d, files).
Proof.
  intros H. unfold download_image.
  destruct (negb (status =? 200)%Z); [done|].
  by rewrite bool_decide_eq_true_2.
Qed.

Lemma step_keeps_inv (st : ImageDownloader * Files) (c : Call) :
  dedup_inv sha256_hexdigest st ->
  dedup_inv sha256_hexdigest ((step sha256_hexdigest st c).1.2, (step sha256_hexdigest st c).2).
Proof.
  destruct st as [d files]. intros [Hnd Hin].
  unfold step, download_image. cbn [fst snd].
  destruct (call_get c) as [|status [image_data|]]; [done| |].
  2:{ by destruct (negb (status =? 200)%Z). }
  destruct (negb (status =? 200)%Z); [done|].
  case_bool_decide as Hh; [done|].
  assert (Hd : dedup_inv sha256_hexdigest (add_hash d (sha256_hexdigest image_data), files)).
  { split; [done|]. intros h Hh'. cbn. apply elem_of_union_l. by apply Hin. }
  assert (Hw : forall p,
    dedup_inv sha256_hexdigest (add_hash d (sha256_hexdigest image_data),
               files ++ [(p, image_data)])).
  { intros p. split; cbn [fst snd].
    - unfold written_hashes. rewrite map_app. cbn [map snd].
      apply NoDup_app. split; [done|]. split; [|apply NoDup_singleton].
      intros h Hh' ->%list_elem_of_singleton.
      apply Hh, Hin. by apply list_elem_of_In.
    - intros h. unfold written_hashes. rewrite map_app, in_app_iff.
      cbn. intros [Hh'|[<-|[]]].
      + apply elem_of_union_l. by apply Hin.
      + apply elem_of_union_r. by apply elem_of_singleton. }
  destruct (call_disk c); cbn [fst snd]; auto.
Qed.

Lemma run_keeps_inv (calls : list Call) (st : ImageDownloader * Files) :
  dedup_inv sha256_hexdigest st -> dedup_inv sha256_hexdigest (run sha256_hexdigest st calls).
Proof.
  revert st. induction calls as [|c calls IH]; intros st H; [done|].
  unfold run. cbn [fold_left]. apply IH.
  pose proof (step_keeps_inv st c H) as H'.
  by destruct (step sha256_hexdigest st c) as [[o d] files].
Qed.

(** C3. In a run started on a new downloader, whatever the calls and
    the answers of the network and the disk: no two files written hold
    contents of the same hash, and a further call whose fetched bytes
    hash to a member of the hash set writes no file and returns no
    path. *)
Theorem download_dedup (base : string) (calls : list Call) :
  let st := run sha256_hexdigest (new_downloader base, []) calls in
  (forall i j p q data data',
     st.2 !! i = Some (p, data) -> st.2 !! j = Some (q, data') ->
     sha256_hexdigest data = sha256_hexdigest data' -> i = j) /\
  (forall url manufacturer model year index status image_data disk,
     sha256_hexdigest image_data ∈ image_hashes st.1 ->
     download_image sha256_hexdigest st.1 st.2 url manufacturer model
       year index (Response status (Some image_data)) disk
     = (None, st.1, st.2)).
Proof.
  intros st.
  assert (H : dedup_inv sha256_hexdigest st).
  { apply run_keeps_inv. split; cbn; [apply NoDup_nil_2|done]. }
  split.
  - intros i j p q data data' Hi Hj E.
    destruct H as [Hnd _]. eapply NoDup_lookup; [exact Hnd| |].
    + unfold written_hashes. rewrite list_lookup_fmap, Hi. reflexivity.
    + unfold written_hashes. rewrite list_lookup_fmap, Hj. cbn. by rewrite E.
  - intros. by apply download_known_hash.
Qed.

End DownloaderFacts.

Lemma download_dedup_witness :
  let st := run toy_digest (new_downloader "images", []) two_downloads in
  download_image toy_digest st.1 st.2 "https://cdn/copy.png" "Ducati" "Monster"
    2024 2 (Response 200 (Some [Byte.x89; Byte.x50])) DiskOk
  = (None, st.1, st.2).
Proof.
  apply (download_dedup toy_digest "images" two_downloads).
  vm_compute. reflexivity.
Defined.

(** ** The store *)

Lemma get_set_group (c : SpecClass) (r : option positive) (s : BikeSpecifications) :
  get_group c (set_group c r s) = r.
Proof. by destruct c. Qed.

Lemma get_set_group_ne (c c' : SpecClass) (r : option positive)
    (s : BikeSpecifications) :
  c <> c' -> get_group c' (set_group c r s) = get_group c' s.
Proof. by destruct c, c'. Qed.

Lemma setattr_lookup_ne (h : Store) (c : SpecClass) (l : positive) (f : string)
    (v : value) (k : SpecClass * positive) :
  k <> (c, l) -> setattr h c l f v !! k = h !! k.
Proof. intros H. unfold setattr. by rewrite lookup_alter_ne. Qed.

Lemma setattr_is_Some (h : Store) (c : SpecClass) (l : positive) (f : string)
    (v : value) (k : SpecClass * positive) :
  is_Some (setattr h c l f v !! k) <-> is_Some (h !! k).
Proof.
  unfold setattr. destruct (decide (k = (c, l))) as [->|Hne].
  - rewrite lookup_alter_eq. by rewrite fmap_is_Some.
  - by rewrite lookup_alter_ne.
Qed.

Lemma getattr_setattr_eq (h : Store) (c : SpecClass) (l : positive) (f : string)
    (v : value) :
  is_Some (h !! (c, l)) -> getattr (setattr h c l f v) c l f = Some v.
Proof.
  intros [attrs Ha]. unfold getattr, setattr.
  rewrite lookup_alter_eq, Ha. cbn. apply lookup_insert_eq.
Qed.

Lemma getattr_setattr_ne (h : Store) (c c' : SpecClass) (l l' : positive)
    (f f' : string) (v : value) :
  (c, l, f) <> (c', l', f') ->
  getattr (setattr h c l f v) c' l' f' = getattr h c' l' f'.
Proof.
  intros Hne. unfold getattr, setattr.
  destruct (decide ((c', l') = (c, l))) as [[= -> ->]|Hk].
  - rewrite lookup_alter_eq. destruct (h !! (c, l)) as [attrs|]; [|done]. cbn.
    apply lookup_insert_ne. congruence.
  - by rewrite lookup_alter_ne.
Qed.

Lemma store_le_refl (h : Store) : store_le h h.
Proof. by intros c l f v. Qed.

Lemma store_le_trans (h1 h2 h3 : Store) :
  store_le h1 h2 -> store_le h2 h3 -> store_le h1 h3.
Proof. intros H1 H2 c l f v H. by apply H2, H1. Qed.

Lemma fill_field_le (c : SpecClass) (l1 l2 : positive) (h : Store) (f : string) :
  store_le h (fill_field c l1 l2 h f).
Proof.
  intros c' l' f' v H. unfold fill_field.
  destruct (getattr h c l1 f) as [v1|] eqn:E1; [done|].
  destruct (getattr h c l2 f) as [v2|] eqn:E2; [|done].
  rewrite getattr_setattr_ne; [done|]. intros [= -> -> ->]. congruence.
Qed.

Lemma fill_field_lookup_ne (c : SpecClass) (l1 l2 : positive) (h : Store)
    (f : string) (k : SpecClass * positive) :
  k <> (c, l1) -> fill_field c l1 l2 h f !! k = h !! k.
Proof.
  intros Hk. unfold fill_field.
  destruct (getattr h c l1 f); [done|].
  destruct (getattr h c l2 f); [|done].
  by apply setattr_lookup_ne.
Qed.

Lemma fill_field_is_Some (c : SpecClass) (l1 l2 : positive) (h : Store)
    (f : string) (k : SpecClass * positive) :
  is_Some (fill_field c l1 l2 h f !! k) <-> is_Some (h !! k).
Proof.
  unfold fill_field.
  destruct (getattr h c l1 f); [done|].
  destruct (getattr h c l2 f); [|done].
  apply setattr_is_Some.
Qed.

Lemma fill_field_self (c : SpecClass) (l : positive) (h : Store) (f : string) :
  fill_field c l l h f = h.
Proof. unfold fill_field. by destruct (getattr h c l f). Qed.

Lemma fill_field_get (c : SpecClass) (l1 l2 : positive) (h : Store) (f f' : string) :
  l1 <> l2 -> is_Some (h !! (c, l1)) ->
  getattr (fill_field c l1 l2 h f) c l1 f' =
  if decide (f = f')
  then match getattr h c l1 f with
       | Some v => Some v
       | None => getattr h c l2 f
       end
  else getattr h c l1 f'.
Proof.
  intros Hl Hs. unfold fill_field.
  destruct (getattr h c l1 f) as [v1|] eqn:E1.
  { case_decide; [by subst|done]. }
  destruct (getattr h c l2 f) as [v2|] eqn:E2.
  - case_decide as Hf.
    + subst. by apply getattr_setattr_eq.
    + apply getattr_setattr_ne. congruence.
  - case_decide; [by subst|done].
Qed.

(** The whole fill loop. *)
Lemma fill_le (c : SpecClass) (l1 l2 : positive) (fields : list string) (h : Store) :
  store_le h (fold_left (fill_field c l1 l2) fields h).
Proof.
  revert h. induction fields as [|f fields IH]; intros h; [apply store_le_refl|].
  cbn [fold_left]. eapply store_le_trans; [apply fill_field_le|apply IH].
Qed.

Lemma fill_lookup_ne (c : SpecClass) (l1 l2 : positive) (fields : list string)
    (h : Store) (k : SpecClass * positive) :
  k <> (c, l1) -> fold_left (fill_field c l1 l2) fields h !! k = h !! k.
Proof.
  intros Hk. revert h. induction fields as [|f fields IH]; intros h; [done|].
  cbn [fold_left]. rewrite IH. by apply fill_field_lookup_ne.
Qed.

Lemma fill_is_Some (c : SpecClass) (l1 l2 : positive) (fields : list string)
    (h : Store) (k : SpecClass * positive) :
  is_Some (fold_left (fill_field c l1 l2) fields h !! k) <-> is_Some (h !! k).
Proof.
  revert h. induction fields as [|f fields IH]; intros h; [done|].
  cbn [fold_left]. rewrite IH. apply fill_field_is_Some.
Qed.

Lemma fill_self (c : SpecClass) (l : positive) (fields : list string) (h : Store) :
  fold_left (fill_field c l l) fields h = h.
Proof.
  induction fields as [|f fields IH]; [done|].
  cbn [fold_left]. by rewrite fill_field_self.
Qed.

Lemma fill_get (c : SpecClass) (l1 l2 : positive) (fields : list string)
    (h : Store) (f : string) :
  l1 <> l2 -> is_Some (h !! (c, l1)) ->
  getattr (fold_left (fill_field c l1 l2) fields h) c l1 f =
  match getattr h c l1 f with
  | Some v => Some v
  | None => if decide (f ∈ fields) then getattr h c l2 f else None
  end.
Proof.
  intros Hl. revert h. induction fields as [|g fields IH]; intros h Hs.
  - cbn [fold_left]. destruct (getattr h c l1 f); [done|].
    rewrite decide_False; [done|]. apply not_elem_of_nil.
  - cbn [fold_left]. rewrite IH by by apply fill_field_is_Some.
    rewrite fill_field_get by done.
    assert (E2 : getattr (fill_field c l1 l2 h g) c l2 f = getattr h c l2 f).
    { unfold getattr. rewrite fill_field_lookup_ne; [done|]. congruence. }
    rewrite E2.
    destruct (decide (g = f)) as [->|Hg].
    + destruct (getattr h c l1 f) as [v|]; [done|].
      destruct (getattr h c l2 f) as [v|] eqn:E.
      * rewrite decide_True by left. done.
      * by destruct (decide (f ∈ fields)); destruct (decide (f ∈ f :: fields)).
    + destruct (getattr h c l1 f) as [v|]; [done|].
      destruct (decide (f ∈ fields)) as [Hin|Hin].
      * rewrite decide_True by by right. done.
      * rewrite decide_False; [done|]. rewrite elem_of_cons.
        intros [?|?]; [congruence|done].
Qed.

(** ** The merger never overwrites *)

Lemma merge_specs_le (c : SpecClass) (h : Store) (spec1 spec2 : option positive) :
  store_le h (merge_specs c h spec1 spec2).1.
Proof.
  unfold merge_specs. destruct spec1 as [l1|]; [|apply store_le_refl].
  destruct spec2 as [l2|]; [|apply store_le_refl]. apply fill_le.
Qed.

Lemma merge_specs_keeps_ref (c : SpecClass) (h : Store) (l : positive)
    (spec2 : option positive) :
  (merge_specs c h (Some l) spec2).2 = Some l.
Proof. unfold merge_specs. by destruct spec2. Qed.

Lemma merge_group_le (c : SpecClass) (other : BikeSpecifications)
    (st : Store * BikeSpecifications) :
  store_le st.1 (merge_group c other st).1 /\
  forall c' l, get_group c' st.2 = Some l ->
               get_group c' (merge_group c other st).2 = Some l.
Proof.
  destruct st as [h s]. unfold merge_group.
  pose proof (merge_specs_le c h (get_group c s) (get_group c other)) as Hle.
  split.
  - by destruct (merge_specs c h (get_group c s) (get_group c other)).
  - intros c' l H. destruct (decide (c = c')) as [<-|Hne].
    + cbn [snd] in H. rewrite H.
      pose proof (merge_specs_keeps_ref c h l (get_group c other)) as Hk.
      destruct (merge_specs c h (Some l) (get_group c other)) as [h' r].
      cbn [fst snd] in *. by rewrite get_set_group.
    + destruct (merge_specs c h (get_group c s) (get_group c other)).
      cbn [snd]. by rewrite get_set_group_ne.
Qed.

Lemma merge_specifications_le (other : BikeSpecifications)
    (st : Store * BikeSpecifications) :
  store_le st.1 (merge_specifications other st).1 /\
  forall c l, get_group c st.2 = Some l ->
              get_group c (merge_specifications other st).2 = Some l.
Proof.
  unfold merge_specifications.
  pose proof (merge_group_le EngineSpecs other st) as [L1 K1].
  set (s1 := merge_group EngineSpecs other st) in *. clearbody s1.
  pose proof (merge_group_le TransmissionSpecs other s1) as [L2 K2].
  set (s2 := merge_group TransmissionSpecs other s1) in *. clearbody s2.
  pose proof (merge_group_le ChassisSpecs other s2) as [L3 K3].
  set (s3 := merge_group ChassisSpecs other s2) in *. clearbody s3.
  pose proof (merge_group_le DimensionSpecs other s3) as [L4 K4].
  set (s4 := merge_group DimensionSpecs other s3) in *. clearbody s4.
  pose proof (merge_group_le PerformanceSpecs other s4) as [L5 K5].
  set (s5 := merge_group PerformanceSpecs other s4) in *. clearbody s5.
  pose proof (merge_group_le ElectricalSpecs other s5) as [L6 K6].
  split.
  - do 5 (eapply store_le_trans; [eassumption|]). assumption.
  - intros c l H. auto 10.
Qed.

Lemma merge_content_specifications (merged bike_data merged' : BikeData) :
  merge_content merged bike_data = Ok merged' ->
  specifications merged' = specifications merged.
Proof.
  unfold merge_content.
  destruct (description merged) as [[|c md]|];
    try (cbn; by intros [= <-]).
  destruct (description bike_data) as [bd|]; [|done].
  destruct (_ <? _); cbn; by intros [= <-].
Qed.

Lemma merge_page_le (h : Store) (merged : BikeData) (page_info : PageInfo) :
  store_le h (merge_page h merged page_info).1 /\
  forall merged', (merge_page h merged page_info).2 = Ok merged' ->
    forall c l, get_group c (specifications merged) = Some l ->
                get_group c (specifications merged') = Some l.
Proof.
  unfold merge_page.
  pose proof (merge_specifications_le (specifications (bike_data page_info))
                (h, specifications merged)) as [Hle Hk].
  destruct (merge_specifications _ _) as [h' s]. cbn [fst snd] in *.
  split; [done|]. intros merged' Hm c l Hc.
  apply merge_content_specifications in Hm. rewrite Hm. cbn. by apply Hk.
Qed.

Lemma merge_pages_le (pages : list PageInfo) (h : Store) (merged : BikeData) :
  store_le h (merge_pages h merged pages).1 /\
  forall merged', (merge_pages h merged pages).2 = Ok merged' ->
    forall c l, get_group c (specifications merged) = Some l ->
                get_group c (specifications merged') = Some l.
Proof.
  revert h merged. induction pages as [|p pages IH]; intros h merged.
  - cbn. split; [apply store_le_refl|]. by intros ? [= <-].
  - cbn [merge_pages].
    pose proof (merge_page_le h merged p) as [Hle Hk].
    destruct (merge_page h merged p) as [h' [m|e]]; cbn [fst snd] in *.
    + destruct (IH h' m) as [Hle' Hk']. split.
      * by eapply store_le_trans.
      * intros merged' Hm c l Hc. eapply Hk'; [done|]. by eapply Hk.
    + split; [done|]. done.
Qed.

(** A field that is set in the accumulator keeps its value through any
    further records, in any order, whether the loop ends or raises. *)
Lemma merge_pages_keeps_field (pages : list PageInfo) (h : Store)
    (merged : BikeData) (c : SpecClass) (l : positive) (f : string) (v : value) :
  get_group c (specifications merged) = Some l ->
  getattr h c l f = Some v ->
  getattr (merge_pages h merged pages).1 c l f = Some v /\
  forall merged', (merge_pages h merged pages).2 = Ok merged' ->
    field_of (merge_pages h merged pages).1 merged' c f = Some v.
Proof.
  intros Hc Hv. destruct (merge_pages_le pages h merged) as [Hle Hk].
  split; [by apply Hle|].
  intros merged' Hm. unfold field_of. rewrite (Hk merged' Hm c l Hc). cbn.
  by apply Hle.
Qed.

Lemma merge_pages_completes (pages : list PageInfo) (h : Store) (merged : BikeData) :
  (forall p, In p pages -> is_Some (description (bike_data p))) ->
  exists merged', (merge_pages h merged pages).2 = Ok merged'.
Proof.
  revert h merged. induction pages as [|p pages IH]; intros h merged Hd.
  - cbn. eauto.
  - cbn [merge_pages]. unfold merge_page.
    destruct (merge_specifications _ _) as [h' s].
    destruct (Hd p (or_introl eq_refl)) as [d Hp].
    assert (exists m, merge_content (with_specifications s merged) (bike_data p) = Ok m)
      as [m ->].
    { unfold merge_content. rewrite Hp.
      destruct (description (with_specifications s merged)) as [[|a md]|];
        [cbn; eauto| |cbn; eauto].
      match goal with |- context [if ?b then _ else _] => destruct b end;
        cbn; eauto. }
    apply IH. intros q Hq. apply Hd. by right.
Qed.

(** The loop raises when a record without description follows a record
    with one. *)
Lemma merge_pages_raises (h : Store) (merged : BikeData) (p : PageInfo)
    (rest : list PageInfo) (c : ascii) (md : string) :
  description merged = Some (String c md) ->
  description (bike_data p) = None ->
  (merge_pages h merged (p :: rest)).2 = Raise TypeError.
Proof.
  intros Hm Hp. cbn [merge_pages]. unfold merge_page.
  destruct (merge_specifications _ _) as [h' s].
  unfold merge_content. cbn [description with_specifications].
  by rewrite Hm, Hp.
Qed.

(** ** The merged value of a field *)

Lemma first_set_app (h : Store) (c : SpecClass) (f : string)
    (l1 l2 : list PageInfo) :
  first_set h c f (l1 ++ l2) =
  match first_set h c f l1 with
  | Some x => Some x
  | None => first_set h c f l2
  end.
Proof.
  induction l1 as [|p l1 IH]; [done|]. cbn.
  by destruct (field_of h (bike_data p) c f).
Qed.

Lemma first_set_snoc (h : Store) (c : SpecClass) (f : string)
    (done : list PageInfo) (b : PageInfo) :
  snd <$> first_set h c f (done ++ [b]) =
  match snd <$> first_set h c f done with
  | Some v => Some v
  | None => field_of h (bike_data b) c f
  end.
Proof.
  rewrite first_set_app. destruct (first_set h c f done) as [[p v]|]; [done|].
  cbn. by destruct (field_of h (bike_data b) c f).
Qed.

Lemma class_inv_ext (h0 : Store) (c : SpecClass) (done : list PageInfo)
    (h h' : Store) (slot : option positive) :
  (forall l, h' !! (c, l) = h !! (c, l)) ->
  class_inv h0 c done h slot -> class_inv h0 c done h' slot.
Proof.
  intros E [I1 I2 I3 I4].
  assert (G : forall l f, getattr h' c l f = getattr h c l f).
  { intros l f. unfold getattr. by rewrite E. }
  split.
  - intros l Hl Hs. rewrite E. by apply I1.
  - intros f Hf. rewrite <- (I2 f Hf). destruct slot as [l|]; [|done]. cbn. apply G.
  - intros l Hl. rewrite E. by apply I3.
  - intros l f v Hv. rewrite G. by apply I4.
Qed.

Lemma merge_specs_lookup_ne (c c' : SpecClass) (h : Store)
    (spec1 spec2 : option positive) (l : positive) :
  c <> c' -> (merge_specs c h spec1 spec2).1 !! (c', l) = h !! (c', l).
Proof.
  intros Hc. unfold merge_specs.
  destruct spec1 as [l1|]; [|done]. destruct spec2 as [l2|]; [|done].
  cbn [fst]. apply fill_lookup_ne. congruence.
Qed.

(** One call of [_merge_specs] takes the invariant of its class from
    the records done to the records done and the one merged. *)
Lemma merge_specs_inv (h0 : Store) (c : SpecClass) (done : list PageInfo)
    (h : Store) (slot : option positive) (b : PageInfo) :
  wf_page h0 b ->
  class_inv h0 c done h slot ->
  class_inv h0 c (done ++ [b])
    (merge_specs c h slot (get_group c (specifications (bike_data b)))).1
    (merge_specs c h slot (get_group c (specifications (bike_data b)))).2.
Proof.
  intros Hwf [I1 I2 I3 I4].
  assert (Hb : forall f, field_of h0 (bike_data b) c f =
                 get_group c (specifications (bike_data b)) ≫= fun l => getattr h0 c l f)
    by done.
  specialize (Hwf c).
  destruct (get_group c (specifications (bike_data b))) as [l2|] eqn:E2.
  2:{ (* the record has no object of this class *)
    assert (E : merge_specs c h slot None = (h, slot)) by by destruct slot.
    rewrite E. cbn [fst snd]. split; try done.
    intros f Hf. rewrite first_set_snoc, Hb, <- (I2 f Hf). cbn.
    by destruct (slot ≫= _). }
  specialize (Hwf l2 eq_refl).
  destruct slot as [l1|]; cbn [merge_specs fst snd].
  2:{ (* the accumulator adopts the object of the record *)
    assert (E : h !! (c, l2) = h0 !! (c, l2)) by by apply I1.
    split.
    - intros l Hl Hne. by apply I1.
    - intros f Hf. rewrite first_set_snoc, Hb, <- (I2 f Hf). cbn.
      unfold getattr. by rewrite E.
    - intros l [= <-]. by rewrite E.
    - done. }
  (* the fill loop *)
  pose proof (I3 l1 eq_refl) as Hl1.
  destruct (decide (l1 = l2)) as [<-|Hne].
  - rewrite fill_self. split; try done.
    intros f Hf. rewrite first_set_snoc, Hb, <- (I2 f Hf). cbn.
    destruct (getattr h c l1 f) as [v|] eqn:E; [done|].
    destruct (getattr h0 c l1 f) as [v|] eqn:E0; [|done].
    apply I4 in E0. congruence.
  - split.
    + intros l Hl Hs. rewrite fill_lookup_ne by congruence. by apply I1.
    + intros f Hf. rewrite first_set_snoc, Hb, <- (I2 f Hf). cbn.
      rewrite fill_get by done.
      destruct (getattr h c l1 f) as [v|]; [done|].
      rewrite decide_True by done.
      unfold getattr. rewrite I1; [done|done|congruence].
    + intros l [= <-]. by apply fill_is_Some.
    + intros l f v Hv. apply fill_le. by apply I4.
Qed.

Lemma merge_group_stage (h0 : Store) (done : list PageInfo) (b : PageInfo)
    (S : list SpecClass) (c : SpecClass) (st : Store * BikeSpecifications) :
  wf_page h0 b -> c ∉ S ->
  stage_inv h0 done b S st ->
  stage_inv h0 done b (c :: S) (merge_group c (specifications (bike_data b)) st).
Proof.
  intros Hwf Hc Hst c'. destruct st as [h s]. unfold merge_group.
  specialize (Hst c'). cbn [fst snd] in Hst.
  destruct (decide (c' = c)) as [->|Hne].
  - rewrite decide_True by left. rewrite decide_False in Hst by done.
    pose proof (merge_specs_inv h0 c done h (get_group c s) b Hwf Hst) as H.
    destruct (merge_specs c h (get_group c s) _) as [h' r]. cbn [fst snd] in *.
    by rewrite get_set_group.
  - pose proof (fun l => merge_specs_lookup_ne c c' h (get_group c s)
        (get_group c (specifications (bike_data b))) l (not_eq_sym Hne)) as E.
    destruct (merge_specs c h (get_group c s) _) as [h' r]. cbn [fst snd] in *.
    rewrite get_set_group_ne by done.
    apply (class_inv_ext _ _ _ h); [done|].
    destruct (decide (c' ∈ S)) as [Hin|Hin].
    + rewrite decide_True by by right. done.
    + rewrite decide_False; [done|]. rewrite elem_of_cons. tauto.
Qed.

Ltac class_mem :=
  rewrite ?elem_of_cons, ?elem_of_nil; intuition discriminate.

Lemma merge_specifications_inv (h0 : Store) (done : list PageInfo) (b : PageInfo)
    (h : Store) (s : BikeSpecifications) :
  wf_page h0 b ->
  all_inv h0 done h s ->
  all_inv h0 (done ++ [b])
    (merge_specifications (specifications (bike_data b)) (h, s)).1
    (merge_specifications (specifications (bike_data b)) (h, s)).2.
Proof.
  intros Hwf Hall.
  assert (H0 : stage_inv h0 done b [] (h, s)).
  { intros c. rewrite decide_False by apply not_elem_of_nil. apply Hall. }
  unfold merge_specifications.
  apply (merge_group_stage _ _ _ _ EngineSpecs) in H0; [|done|class_mem].
  apply (merge_group_stage _ _ _ _ TransmissionSpecs) in H0; [|done|class_mem].
  apply (merge_group_stage _ _ _ _ ChassisSpecs) in H0; [|done|class_mem].
  apply (merge_group_stage _ _ _ _ DimensionSpecs) in H0; [|done|class_mem].
  apply (merge_group_stage _ _ _ _ PerformanceSpecs) in H0; [|done|class_mem].
  apply (merge_group_stage _ _ _ _ ElectricalSpecs) in H0; [|done|class_mem].
  intros c. specialize (H0 c).
  rewrite decide_True in H0; [done|]. destruct c; class_mem.
Qed.

Lemma merge_pages_inv (h0 : Store) (rest : list PageInfo) (done : list PageInfo)
    (h : Store) (merged merged' : BikeData) :
  well_formed h0 rest ->
  all_inv h0 done h (specifications merged) ->
  (merge_pages h merged rest).2 = Ok merged' ->
  all_inv h0 (done ++ rest) (merge_pages h merged rest).1 (specifications merged').
Proof.
  revert done h merged. induction rest as [|b rest IH]; intros done h merged Hwf Hall.
  - cbn. intros [= <-]. by rewrite app_nil_r.
  - cbn [merge_pages]. unfold merge_page.
    pose proof (merge_specifications_inv h0 done b h (specifications merged)
                  (Hwf b (or_introl eq_refl)) Hall) as H.
    destruct (merge_specifications _ _) as [h' s]. cbn [fst snd] in H.
    destruct (merge_content _ _) as [m|e] eqn:E; [|done].
    apply merge_content_specifications in E. cbn in E.
    intros Hm.
    replace (done ++ b :: rest) with ((done ++ [b]) ++ rest)
      by (by rewrite <- app_assoc).
    apply IH; [|by rewrite E|done].
    intros q Hq. apply Hwf. by right.
Qed.

(** ** The deep copy *)

Lemma fresh_loc_fresh (h : Store) (c : SpecClass) : h !! (c, fresh_loc h) = None.
Proof.
  destruct (h !! (c, fresh_loc h)) as [attrs|] eqn:E; [|done]. exfalso.
  apply (is_fresh (set_map snd (dom h) : gset positive)).
  apply elem_of_map. exists (c, fresh_loc h). split; [done|].
  apply elem_of_dom. eauto.
Qed.

Lemma first_set_single (h : Store) (c : SpecClass) (f : string) (p : PageInfo) :
  snd <$> first_set h c f [p] = field_of h (bike_data p) c f.
Proof. cbn. by destruct (field_of h (bike_data p) c f). Qed.

Lemma copy_group_stage (h0 : Store) (top : PageInfo) (S : list SpecClass)
    (c : SpecClass) (st : Store * BikeSpecifications) :
  wf_page h0 top -> c ∉ S ->
  copy_inv h0 top S st -> copy_inv h0 top (c :: S) (copy_group c st).
Proof.
  intros Hwf Hc [Hsame Hcl]. destruct st as [h s]. cbn [fst snd] in *.
  pose proof (Hcl c) as Hslot. rewrite decide_False in Hslot by done.
  assert (Hfield : forall f, field_of h0 (bike_data top) c f =
                     get_group c s ≫= fun l => getattr h0 c l f).
  { intros f. unfold field_of. by rewrite Hslot. }
  unfold copy_group.
  destruct (get_group c s) as [l|] eqn:E.
  2:{ (* nothing to copy *)
    split; [done|]. intros c'. specialize (Hcl c'). cbn [fst snd].
    destruct (decide (c' = c)) as [->|Hne].
    - rewrite decide_True by left. rewrite E. split; try done.
      + intros l Hl _. by apply Hsame.
      + intros f _. by rewrite first_set_single, Hfield.
      + intros l f v Hv. unfold getattr in *. rewrite Hsame; [done|].
        destruct (h0 !! (c, l)); [eauto|done].
    - destruct (decide (c' ∈ S)) as [Hin|Hin].
      + rewrite decide_True by by right. done.
      + rewrite decide_False; [done|]. rewrite elem_of_cons. tauto. }
  assert (Hl : is_Some (h0 !! (c, l))) by (apply Hwf; congruence).
  rewrite (Hsame _ Hl). destruct Hl as [attrs Hl]. rewrite Hl.
  pose proof (fresh_loc_fresh h) as Hfresh.
  set (l' := fresh_loc h) in *.
  assert (Hsame' : forall k, is_Some (h0 !! k) -> <[(c, l') := attrs]> h !! k = h0 !! k).
  { intros k Hk. rewrite lookup_insert_ne; [by apply Hsame|].
    intros <-. rewrite <- (Hsame _ Hk), Hfresh in Hk. by destruct Hk. }
  split; [done|]. intros c'. specialize (Hcl c'). cbn [fst snd].
  destruct (decide (c' = c)) as [->|Hne].
  - rewrite decide_True by left. rewrite get_set_group. split.
    + intros l0 Hl0 _. by apply Hsame'.
    + intros f _. rewrite first_set_single, Hfield. cbn.
      unfold getattr. by rewrite lookup_insert_eq, Hl.
    + intros l0 [= <-]. rewrite lookup_insert_eq. eauto.
    + intros l0 f v Hv. unfold getattr in *. rewrite Hsame'; [done|].
      destruct (h0 !! (c, l0)); [eauto|done].
  - rewrite get_set_group_ne by done.
    destruct (decide (c' ∈ S)) as [Hin|Hin].
    + rewrite decide_True by by right.
      apply (class_inv_ext _ _ _ h); [|done].
      intros l0. apply lookup_insert_ne. congruence.
    + rewrite decide_False; [done|]. rewrite elem_of_cons. tauto.
Qed.

Lemma model_copy_deep_inv (h0 : Store) (top : PageInfo) :
  wf_page h0 top ->
  all_inv h0 [top] (model_copy_deep h0 (bike_data top)).1
    (specifications (model_copy_deep h0 (bike_data top)).2) /\
  forall k, is_Some (h0 !! k) ->
            (model_copy_deep h0 (bike_data top)).1 !! k = h0 !! k.
Proof.
  intros Hwf. unfold model_copy_deep, spec_classes. cbn [foldr].
  assert (H0 : copy_inv h0 top [] (h0, specifications (bike_data top))).
  { split; [done|]. intros c. by rewrite decide_False by apply not_elem_of_nil. }
  apply (copy_group_stage _ _ _ ElectricalSpecs) in H0; [|done|class_mem].
  apply (copy_group_stage _ _ _ PerformanceSpecs) in H0; [|done|class_mem].
  apply (copy_group_stage _ _ _ DimensionSpecs) in H0; [|done|class_mem].
  apply (copy_group_stage _ _ _ ChassisSpecs) in H0; [|done|class_mem].
  apply (copy_group_stage _ _ _ TransmissionSpecs) in H0; [|done|class_mem].
  apply (copy_group_stage _ _ _ EngineSpecs) in H0; [|done|class_mem].
  destruct (copy_group EngineSpecs _) as [h1 s]. cbn [fst snd] in *.
  destruct H0 as [Hsame Hcl]. split; [|done].
  intros c. specialize (Hcl c). rewrite decide_True in Hcl; [done|].
  destruct c; class_mem.
Qed.

(** ** The sort by priority *)

Lemma insert_by_priority_perm (x : PageInfo) (l : list PageInfo) :
  insert_by_priority x l ≡ₚ x :: l.
Proof.
  induction l as [|y l IH]; [done|]. cbn.
  destruct (priority x <? priority y)%Z; [|done].
  rewrite IH. apply Permutation_swap.
Qed.

Lemma sort_by_priority_perm (l : list PageInfo) : sort_by_priority l ≡ₚ l.
Proof.
  induction l as [|x l IH]; [done|]. cbn.
  by rewrite insert_by_priority_perm, IH.
Qed.

Lemma sort_by_priority_In (l : list PageInfo) (p : PageInfo) :
  In p (sort_by_priority l) <-> In p l.
Proof.
  rewrite <- !list_elem_of_In. by rewrite sort_by_priority_perm.
Qed.

Lemma sort_by_priority_length (l : list PageInfo) :
  length (sort_by_priority l) = length l.
Proof. by rewrite sort_by_priority_perm. Qed.

Lemma insert_by_priority_descending (x : PageInfo) (l : list PageInfo) :
  descending l -> descending (insert_by_priority x l).
Proof.
  unfold descending. induction l as [|y l IH]; intros Hs.
  - cbn. constructor; [constructor|constructor].
  - apply StronglySorted_inv in Hs as [Hs Hy]. cbn.
    destruct (priority x <? priority y)%Z eqn:E.
    + apply Z.ltb_lt in E. constructor; [by apply IH|].
      rewrite Forall_forall in *. intros z Hz.
      rewrite insert_by_priority_perm in Hz.
      apply elem_of_cons in Hz as [->|Hz]; [lia|]. by apply Hy.
    + apply Z.ltb_ge in E. constructor; [by constructor|].
      constructor; [done|]. rewrite Forall_forall in *. intros z Hz.
      specialize (Hy z Hz). cbn in Hy. lia.
Qed.

Lemma sort_by_priority_descending (l : list PageInfo) :
  descending (sort_by_priority l).
Proof.
  induction l as [|x l IH]; [constructor|].
  cbn. by apply insert_by_priority_descending.
Qed.

Lemma first_set_Some (h : Store) (c : SpecClass) (f : string)
    (l : list PageInfo) (p : PageInfo) (v : value) :
  descending l ->
  first_set h c f l = Some (p, v) ->
  In p l /\ field_of h (bike_data p) c f = Some v /\
  forall q, In q l -> is_Some (field_of h (bike_data q) c f) ->
            (priority q <= priority p)%Z.
Proof.
  induction l as [|x l IH]; [done|]. intros Hs.
  apply StronglySorted_inv in Hs as [Hs Hx]. cbn [first_set].
  destruct (field_of h (bike_data x) c f) as [vx|] eqn:E.
  - intros [= <- <-]. split; [by left|]. split; [done|].
    intros q [<-|Hq] _; [lia|]. rewrite Forall_forall in Hx.
    by apply Hx, (proj2 (list_elem_of_In _ _)).
  - intros H. destruct (IH Hs H) as (Hin & Hv & Hmax).
    split; [by right|]. split; [done|].
    intros q [<-|Hq] Hq'; [|by apply Hmax].
    rewrite E in Hq'. by destruct Hq'.
Qed.

Lemma first_set_None (h : Store) (c : SpecClass) (f : string) (l : list PageInfo) :
  first_set h c f l = None ->
  forall q, In q l -> field_of h (bike_data q) c f = None.
Proof.
  induction l as [|x l IH]; [done|]. cbn [first_set].
  destruct (field_of h (bike_data x) c f) as [vx|] eqn:E; [done|].
  intros H q [<-|Hq]; [done|]. by apply IH.
Qed.

(** ** The merge as a whole *)

Lemma specifications_finish (m : BikeData) :
  specifications (finish m) = specifications m.
Proof. reflexivity. Qed.

Lemma merge_bike_data_sorts (h : Store) (pages : list PageInfo) :
  2 <= length pages ->
  (merge_bike_data h pages).1.2 = sort_by_priority pages.
Proof.
  destruct pages as [|a [|b t]]; cbn [length]; try lia. intros _.
  unfold merge_bike_data.
  destruct (sort_by_priority (a :: b :: t)) as [|top rest]; [done|].
  destruct (model_copy_deep h (bike_data top)) as [h1 merged].
  by destruct (merge_pages h1 merged rest).
Qed.

Lemma merge_bike_data_value (h : Store) (pages : list PageInfo) (m : BikeData) :
  2 <= length pages ->
  well_formed h pages ->
  (merge_bike_data h pages).2 = Ok m ->
  forall c f, f ∈ model_fields c ->
    field_of (merge_bike_data h pages).1.1 m c f
    = snd <$> first_set h c f (sort_by_priority pages).
Proof.
  intros Hlen Hwf.
  assert (Hwf' : well_formed h (sort_by_priority pages)).
  { intros p Hp. apply Hwf. by apply sort_by_priority_In. }
  destruct pages as [|a [|b t]]; cbn [length] in Hlen; try lia.
  unfold merge_bike_data.
  destruct (sort_by_priority (a :: b :: t)) as [|top rest]; [done|].
  destruct (model_copy_deep_inv h top (Hwf' top (or_introl eq_refl))) as [Hcopy _].
  destruct (model_copy_deep h (bike_data top)) as [h1 merged]. cbn [fst snd] in *.
  pose proof (merge_pages_inv h rest [top] h1 merged) as Hloop.
  destruct (merge_pages h1 merged rest) as [h2 [m'|e]]; [|done]. cbn [fst snd] in *.
  intros [= <-] c f Hf.
  specialize (Hloop m' (fun q Hq => Hwf' q (or_intror Hq)) Hcopy eq_refl c).
  destruct Hloop as [_ Hv _ _]. exact (Hv f Hf).
Qed.

Lemma merge_bike_data_completes (h : Store) (pages : list PageInfo) :
  pages <> [] ->
  (forall p, In p pages -> is_Some (description (bike_data p))) ->
  exists m, (merge_bike_data h pages).2 = Ok m.
Proof.
  intros Hne Hd. destruct pages as [|a [|b t]]; [done|cbn; eauto|].
  assert (Hd' : forall p, In p (sort_by_priority (a :: b :: t)) ->
                          is_Some (description (bike_data p))).
  { intros p Hp. apply Hd. by apply sort_by_priority_In. }
  unfold merge_bike_data.
  destruct (sort_by_priority (a :: b :: t)) as [|top rest] eqn:E.
  { apply (f_equal length) in E. rewrite sort_by_priority_length in E. done. }
  destruct (model_copy_deep h (bike_data top)) as [h1 merged].
  destruct (merge_pages_completes rest h1 merged) as [m Hm].
  { intros p Hp. apply Hd'. by right. }
  destruct (merge_pages h1 merged rest) as [h2 r]. cbn in *. subst r.
  cbn. eauto.
Qed.

(** ** The merger: the statements of the specification *)

Ltac wf_example :=
  let p := fresh "p" in let H := fresh "H" in let c := fresh "c" in
  intros p H c; cbn in H;
  repeat (destruct H as [<-|H]; [destruct c; cbn; intros ? [= <-]; vm_compute; eauto|]);
  contradiction.

Ltac descriptions_example :=
  let p := fresh "p" in let H := fresh "H" in
  intros p H; cbn in H;
  repeat (destruct H as [<-|H]; [cbn; eauto|]); contradiction.

(** C1. The merge is fill-only.  Whatever the accumulator, the store and
    the records still to come, in whatever order: a field of the
    accumulator that holds a value holds the same value after the loop,
    in the store and in the record returned.  For a group of two or more
    records without dangling references the caller's list is sorted by
    priority, the merge returns a record when every record has a
    description, and in the record returned each field of the six groups
    holds the value of the first record of the sorted list that set it,
    a record of the highest priority among those that set the field; a
    field that no record set is unset. *)
Theorem merge_fill_only :
  (forall (rest : list PageInfo) (h : Store) (merged : BikeData)
          (c : SpecClass) (l : positive) (f : string) (v : value),
     get_group c (specifications merged) = Some l ->
     getattr h c l f = Some v ->
     getattr (merge_pages h merged rest).1 c l f = Some v /\
     forall merged', (merge_pages h merged rest).2 = Ok merged' ->
       field_of (merge_pages h merged rest).1 merged' c f = Some v) /\
  (forall (h : Store) (pages : list PageInfo),
     2 <= length pages -> well_formed h pages ->
     (merge_bike_data h pages).1.2 = sort_by_priority pages /\
     ((forall p, In p pages -> is_Some (description (bike_data p))) ->
      exists m, (merge_bike_data h pages).2 = Ok m) /\
     forall m, (merge_bike_data h pages).2 = Ok m ->
       forall c f, f ∈ model_fields c ->
         match first_set h c f (sort_by_priority pages) with
         | Some (p, v) =>
             field_of (merge_bike_data h pages).1.1 m c f = Some v /\
             In p pages /\ field_of h (bike_data p) c f = Some v /\
             forall q, In q pages -> is_Some (field_of h (bike_data q) c f) ->
                       (priority q <= priority p)%Z
         | None =>
             field_of (merge_bike_data h pages).1.1 m c f = None /\
             forall q, In q pages -> field_of h (bike_data q) c f = None
         end).
Proof.
  split.
  - intros rest h merged c l f v. apply merge_pages_keeps_field.
  - intros h pages Hlen Hwf. split; [by apply merge_bike_data_sorts|].
    split.
    { apply merge_bike_data_completes.
      destruct pages; [cbn in Hlen; lia|done]. }
    intros m Hm c f Hf.
    rewrite (merge_bike_data_value h pages m Hlen Hwf Hm c f Hf).
    destruct (first_set h c f (sort_by_priority pages)) as [[p v]|] eqn:E.
    + apply first_set_Some in E as (Hin & Hv & Hmax);
        [|apply sort_by_priority_descending].
      split; [done|].
      split; [exact (proj1 (sort_by_priority_In _ _) Hin)|].
      split; [done|]. intros q Hq. apply Hmax.
      exact (proj2 (sort_by_priority_In _ _) Hq).
    + split; [done|]. intros q Hq.
      apply (first_set_None _ _ _ _ E).
      exact (proj2 (sort_by_priority_In _ _) Hq).
Qed.

Lemma merge_fill_only_witness :
  (merge_bike_data example_store example_pages).1.2
    = [specs_page; main_page; gallery_page] /\
  exists m, (merge_bike_data example_store example_pages).2 = Ok m.
Proof.
  destruct (proj2 merge_fill_only example_store example_pages) as (H1 & H2 & _).
  - cbn. lia.
  - wf_example.
  - split; [exact H1|]. apply H2. descriptions_example.
Defined.

(** The sort of a specs page, a main page and a gallery page, in
    whatever order they come: specs, main, gallery. *)
Lemma sort_specs_main_gallery (ps pm pg : PageInfo) (pages : list PageInfo) :
  page_type ps = Some "specs" ->
  page_type pm = Some "main" ->
  page_type pg = Some "gallery" ->
  pages ≡ₚ [ps; pm; pg] ->
  sort_by_priority pages = [ps; pm; pg].
Proof.
  intros Hs Hm Hg Hperm.
  assert (P1 : priority ps = 3%Z) by (unfold priority; by rewrite Hs).
  assert (P2 : priority pm = 2%Z) by (unfold priority; by rewrite Hm).
  assert (P3 : priority pg = 0%Z) by (unfold priority; by rewrite Hg).
  symmetry in Hperm. apply permutations_Permutation in Hperm.
  cbn in Hperm. rewrite !elem_of_cons in Hperm.
  destruct Hperm as [->|[->|[->|[->|[->|[->|Hperm]]]]]];
    [..|by apply elem_of_nil in Hperm];
    unfold sort_by_priority; cbn [foldr insert_by_priority];
    rewrite ?P1, ?P2, ?P3; cbn [Z.ltb Z.compare Pos.compare Pos.compare_cont insert_by_priority];
    rewrite ?P1, ?P2, ?P3; cbn [Z.ltb Z.compare Pos.compare Pos.compare_cont insert_by_priority];
    rewrite ?P1, ?P2, ?P3; reflexivity.
Qed.

(** C2. For a group of a specs page, a main page and a gallery page
    without dangling references, in whatever order the three records
    are passed, in which the specs page and the main page set
    [max_power_kw] to different values: the merge leaves the caller's
    list in the order specs, main, gallery; every record it returns
    holds the value of the specs page; and it returns a record when the
    three records have descriptions. *)
Theorem merge_specs_page_wins (h : Store) (ps pm pg : PageInfo) (v1 v2 : value)
    (pages : list PageInfo) :
  page_type ps = Some "specs" ->
  page_type pm = Some "main" ->
  page_type pg = Some "gallery" ->
  pages ≡ₚ [ps; pm; pg] ->
  well_formed h pages ->
  field_of h (bike_data ps) EngineSpecs "max_power_kw" = Some v1 ->
  field_of h (bike_data pm) EngineSpecs "max_power_kw" = Some v2 ->
  v1 <> v2 ->
  (merge_bike_data h pages).1.2 = [ps; pm; pg] /\
  (forall m, (merge_bike_data h pages).2 = Ok m ->
     field_of (merge_bike_data h pages).1.1 m EngineSpecs "max_power_kw"
     = Some v1) /\
  ((forall p, In p pages -> is_Some (description (bike_data p))) ->
   exists m, (merge_bike_data h pages).2 = Ok m).
Proof.
  intros Hs Hm Hg Hperm Hwf H1 H2 _.
  pose proof (sort_specs_main_gallery ps pm pg pages Hs Hm Hg Hperm) as E.
  assert (Hlen : 2 <= length pages) by (rewrite Hperm; cbn; lia).
  split; [|split].
  - by rewrite merge_bike_data_sorts.
  - intros m Hok.
    rewrite (merge_bike_data_value h pages m Hlen Hwf Hok) by (cbn; class_mem).
    rewrite E. cbn [first_set]. by rewrite H1.
  - apply merge_bike_data_completes. intros ->.
    by apply Permutation_nil_l in Hperm.
Qed.

Lemma merge_specs_page_wins_witness :
  (merge_bike_data power_store power_pages).1.2
  = [power_specs_page; power_main_page; power_gallery_page] /\
  exists m, (merge_bike_data power_store power_pages).2 = Ok m /\
    field_of (merge_bike_data power_store power_pages).1.1 m EngineSpecs "max_power_kw"
    = Some (VFloat 82).
Proof.
  destruct (merge_specs_page_wins power_store
              power_specs_page power_main_page power_gallery_page
              (VFloat 82) (VFloat 81.5) power_pages) as (H0 & H1 & H2);
    try reflexivity.
  - symmetry.
    apply (Permutation_cons_append [power_main_page; power_gallery_page]
             power_specs_page).
  - wf_example.
  - discriminate.
  - split; [exact H0|].
    destruct H2 as [m Hm]; [descriptions_example|].
    exists m. split; [exact Hm|]. apply H1, Hm.
Defined.

(** C9. Merging a group of one record returns the record; the store and
    the list are as they were. *)
Theorem merge_single (h : Store) (p : PageInfo) :
  merge_bike_data h [p] = (h, [p], Ok (bike_data p)).
Proof. reflexivity. Qed.

(** C10. The frame property fails when the top record lacks a group:
    the accumulator adopts the engine object of the main page, and the
    fill from the gallery page writes into that input object. *)
Theorem merge_writes_into_input :
  get_group EngineSpecs (specifications (bike_data main_page)) = Some 1%positive /\
  getattr example_store EngineSpecs 1 "max_power_kw" = None /\
  getattr (merge_bike_data example_store example_pages).1.1
    EngineSpecs 1 "max_power_kw" = Some (VFloat 82).
Proof. vm_compute. by repeat split. Qed.

(* ===================================================================== *)
(** * Part III: further properties of the code *)
(* ===================================================================== *)

(** ** The merger: errors, identity and order *)

Lemma merge_content_raises (merged b : BikeData) (e : exn) :
  merge_content merged b = Raise e -> e = TypeError.
Proof.
  unfold merge_content.
  destruct (description merged) as [[|c md]|]; try (cbn; done).
  destruct (description b) as [bd|]; [|cbn; congruence].
  match goal with |- context [if ?b then _ else _] => destruct b end; cbn; done.
Qed.

Lemma merge_pages_raises_type_error (pages : list PageInfo) (h : Store)
    (merged : BikeData) (e : exn) :
  (merge_pages h merged pages).2 = Raise e -> e = TypeError.
Proof.
  revert h merged. induction pages as [|p pages IH]; intros h merged; [done|].
  cbn [merge_pages]. unfold merge_page.
  destruct (merge_specifications _ _) as [h' s].
  destruct (merge_content _ _) as [m|e'] eqn:E.
  - apply IH.
  - cbn. intros [= <-]. by apply merge_content_raises in E.
Qed.

Lemma sort_by_priority_nil (l : list PageInfo) :
  sort_by_priority l = [] -> l = [].
Proof.
  intros E. apply (f_equal length) in E. rewrite sort_by_priority_length in E.
  by destruct l.
Qed.

Lemma merge_bike_data_raises (h : Store) (pages : list PageInfo) (e : exn) :
  (merge_bike_data h pages).2 = Raise e ->
  (e = ValueError /\ pages = []) \/ (e = TypeError /\ 2 <= length pages).
Proof.
  destruct pages as [|a [|b t]].
  - cbn. intros [= <-]. by left.
  - done.
  - intros E. right. split; [|cbn; lia]. revert E. unfold merge_bike_data.
    destruct (sort_by_priority (a :: b :: t)) as [|top rest] eqn:E;
      [by apply sort_by_priority_nil in E|].
    destruct (model_copy_deep h (bike_data top)) as [h1 merged].
    pose proof (merge_pages_raises_type_error rest h1 merged) as Hr.
    destruct (merge_pages h1 merged rest) as [h2 [m|e']]; cbn in *; [done|].
    intros [= <-]. by apply Hr.
Qed.

(** X1. The merge raises [ValueError] for the empty list and for no other
    list: what a longer list can raise is the [TypeError] of the
    description comparison, and a list of one record raises nothing. *)
Theorem merge_value_error_iff_empty (h : Store) (pages : list PageInfo) :
  ((merge_bike_data h pages).2 = Raise ValueError <-> pages = []) /\
  forall e, (merge_bike_data h pages).2 = Raise e ->
            (e = ValueError /\ pages = []) \/ (e = TypeError /\ 2 <= length pages).
Proof.
  split; [|apply merge_bike_data_raises]. split.
  - intros E. by destruct (merge_bike_data_raises _ _ _ E) as [[_ ?]|[? _]].
  - by intros ->.
Qed.

(** The descriptive fields that an iteration leaves alone, and what it
    makes of the others. *)
Lemma merge_content_Ok (merged b m : BikeData) :
  merge_content merged b = Ok m ->
  manufacturer m = manufacturer merged /\ model m = model merged /\
  year m = year merged /\ variant m = variant merged /\
  price m = price merged /\ content_sections m = content_sections merged /\
  extraction_timestamp m = extraction_timestamp merged /\
  features m = combine_features [features merged; features b] /\
  colors m = list_set (colors merged ++ colors b) /\
  images m = images merged ++ images b /\
  source_urls m = source_urls merged ++ source_urls b.
Proof.
  unfold merge_content.
  destruct (description merged) as [[|c md]|];
    try (cbn; intros [= <-]; by repeat split).
  destruct (description b) as [bd|]; [|done].
  match goal with |- context [if ?b then _ else _] => destruct b end;
    cbn; intros [= <-]; by repeat split.
Qed.

Lemma merge_page_Ok (h : Store) (merged : BikeData) (p : PageInfo) (m : BikeData) :
  (merge_page h merged p).2 = Ok m ->
  exists s, merge_content (with_specifications s merged) (bike_data p) = Ok m.
Proof.
  unfold merge_page. destruct (merge_specifications _ _) as [h' s]. cbn. eauto.
Qed.

Lemma merge_pages_identity (pages : list PageInfo) (h : Store) (merged m : BikeData) :
  (merge_pages h merged pages).2 = Ok m -> same_identity m merged.
Proof.
  revert h merged. induction pages as [|p pages IH]; intros h merged.
  - cbn. intros [= <-]. by repeat split.
  - cbn [merge_pages].
    destruct (merge_page h merged p) as [h' [m'|e]] eqn:E; [|done].
    intros Hm. apply IH in Hm.
    assert (E' : (merge_page h merged p).2 = Ok m') by by rewrite E.
    apply merge_page_Ok in E' as [s E'].
    apply merge_content_Ok in E'. cbn in E'.
    unfold same_identity in *. intuition congruence.
Qed.

Lemma model_copy_deep_content (h : Store) (b : BikeData) :
  exists s, (model_copy_deep h b).2 = with_specifications s b.
Proof.
  unfold model_copy_deep. destruct (foldr _ _ _) as [h' s]. cbn. eauto.
Qed.
Lemma descending_head (top : PageInfo) (rest : list PageInfo) :
  descending (top :: rest) ->
  forall q, In q (top :: rest) -> (priority q <= priority top)%Z.
Proof.
  intros Hs. apply StronglySorted_inv in Hs as [_ Hx].
  intros q [<-|Hq]; [lia|]. rewrite Forall_forall in Hx.
  by apply Hx, (proj2 (list_elem_of_In _ _)).
Qed.

(** X3. Whatever the merge returns carries the identity of the record of the
    highest priority: manufacturer, model, year, variant, price, content
    sections and timestamp are those of the first record of the list as
    the call leaves it, and no record has a higher priority than that
    one.  The other records never contribute to these fields. *)
Theorem merge_identity_of_top (h h' : Store) (pages pages' : list PageInfo)
    (m : BikeData) :
  merge_bike_data h pages = (h', pages', Ok m) ->
  exists top rest,
    pages' = top :: rest /\
    pages' ≡ₚ pages /\
    (forall q, In q pages -> (priority q <= priority top)%Z) /\
    same_identity m (bike_data top).
Proof.
  destruct pages as [|a [|b t]]; [done| |].
  - cbn. intros [= <- <- <-]. exists a, []. repeat split; try done.
    intros q [<-|[]]. lia.
  - unfold merge_bike_data.
    pose proof (sort_by_priority_perm (a :: b :: t)) as Hperm.
    pose proof (sort_by_priority_descending (a :: b :: t)) as Hdesc.
    destruct (sort_by_priority (a :: b :: t)) as [|top rest] eqn:E;
      [by apply sort_by_priority_nil in E|].
    destruct (model_copy_deep_content h (bike_data top)) as [s Hs].
    destruct (model_copy_deep h (bike_data top)) as [h1 merged]. cbn in Hs.
    pose proof (merge_pages_identity rest h1 merged) as Hid.
    destruct (merge_pages h1 merged rest) as [h2 [m'|e]]; [|done].
    cbn. intros [= <- <- <-]. exists top, rest. split; [done|]. split; [done|].
    split.
    + intros q Hq. apply (descending_head top rest Hdesc).
      apply list_elem_of_In. rewrite Hperm. by apply list_elem_of_In.
    + specialize (Hid m' eq_refl). subst merged.
      unfold same_identity in *. cbn in *. intuition congruence.
Qed.

Lemma merge_identity_of_top_witness :
  exists top rest,
    (merge_bike_data example_store example_pages).1.2 = top :: rest /\
    manufacturer (bike_data top) = "Ducati".
Proof.
  eassert (E : merge_bike_data example_store example_pages = (_, _, Ok _))
    by (vm_compute; reflexivity).
  destruct (merge_identity_of_top _ _ _ _ _ E) as (top & rest & H1 & H2 & H3 & H4).
  exists top, rest. rewrite E. split; [exact H1|].
  injection H1 as <- _. reflexivity.
Defined.
Lemma insert_by_priority_filter (k : Z) (x : PageInfo) (l : list PageInfo) :
  filter (fun p => priority p = k) (insert_by_priority x l)
  = filter (fun p => priority p = k) (x :: l).
Proof.
  induction l as [|y l IH]; [done|]. cbn [insert_by_priority].
  destruct (priority x <? priority y)%Z eqn:E; [|done].
  apply Z.ltb_lt in E.
  rewrite filter_cons, IH, !filter_cons.
  destruct (decide (priority y = k)), (decide (priority x = k)); try done. lia.
Qed.

Lemma sort_by_priority_filter (k : Z) (l : list PageInfo) :
  filter (fun p => priority p = k) (sort_by_priority l)
  = filter (fun p => priority p = k) l.
Proof.
  induction l as [|x l IH]; [done|]. cbn [sort_by_priority foldr].
  rewrite insert_by_priority_filter, !filter_cons.
  fold (sort_by_priority l). by rewrite IH.
Qed.

(** X4. The merge reorders the caller's list in place: after the call, and
    whether it returns or raises, the list holds the same records, no
    record is followed by one of higher priority, and the records of
    equal priority are in the order they had. *)
Theorem merge_sorts_callers_list (h : Store) (pages : list PageInfo) :
  (merge_bike_data h pages).1.2 ≡ₚ pages /\
  descending (merge_bike_data h pages).1.2 /\
  forall k : Z,
    filter (fun p => priority p = k) (merge_bike_data h pages).1.2
    = filter (fun p => priority p = k) pages.
Proof.
  destruct pages as [|a [|b t]].
  - cbn. split; [done|]. split; [constructor|done].
  - cbn. split; [done|]. split; [|done]. constructor; constructor.
  - rewrite merge_bike_data_sorts by (cbn; lia).
    split; [apply sort_by_priority_perm|].
    split; [apply sort_by_priority_descending|].
    intros k. apply sort_by_priority_filter.
Qed.
(** ** The merger: when the description comparison raises *)

Lemma none_after_text_cons (p : PageInfo) (l : list PageInfo) :
  none_after_text (p :: l) <->
  (has_text (bike_data p) = true /\
   exists b, In b l /\ description (bike_data b) = None) \/
  none_after_text l.
Proof.
  split.
  - intros (l1 & a & l2 & b & l3 & E & Ha & Hb). destruct l1 as [|x l1].
    + cbn in E. injection E as <- ->. left. split; [done|].
      exists b. split; [|done]. apply in_or_app. right. by left.
    + cbn in E. injection E as <- ->. right. by exists l1, a, l2, b, l3.
  - intros [(Hp & b & Hin & Hb)|(l1 & a & l2 & b & l3 & -> & Ha & Hb)].
    + apply in_split in Hin as (l2 & l3 & ->).
      by exists [], p, l2, b, l3.
    + by exists (p :: l1), a, l2, b, l3.
Qed.

Lemma merge_content_description (merged b : BikeData) :
  match description b with
  | None =>
      if has_text merged then merge_content merged b = Raise TypeError
      else exists m, merge_content merged b = Ok m /\ has_text m = false
  | Some bd =>
      exists m, merge_content merged b = Ok m /\
                has_text m = has_text merged || has_text b
  end.
Proof.
  unfold merge_content, has_text.
  destruct (description merged) as [[|c md]|] eqn:Em;
    destruct (description b) as [bd|] eqn:Eb;
    try (eexists; split; [reflexivity|]; cbn [description with_content];
         by rewrite ?Eb).
  - destruct (String.length (String c md) <? String.length bd) eqn:E.
    + eexists. split; [reflexivity|]. cbn [description with_content].
      destruct bd; [|done]. apply Nat.ltb_lt in E. cbn in E. lia.
    + eexists. split; [reflexivity|]. cbn [description with_content]. done.
  - reflexivity.
Qed.

Lemma has_text_with_specifications (s : BikeSpecifications) (b : BikeData) :
  has_text (with_specifications s b) = has_text b.
Proof. reflexivity. Qed.

Lemma merge_pages_type_error (pages : list PageInfo) (h : Store) (merged : BikeData) :
  (merge_pages h merged pages).2 = Raise TypeError <->
  (has_text merged = true /\
   exists b, In b pages /\ description (bike_data b) = None) \/
  none_after_text pages.
Proof.
  revert h merged. induction pages as [|p pages IH]; intros h merged.
  - cbn. split; [done|]. intros [(_ & b & [] & _)|(l1 & a & l2 & b & l3 & E & _)].
    by destruct l1.
  - cbn [merge_pages]. unfold merge_page.
    destruct (merge_specifications _ _) as [h' s].
    pose proof (merge_content_description (with_specifications s merged) (bike_data p)) as Hc.
    rewrite has_text_with_specifications in Hc.
    rewrite none_after_text_cons.
    destruct (description (bike_data p)) as [bd|] eqn:Ep.
    + destruct Hc as (m & -> & Hm). rewrite IH, Hm.
      assert (Hnone : (exists b, In b (p :: pages) /\ description (bike_data b) = None) <->
                      (exists b, In b pages /\ description (bike_data b) = None)).
      { split; intros (b & Hin & Hb); exists b; (split; [|done]).
        - destruct Hin as [<-|Hin]; [congruence|done].
        - by right. }
      rewrite Hnone. destruct (has_text merged), (has_text (bike_data p)); cbn; tauto.
    + assert (Hp : has_text (bike_data p) = false) by (unfold has_text; by rewrite Ep).
      rewrite Hp. destruct (has_text merged).
      * rewrite Hc. cbn. split; [|done]. intros _. left. split; [done|].
        exists p. split; [by left|done].
      * destruct Hc as (m & -> & Hm). rewrite IH, Hm. split.
        -- intros [[? _]|H]; [done|]. right. by right.
        -- intros [[? _]|[[? _]|H]]; try done. by right.
Qed.

(** X2. The merge raises [TypeError] exactly when, in the order of priority,
    a record without description comes after a record with a non-empty
    one; it returns a record exactly when the list is not empty and no
    such pair exists. *)
Theorem merge_type_error_iff (h : Store) (pages : list PageInfo) :
  ((merge_bike_data h pages).2 = Raise TypeError <->
   none_after_text (sort_by_priority pages)) /\
  ((exists m, (merge_bike_data h pages).2 = Ok m) <->
   pages <> [] /\ ~ none_after_text (sort_by_priority pages)).
Proof.
  assert (H1 : (merge_bike_data h pages).2 = Raise TypeError <->
               none_after_text (sort_by_priority pages)).
  { destruct pages as [|a [|b t]].
    - cbn. split; [done|]. intros (l1 & ? & ? & ? & ? & E & _). by destruct l1.
    - cbn. split; [done|]. intros (l1 & ? & l2 & ? & ? & E & _).
      destruct l1 as [|? [|]]; destruct l2; done.
    - unfold merge_bike_data.
      destruct (sort_by_priority (a :: b :: t)) as [|top rest] eqn:E;
        [by apply sort_by_priority_nil in E|].
      destruct (model_copy_deep_content h (bike_data top)) as [s Hs].
      destruct (model_copy_deep h (bike_data top)) as [h1 merged]. cbn in Hs.
      pose proof (merge_pages_type_error rest h1 merged) as Hr.
      rewrite none_after_text_cons.
      replace (has_text merged) with (has_text (bike_data top)) in Hr by by subst.
      destruct (merge_pages h1 merged rest) as [h2 [m|e]]; cbn in *.
      + rewrite <- Hr. done.
      + rewrite <- Hr. split; congruence. }
  split; [done|]. rewrite <- H1.
  pose proof (merge_bike_data_raises h pages) as He.
  destruct ((merge_bike_data h pages).2) as [m|e] eqn:E.
  - split; [|eauto]. intros _. split; [|done]. intros ->. done.
  - split; [by intros [m ?]|]. intros [Hne Hn]. exfalso.
    destruct (He e eq_refl) as [[-> ?]|[-> _]]; done.
Qed.
(** ** Stripping twice *)

Lemma lstrip_stops (p : ascii -> bool) (s : string) :
  stops (fun c => negb (p c)) (lstrip_of p s) = true.
Proof.
  induction s as [|c s IH]; [done|]. cbn [lstrip_of].
  destruct (p c) eqn:E; [done|]. cbn. by rewrite E.
Qed.

Lemma lstrip_id (p : ascii -> bool) (s : string) :
  stops (fun c => negb (p c)) s = true -> lstrip_of p s = s.
Proof.
  destruct s as [|c s]; [done|]. cbn. by intros ->%negb_true_iff.
Qed.

Lemma strip_idem (s : string) : strip (strip s) = strip s.
Proof.
  unfold strip. rewrite (lstrip_id is_space (rstrip_of is_space _)).
  - apply rstrip_idem.
  - apply stops_rstrip, lstrip_stops.
Qed.

(** ** The deduplication of the features *)

Lemma unique_features_spec (l : list string) (seen : gset string) :
  NoDup (unique_features l seen) /\
  forall f, f ∈ unique_features l seen <->
            (f ∉ seen) /\ nonempty f = true /\ exists g, g ∈ l /\ strip g = f.
Proof.
  revert seen. induction l as [|g l IH]; intros seen.
  - cbn. split; [constructor|]. intros f. split; [by intros ?%elem_of_nil|].
    by intros (_ & _ & g & ?%elem_of_nil & _).
  - cbn [unique_features].
    destruct (nonempty (strip g)) eqn:Hn; cbn [andb].
    + destruct (bool_decide (strip g ∉ seen)) eqn:Hs.
      * apply bool_decide_eq_true in Hs.
        destruct (IH (seen ∪ {[strip g]})) as [Hnd Hiff]. split.
        -- constructor; [|done]. rewrite Hiff. intros (Hx & _).
           apply Hx, elem_of_union. right. by apply elem_of_singleton.
        -- intros f. rewrite elem_of_cons, Hiff. split.
           ++ intros [->|(Hf & Hne & g' & Hg' & <-)].
              ** split; [done|]. split; [done|]. exists g. split; [left|done].
              ** split; [intros ?; apply Hf, elem_of_union; by left|].
                 split; [done|]. exists g'.
                 split; [by right|done].
           ++ intros (Hf & Hne & g' & Hg' & <-).
              destruct (decide (strip g' = strip g)) as [E|E]; [by left|].
              right. split; [rewrite elem_of_union, elem_of_singleton; tauto|].
              split; [done|].
              apply elem_of_cons in Hg' as [->|Hg']; [done|]. eauto.
      * apply bool_decide_eq_false in Hs. apply dec_stable in Hs.
        destruct (IH seen) as [Hnd Hiff]. split; [done|].
        intros f. rewrite Hiff. split.
        -- intros (Hf & Hne & g' & Hg' & <-). split; [done|]. split; [done|].
           exists g'. split; [by right|done].
        -- intros (Hf & Hne & g' & Hg' & <-). split; [done|]. split; [done|].
           apply elem_of_cons in Hg' as [->|Hg']; [done|]. eauto.
    + destruct (IH seen) as [Hnd Hiff]. split; [done|].
      intros f. rewrite Hiff. split.
      * intros (Hf & Hne & g' & Hg' & <-). split; [done|]. split; [done|].
        exists g'. split; [by right|done].
      * intros (Hf & Hne & g' & Hg' & <-). split; [done|]. split; [done|].
        apply elem_of_cons in Hg' as [->|Hg']; [congruence|]. eauto.
Qed.

Lemma unique_features_sublist (l : list string) (seen : gset string) :
  sublist (unique_features l seen) (map strip l).
Proof.
  revert seen. induction l as [|g l IH]; intros seen; [done|].
  cbn [unique_features map].
  destruct (_ && _).
  - by apply sublist_skip.
  - by apply sublist_cons.
Qed.

(** A text that survives as it is: stripped already and not empty. *)
Lemma unique_features_fixed (l : list string) (seen : gset string) :
  NoDup l -> (forall f, f ∈ l -> strip f = f /\ nonempty f = true /\ f ∉ seen) ->
  unique_features l seen = l.
Proof.
  revert seen. induction l as [|g l IH]; intros seen Hnd Hl; [done|].
  apply NoDup_cons in Hnd as [Hg Hnd]. cbn [unique_features].
  destruct (Hl g) as (Hs & Hne & Hseen); [left|].
  rewrite Hs, Hne, bool_decide_eq_true_2 by done. cbn. f_equal.
  apply IH; [done|]. intros f Hf. destruct (Hl f) as (? & ? & ?); [by right|].
  split; [done|]. split; [done|].
  rewrite elem_of_union, elem_of_singleton. intros [? | ->]; done.
Qed.

Lemma combine_features_facts (features_lists : list (list string)) :
  NoDup (combine_features features_lists) /\
  (forall f, f ∈ combine_features features_lists <->
             nonempty f = true /\
             exists g, g ∈ concat features_lists /\ strip g = f) /\
  sublist (combine_features features_lists) (map strip (concat features_lists)).
Proof.
  unfold combine_features.
  destruct (unique_features_spec (concat features_lists) ∅) as [Hnd Hiff].
  split; [done|]. split.
  - intros f. rewrite Hiff. split; [tauto|]. intros ?.
    split; [apply not_elem_of_empty|done].
  - apply unique_features_sublist.
Qed.


(** ** The merger: what the lists of the merged record hold *)

Lemma list_set_spec (l : list string) :
  NoDup (list_set l) /\ forall x, x ∈ list_set l <-> x ∈ l.
Proof.
  unfold list_set. split; [apply NoDup_elements|].
  intros x. by rewrite elem_of_elements, elem_of_list_to_set.
Qed.

Lemma elem_of_concat_map {A} (f : PageInfo -> list A) (l : list PageInfo) (x : A) :
  x ∈ concat (map f l) <-> exists p, p ∈ l /\ x ∈ f p.
Proof.
  induction l as [|q l IH]; cbn.
  - split; [by intros ?%elem_of_nil|]. by intros (p & ?%elem_of_nil & _).
  - rewrite elem_of_app, IH. split.
    + intros [H|(p & Hp & H)]; [exists q; split; [left|done]|].
      exists p. split; [by right|done].
    + intros (p & [->|Hp]%elem_of_cons & H); [by left|]. right. eauto.
Qed.

Lemma merge_pages_appends (pages : list PageInfo) (h : Store) (merged m : BikeData) :
  (merge_pages h merged pages).2 = Ok m ->
  images m = images merged ++ concat (map (fun p => images (bike_data p)) pages) /\
  source_urls m
  = source_urls merged ++ concat (map (fun p => source_urls (bike_data p)) pages).
Proof.
  revert h merged. induction pages as [|p pages IH]; intros h merged.
  - cbn. intros [= <-]. by rewrite !app_nil_r.
  - cbn [merge_pages].
    destruct (merge_page h merged p) as [h' [m'|e]] eqn:E; [|done].
    intros Hm. apply IH in Hm as [H1 H2].
    assert (E' : (merge_page h merged p).2 = Ok m') by by rewrite E.
    apply merge_page_Ok in E' as [s E'].
    apply merge_content_Ok in E'. cbn in E'.
    destruct E' as (_ & _ & _ & _ & _ & _ & _ & _ & _ & Hi & Hu).
    rewrite H1, H2, Hi, Hu. cbn [map concat]. by rewrite <- !app_assoc.
Qed.

Lemma merge_pages_colors (pages : list PageInfo) (h : Store) (merged m : BikeData) :
  (merge_pages h merged pages).2 = Ok m ->
  (pages <> [] -> NoDup (colors m)) /\
  forall x, x ∈ colors m <->
            x ∈ colors merged \/ exists p, p ∈ pages /\ x ∈ colors (bike_data p).
Proof.
  revert h merged. induction pages as [|p pages IH]; intros h merged.
  - cbn. intros [= <-]. split; [done|]. intros x. split; [by left|].
    by intros [?|(p & ?%elem_of_nil & _)].
  - cbn [merge_pages].
    destruct (merge_page h merged p) as [h' [m'|e]] eqn:E; [|done].
    intros Hm. pose proof Hm as Hm0. apply IH in Hm as [H1 H2].
    assert (E' : (merge_page h merged p).2 = Ok m') by by rewrite E.
    apply merge_page_Ok in E' as [s E'].
    apply merge_content_Ok in E'. cbn in E'.
    destruct E' as (_ & _ & _ & _ & _ & _ & _ & _ & Hc & _ & _).
    destruct (list_set_spec (colors merged ++ colors (bike_data p))) as [Hnd Hin].
    rewrite <- Hc in Hnd, Hin. split.
    + intros _. destruct pages as [|q pages]; [|by apply H1].
      cbn in Hm0. by injection Hm0 as <-.
    + intros x. rewrite H2, Hin, elem_of_app. split.
      * intros [[?|?]|(q & Hq & Hx)]; [by left| |].
        -- right. exists p. split; [left|done].
        -- right. exists q. split; [by right|done].
      * intros [?|(q & [->|Hq]%elem_of_cons & Hx)]; [by left; left| |].
        -- left. by right.
        -- right. eauto.
Qed.

Lemma merge_bike_data_Ok (h : Store) (a b : PageInfo) (t : list PageInfo)
    (m : BikeData) :
  (merge_bike_data h (a :: b :: t)).2 = Ok m ->
  exists top rest h1 merged s m',
    sort_by_priority (a :: b :: t) = top :: rest /\ rest <> [] /\
    merged = with_specifications s (bike_data top) /\
    (merge_pages h1 merged rest).2 = Ok m' /\ m = finish m'.
Proof.
  unfold merge_bike_data.
  destruct (sort_by_priority (a :: b :: t)) as [|top rest] eqn:E;
    [by apply sort_by_priority_nil in E|].
  assert (Hrest : rest <> []).
  { intros ->. apply (f_equal length) in E.
    rewrite sort_by_priority_length in E. done. }
  destruct (model_copy_deep_content h (bike_data top)) as [s Hs].
  destruct (model_copy_deep h (bike_data top)) as [h1 merged]. cbn in Hs.
  destruct (merge_pages h1 merged rest) as [h2 [m'|e]] eqn:E2; [|done].
  cbn. intros [= <-]. exists top, rest, h1, merged, s, m'.
  by rewrite E2.
Qed.

Lemma elem_of_sorted (l : list PageInfo) (top : PageInfo) (rest : list PageInfo)
    (P : PageInfo -> Prop) :
  sort_by_priority l = top :: rest ->
  (P top \/ exists p, p ∈ rest /\ P p) <-> exists p, p ∈ l /\ P p.
Proof.
  intros E. pose proof (sort_by_priority_perm l) as Hperm. rewrite E in Hperm.
  split.
  - intros [H|(p & Hp & H)].
    + exists top. split; [|done]. rewrite <- Hperm. left.
    + exists p. split; [|done]. rewrite <- Hperm. by right.
  - intros (p & Hp & H). rewrite <- Hperm in Hp.
    apply elem_of_cons in Hp as [->|Hp]; [by left|]. right. eauto.
Qed.

(** X7. The colours and the source URLs of a record merged from two or more
    records are the unions of those of the records: each list is free
    of repetitions and holds exactly the entries that some record
    holds. *)
Theorem merge_unions (h : Store) (pages : list PageInfo) (m : BikeData) :
  2 <= length pages ->
  (merge_bike_data h pages).2 = Ok m ->
  (NoDup (colors m) /\
   forall x, x ∈ colors m <-> exists p, p ∈ pages /\ x ∈ colors (bike_data p)) /\
  (NoDup (source_urls m) /\
   forall u, u ∈ source_urls m <->
             exists p, p ∈ pages /\ u ∈ source_urls (bike_data p)).
Proof.
  intros Hlen Hm. destruct pages as [|a [|b t]]; cbn in Hlen; try lia.
  apply merge_bike_data_Ok in Hm
    as (top & rest & h1 & merged & s & m' & E & Hrest & -> & Hm & ->).
  split.
  - apply merge_pages_colors in Hm as [H1 H2]. cbn in H2 |- *.
    split; [by apply H1|]. intros x. rewrite H2.
    apply (elem_of_sorted _ _ _ (fun p => x ∈ colors (bike_data p)) E).
  - apply merge_pages_appends in Hm as [_ H2]. cbn in H2 |- *.
    destruct (list_set_spec (source_urls m')) as [Hnd Hin].
    split; [done|]. intros u. rewrite Hin, H2, elem_of_app, elem_of_concat_map.
    apply (elem_of_sorted _ _ _ (fun p => u ∈ source_urls (bike_data p)) E).
Qed.

Lemma merge_unions_witness :
  exists m, (merge_bike_data example_store example_pages).2 = Ok m /\
            NoDup (source_urls m) /\ "https://d/gallery" ∈ source_urls m.
Proof.
  eassert (E : (merge_bike_data example_store example_pages).2 = Ok _)
    by (vm_compute; reflexivity).
  eexists. split; [exact E|].
  destruct (merge_unions example_store example_pages _ ltac:(cbn; lia) E)
    as [_ [Hnd Hin]].
  split; [exact Hnd|]. apply Hin. exists gallery_page.
  split; [left|]. left.
Defined.

Lemma merge_pages_features (pages : list PageInfo) (h : Store) (merged m : BikeData) :
  (merge_pages h merged pages).2 = Ok m -> pages <> [] ->
  NoDup (features m) /\
  forall f, f ∈ features m <->
            nonempty f = true /\
            exists g, (g ∈ features merged \/
                       exists p, p ∈ pages /\ g ∈ features (bike_data p)) /\
                      strip g = f.
Proof.
  revert h merged. induction pages as [|p pages IH]; intros h merged; [done|].
  cbn [merge_pages].
  destruct (merge_page h merged p) as [h' [m'|e]] eqn:E; [|done].
  intros Hm _.
  assert (E' : (merge_page h merged p).2 = Ok m') by by rewrite E.
  apply merge_page_Ok in E' as [s E'].
  apply merge_content_Ok in E'. cbn [features with_specifications] in E'.
  destruct E' as (_ & _ & _ & _ & _ & _ & _ & Hf & _ & _ & _).
  destruct (combine_features_facts [features merged; features (bike_data p)])
    as (Hnd & Hin & _).
  rewrite <- Hf in Hnd, Hin. cbn [concat] in Hin.
  assert (Hin' : forall f, f ∈ features m' <->
            nonempty f = true /\
            exists g, (g ∈ features merged \/ g ∈ features (bike_data p)) /\
                      strip g = f).
  { intros f. rewrite Hin. split; intros (Hne & g & Hg & Hs);
      (split; [done|]); exists g; (split; [|done]).
    - rewrite app_nil_r in Hg. by apply elem_of_app in Hg.
    - rewrite app_nil_r. by apply elem_of_app. }
  destruct pages as [|q pages].
  - cbn in Hm. injection Hm as <-. split; [done|].
    intros f. rewrite Hin'. split; intros (Hne & g & Hg & Hs);
      (split; [done|]); exists g; (split; [|done]).
    + destruct Hg as [?|?]; [by left|]. right. exists p. split; [left|done].
    + destruct Hg as [?|(p' & ->%list_elem_of_singleton & ?)]; [by left|by right].
  - destruct (IH h' m' Hm) as [Hnd' Hiff]; [done|]. split; [done|].
    intros f. rewrite Hiff. split; intros (Hne & g & Hg & Hs); (split; [done|]).
    + destruct Hg as [Hg|(p' & Hp' & Hg)].
      * apply Hin' in Hg as (_ & g0 & Hg0 & <-). exists g0.
        rewrite strip_idem in Hs. split; [|done].
        destruct Hg0 as [?|?]; [by left|]. right. exists p. split; [left|done].
      * exists g. split; [|done]. right. exists p'. split; [by right|done].
    + destruct Hg as [Hg|(p' & [->|Hp']%elem_of_cons & Hg)].
      * exists (strip g). rewrite strip_idem. split; [|done]. left.
        apply Hin'. split; [by rewrite Hs|]. exists g. split; [by left|done].
      * exists (strip g). rewrite strip_idem. split; [|done]. left.
        apply Hin'. split; [by rewrite Hs|]. exists g. split; [by right|done].
      * exists g. split; [|done]. right. eauto.
Qed.

(** X6. The features of a record merged from two or more records: no
    repetition, no empty text, and exactly the stripped features of the
    records. *)
Theorem merge_features (h : Store) (pages : list PageInfo) (m : BikeData) :
  2 <= length pages ->
  (merge_bike_data h pages).2 = Ok m ->
  NoDup (features m) /\
  forall f, f ∈ features m <->
            nonempty f = true /\
            exists p g, p ∈ pages /\ g ∈ features (bike_data p) /\ strip g = f.
Proof.
  intros Hlen Hm. destruct pages as [|a [|b t]]; cbn in Hlen; try lia.
  apply merge_bike_data_Ok in Hm
    as (top & rest & h1 & merged & s & m' & E & Hrest & -> & Hm & ->).
  apply merge_pages_features in Hm as [Hnd Hiff]; [|done].
  cbn in Hiff |- *. split; [done|]. intros f. rewrite Hiff.
  split; intros (Hne & H); (split; [done|]).
  - destruct H as (g & Hg & Hs).
    apply (elem_of_sorted _ _ _ (fun p => g ∈ features (bike_data p)) E) in Hg
      as (p & Hp & Hg). eauto.
  - destruct H as (p & g & Hp & Hg & Hs). exists g. split; [|done].
    apply (elem_of_sorted _ _ _ (fun p => g ∈ features (bike_data p)) E). eauto.
Qed.

Lemma merge_features_witness :
  exists m, (merge_bike_data ∅ described_pages).2 = Ok m /\
            NoDup (features m) /\ "ABS" ∈ features m.
Proof.
  eassert (E : (merge_bike_data ∅ described_pages).2 = Ok _)
    by (vm_compute; reflexivity).
  eexists. split; [exact E|].
  destruct (merge_features ∅ described_pages _ ltac:(cbn; lia) E) as [Hnd Hin].
  split; [exact Hnd|]. apply Hin. split; [reflexivity|].
  eexists _, " ABS ". split; [left|]. split; [left|reflexivity].
Defined.
